(** * Rule evaluation and business-rule scoring engine

    A shallow embedding of [rules_engine.py]: the atomic rule evaluator
    ([evaluate_rules]), the business rule evaluator
    ([evaluate_business_rules]) and the rule store ([load_rules_from_csv],
    [load_business_rules_from_csv], [load_rules], [load_business_rules]).

    Python values are an inductive type, Python floats are IEEE 754 binary64
    numbers in the executable specification of the Standard Library
    ([spec_float] with [prec = 53] and [emax = 1024]), exceptions are an
    explicit result type, dictionaries whose order is never observed are
    finite maps and sets; lists keep the order of the source. *)

From Stdlib Require Import ZArith String Ascii List Bool Lia.
From Stdlib Require Import Permutation Sorted.
From Stdlib Require Import Floats.SpecFloat.
From stdpp Require Import base option gmap strings.

Import ListNotations.
Local Open Scope string_scope.
Local Open Scope list_scope.
Local Open Scope Z_scope.

(* ===================================================================== *)
(** * Exceptions *)
(* ===================================================================== *)

(** A raised Python exception, an instance of [Exception]:
    [type(e).__name__] and [str(e)].  The text of the messages that the
    interpreter builds for its own errors is not modelled; those are raised
    with [builtin_error] and an empty message.  What is not an [Exception]
    ([KeyboardInterrupt], [SystemExit]) stops the process and has no place
    here. *)
Record exn := Exn { exn_type : string; exn_msg : string }.

Inductive result (A : Type) : Type :=
| Ok (a : A)
| Raise (e : exn).
Arguments Ok {A} a.
Arguments Raise {A} e.

Definition builtin_error (cls : string) : exn := Exn cls "".

Definition bind {A B : Type} (m : result A) (k : A -> result B) : result B :=
  match m with
  | Ok a => k a
  | Raise e => Raise e
  end.

Notation "'do' x <- m ; k" := (bind m (fun x => k))
  (at level 10, x name, m at level 100, k at level 200).
Notation "'do' ' p <- m ; k" := (bind m (fun x => let 'p := x in k))
  (at level 10, p pattern, m at level 100, k at level 200).

(** [for x in xs: ...] over a fallible body, the results collected in order. *)
Fixpoint mapM {A B : Type} (f : A -> result B) (xs : list A) : result (list B) :=
  match xs with
  | [] => Ok []
  | x :: xs' =>
      do y <- f x;
      do ys <- mapM f xs';
      Ok (y :: ys)
  end.

(* ===================================================================== *)
(** * Python floats: IEEE 754 binary64 *)
(* ===================================================================== *)

Module Float.

Definition prec : Z := 53.
Definition emax : Z := 1024.

Definition float := spec_float.

Definition zero : float := S754_zero false.
Definition one : float := Eval cbv in binary_normalize prec emax 1 0 false.
Definition nan : float := S754_nan.
Definition inf (neg : bool) : float := S754_infinity neg.

Definition add : float -> float -> float := SFadd prec emax.
Definition eqb : float -> float -> bool := SFeqb.
Definition ltb : float -> float -> bool := SFltb.
Definition leb : float -> float -> bool := SFleb.
Definition gtb (x y : float) : bool := ltb y x.
Definition geb (x y : float) : bool := leb y x.

Definition is_nan (x : float) : bool :=
  match x with S754_nan => true | _ => false end.

Definition is_inf (x : float) : bool :=
  match x with S754_infinity _ => true | _ => false end.

(** A zero or a finite number. *)
Definition is_finite (x : float) : bool :=
  match x with S754_zero _ | S754_finite _ _ _ => true | _ => false end.

(** The members of [spec_float] that are binary64 numbers: a mantissa of at
    most 53 bits, of exactly 53 bits above the smallest exponent, and an
    exponent between -1074 and 971. *)
Definition is_binary64 (x : float) : bool := valid_binary prec emax x.

(** [float(n)] for an int: the nearest binary64 number, ties to even;
    [OverflowError] when [n] is too large. *)
Definition of_Z (n : Z) : result float :=
  let f := binary_normalize prec emax n 0 false in
  if is_inf f then Raise (builtin_error "OverflowError") else Ok f.

(** The nearest binary64 number to [n * 10 ^ dexp] (no error on overflow:
    the conversion of a literal gives an infinity). *)
Definition of_decimal (neg : bool) (n : Z) (dexp : Z) : float :=
  match n with
  | Z0 => S754_zero neg
  | Zneg _ => S754_nan
  | Zpos _ =>
      if 0 <=? dexp then
        binary_normalize prec emax ((if neg then - n else n) * 10 ^ dexp) 0 false
      else
        let '(q, e, l) := SFdiv_core_binary prec emax n 0 (10 ^ (- dexp)) 0 in
        binary_round_aux prec emax neg q e l
  end.

(** The sign and the exact value of an int compared with a float, as
    [int.__lt__] and friends compute it (no rounding of the int). *)
Definition compare_Z (n : Z) (x : float) : option comparison :=
  match x with
  | S754_nan => None
  | S754_infinity s => Some (if s then Gt else Lt)
  | S754_zero _ => Some (n ?= 0)
  | S754_finite s m e =>
      let v := if s then Zneg m else Zpos m in
      Some (if 0 <=? e then n ?= v * 2 ^ e else n * 2 ^ (- e) ?= v)
  end.

End Float.

Abbreviation float := Float.float.

(* ===================================================================== *)
(** * Python strings *)
(* ===================================================================== *)

(** A Python [str] is represented by its UTF-8 encoding: a string of this
    file is the sequence of the bytes of the characters, which is what a
    string literal denotes here, so that ["é"] has two bytes.  A sequence
    of bytes that is not well-formed UTF-8 stands for no Python string; the
    functions below take each byte that starts no well-formed sequence as a
    character that is neither a blank, nor a digit, nor a letter.

    The functions are [str.strip], [str.upper], [str.split], [int] and
    [float] of CPython 3.11, whose character database is Unicode 14.0. *)
Module Str.

Definition chars : string -> list ascii := list_ascii_of_string.
Definition of_chars : list ascii -> string := string_of_list_ascii.

Definition byte (c : ascii) : Z := Z.of_N (N_of_ascii c).
Definition of_byte (b : Z) : ascii := ascii_of_N (Z.to_N b).

(** ** UTF-8 *)

(** A continuation byte, [10xxxxxx]. *)
Definition is_cont (b : Z) : bool := (128 <=? b) && (b <=? 191).

(** The code point of a well-formed sequence of two, three or four bytes:
    no overlong form, no surrogate, nothing above U+10FFFF. *)
Definition code2 (b1 b2 : Z) : option Z :=
  if (194 <=? b1) && (b1 <=? 223) && is_cont b2
  then Some ((b1 - 192) * 64 + (b2 - 128))
  else None.

Definition code3 (b1 b2 b3 : Z) : option Z :=
  if (224 <=? b1) && (b1 <=? 239) && is_cont b2 && is_cont b3 then
    let c := (b1 - 224) * 4096 + (b2 - 128) * 64 + (b3 - 128) in
    if (2048 <=? c) && negb ((55296 <=? c) && (c <=? 57343)) then Some c else None
  else None.

Definition code4 (b1 b2 b3 b4 : Z) : option Z :=
  if (240 <=? b1) && (b1 <=? 244) && is_cont b2 && is_cont b3 && is_cont b4 then
    let c := (b1 - 240) * 262144 + (b2 - 128) * 4096 + (b3 - 128) * 64 + (b4 - 128) in
    if (65536 <=? c) && (c <=? 1114111) then Some c else None
  else None.

(** The bytes of a code point. *)
Definition encode (c : Z) : list ascii :=
  if c <? 128 then [of_byte c]
  else if c <? 2048 then [of_byte (192 + c / 64); of_byte (128 + c mod 64)]
  else if c <? 65536 then
    [of_byte (224 + c / 4096); of_byte (128 + (c / 64) mod 64);
     of_byte (128 + c mod 64)]
  else
    [of_byte (240 + c / 262144); of_byte (128 + (c / 4096) mod 64);
     of_byte (128 + (c / 64) mod 64); of_byte (128 + c mod 64)].

(** [s] as a string, from the code points of its characters. *)
Definition of_codes (cs : list Z) : string := of_chars (flat_map encode cs).

(** The characters of a sequence of bytes, each with its code point and its
    bytes; a byte that starts no well-formed sequence stands alone, without
    a code point. *)
Fixpoint units (l : list ascii) : list (option Z * list ascii) :=
  match l with
  | [] => []
  | c1 :: r1 =>
      if byte c1 <? 128 then (Some (byte c1), [c1]) :: units r1
      else
        match r1 with
        | [] => [(None, [c1])]
        | c2 :: r2 =>
            match code2 (byte c1) (byte c2) with
            | Some c => (Some c, [c1; c2]) :: units r2
            | None =>
                match r2 with
                | [] => (None, [c1]) :: units r1
                | c3 :: r3 =>
                    match code3 (byte c1) (byte c2) (byte c3) with
                    | Some c => (Some c, [c1; c2; c3]) :: units r3
                    | None =>
                        match r3 with
                        | [] => (None, [c1]) :: units r1
                        | c4 :: r4 =>
                            match code4 (byte c1) (byte c2) (byte c3) (byte c4) with
                            | Some c => (Some c, [c1; c2; c3; c4]) :: units r4
                            | None => (None, [c1]) :: units r1
                            end
                        end
                    end
                end
            end
        end
  end.

(** ** The character database *)

(** The whitespace characters, as ranges of code points: those for which
    [str.isspace] holds, which are the ones that [str.strip] removes. *)
Definition space_ranges : list (Z * Z) :=
  [(9, 13); (28, 32); (133, 133); (160, 160); (5760, 5760); (8192, 8202); (8232, 8233); (8239, 8239); (8287, 8287); (12288, 12288)].

(** The code points of the digits zero of the decimal digit characters
    (category Nd); each is followed by its digits one to nine. *)
Definition decimal_zeros : list Z :=
  [48; 1632; 1776; 1984; 2406; 2534; 2662; 2790; 2918; 3046; 3174; 3302;
   3430; 3558; 3664; 3792; 3872; 4160; 4240; 6112; 6160; 6470; 6608; 6784;
   6800; 6992; 7088; 7232; 7248; 42528; 43216; 43264; 43472; 43504; 43600;
   44016; 65296; 66720; 68912; 69734; 69872; 69942; 70096; 70384; 70736;
   70864; 71248; 71360; 71472; 71904; 72016; 72784; 73040; 73120; 92768;
   92864; 93008; 120782; 120792; 120802; 120812; 120822; 123200; 123632;
   125264; 130032].

(** The characters that [str.upper] changes into one other character, as
    runs [(first, count, step, delta)]: the [count] code points from [first]
    on, [step] apart, are moved by [delta]. *)
Definition upper_runs : list (Z * Z * Z * Z) :=
  [(97, 26, 1, -32); (181, 1, 1, 743); (224, 23, 1, -32); (248, 7, 1, -32);
   (255, 1, 1, 121); (257, 24, 2, -1); (305, 1, 1, -232); (307, 3, 2, -1);
   (314, 8, 2, -1); (331, 23, 2, -1); (378, 3, 2, -1); (383, 1, 1, -300);
   (384, 1, 1, 195); (387, 2, 2, -1); (392, 1, 1, -1); (396, 1, 1, -1);
   (402, 1, 1, -1); (405, 1, 1, 97); (409, 1, 1, -1); (410, 1, 1, 163);
   (414, 1, 1, 130); (417, 3, 2, -1); (424, 1, 1, -1); (429, 1, 1, -1);
   (432, 1, 1, -1); (436, 2, 2, -1); (441, 1, 1, -1); (445, 1, 1, -1);
   (447, 1, 1, 56); (453, 1, 1, -1); (454, 1, 1, -2); (456, 1, 1, -1);
   (457, 1, 1, -2); (459, 1, 1, -1); (460, 1, 1, -2); (462, 8, 2, -1);
   (477, 1, 1, -79); (479, 9, 2, -1); (498, 1, 1, -1); (499, 1, 1, -2);
   (501, 1, 1, -1); (505, 20, 2, -1); (547, 9, 2, -1); (572, 1, 1, -1);
   (575, 2, 1, 10815); (578, 1, 1, -1); (583, 5, 2, -1);
   (592, 1, 1, 10783); (593, 1, 1, 10780); (594, 1, 1, 10782);
   (595, 1, 1, -210); (596, 1, 1, -206); (598, 2, 1, -205);
   (601, 1, 1, -202); (603, 1, 1, -203); (604, 1, 1, 42319);
   (608, 1, 1, -205); (609, 1, 1, 42315); (611, 1, 1, -207);
   (613, 1, 1, 42280); (614, 1, 1, 42308); (616, 1, 1, -209);
   (617, 1, 1, -211); (618, 1, 1, 42308); (619, 1, 1, 10743);
   (620, 1, 1, 42305); (623, 1, 1, -211); (625, 1, 1, 10749);
   (626, 1, 1, -213); (629, 1, 1, -214); (637, 1, 1, 10727);
   (640, 1, 1, -218); (642, 1, 1, 42307); (643, 1, 1, -218);
   (647, 1, 1, 42282); (648, 1, 1, -218); (649, 1, 1, -69);
   (650, 2, 1, -217); (652, 1, 1, -71); (658, 1, 1, -219);
   (669, 1, 1, 42261); (670, 1, 1, 42258); (837, 1, 1, 84);
   (881, 2, 2, -1); (887, 1, 1, -1); (891, 3, 1, 130); (940, 1, 1, -38);
   (941, 3, 1, -37); (945, 17, 1, -32); (962, 1, 1, -31); (963, 9, 1, -32);
   (972, 1, 1, -64); (973, 2, 1, -63); (976, 1, 1, -62); (977, 1, 1, -57);
   (981, 1, 1, -47); (982, 1, 1, -54); (983, 1, 1, -8); (985, 12, 2, -1);
   (1008, 1, 1, -86); (1009, 1, 1, -80); (1010, 1, 1, 7);
   (1011, 1, 1, -116); (1013, 1, 1, -96); (1016, 1, 1, -1);
   (1019, 1, 1, -1); (1072, 32, 1, -32); (1104, 16, 1, -80);
   (1121, 17, 2, -1); (1163, 27, 2, -1); (1218, 7, 2, -1);
   (1231, 1, 1, -15); (1233, 48, 2, -1); (1377, 38, 1, -48);
   (4304, 43, 1, 3008); (4349, 3, 1, 3008); (5112, 6, 1, -8);
   (7296, 1, 1, -6254); (7297, 1, 1, -6253); (7298, 1, 1, -6244);
   (7299, 2, 1, -6242); (7301, 1, 1, -6243); (7302, 1, 1, -6236);
   (7303, 1, 1, -6181); (7304, 1, 1, 35266); (7545, 1, 1, 35332);
   (7549, 1, 1, 3814); (7566, 1, 1, 35384); (7681, 75, 2, -1);
   (7835, 1, 1, -59); (7841, 48, 2, -1); (7936, 8, 1, 8); (7952, 6, 1, 8);
   (7968, 8, 1, 8); (7984, 8, 1, 8); (8000, 6, 1, 8); (8017, 4, 2, 8);
   (8032, 8, 1, 8); (8048, 2, 1, 74); (8050, 4, 1, 86); (8054, 2, 1, 100);
   (8056, 2, 1, 128); (8058, 2, 1, 112); (8060, 2, 1, 126);
   (8112, 2, 1, 8); (8126, 1, 1, -7205); (8144, 2, 1, 8); (8160, 2, 1, 8);
   (8165, 1, 1, 7); (8526, 1, 1, -28); (8560, 16, 1, -16);
   (8580, 1, 1, -1); (9424, 26, 1, -26); (11312, 48, 1, -48);
   (11361, 1, 1, -1); (11365, 1, 1, -10795); (11366, 1, 1, -10792);
   (11368, 3, 2, -1); (11379, 1, 1, -1); (11382, 1, 1, -1);
   (11393, 50, 2, -1); (11500, 2, 2, -1); (11507, 1, 1, -1);
   (11520, 38, 1, -7264); (11559, 1, 1, -7264); (11565, 1, 1, -7264);
   (42561, 23, 2, -1); (42625, 14, 2, -1); (42787, 7, 2, -1);
   (42803, 31, 2, -1); (42874, 2, 2, -1); (42879, 5, 2, -1);
   (42892, 1, 1, -1); (42897, 2, 2, -1); (42900, 1, 1, 48);
   (42903, 10, 2, -1); (42933, 8, 2, -1); (42952, 2, 2, -1);
   (42961, 1, 1, -1); (42967, 2, 2, -1); (42998, 1, 1, -1);
   (43859, 1, 1, -928); (43888, 80, 1, -38864); (65345, 26, 1, -32);
   (66600, 40, 1, -40); (66776, 36, 1, -40); (66967, 11, 1, -39);
   (66979, 15, 1, -39); (66995, 7, 1, -39); (67003, 2, 1, -39);
   (68800, 51, 1, -64); (71872, 32, 1, -32); (93792, 32, 1, -32);
   (125218, 34, 1, -34)].

(** The characters that [str.upper] changes into several characters. *)
Definition upper_special : list (Z * list Z) :=
  [(223, [83; 83]); (329, [700; 78]); (496, [74; 780]);
   (912, [921; 776; 769]); (944, [933; 776; 769]); (1415, [1333; 1362]);
   (7830, [72; 817]); (7831, [84; 776]); (7832, [87; 778]);
   (7833, [89; 778]); (7834, [65; 702]); (8016, [933; 787]);
   (8018, [933; 787; 768]); (8020, [933; 787; 769]);
   (8022, [933; 787; 834]); (8064, [7944; 921]); (8065, [7945; 921]);
   (8066, [7946; 921]); (8067, [7947; 921]); (8068, [7948; 921]);
   (8069, [7949; 921]); (8070, [7950; 921]); (8071, [7951; 921]);
   (8072, [7944; 921]); (8073, [7945; 921]); (8074, [7946; 921]);
   (8075, [7947; 921]); (8076, [7948; 921]); (8077, [7949; 921]);
   (8078, [7950; 921]); (8079, [7951; 921]); (8080, [7976; 921]);
   (8081, [7977; 921]); (8082, [7978; 921]); (8083, [7979; 921]);
   (8084, [7980; 921]); (8085, [7981; 921]); (8086, [7982; 921]);
   (8087, [7983; 921]); (8088, [7976; 921]); (8089, [7977; 921]);
   (8090, [7978; 921]); (8091, [7979; 921]); (8092, [7980; 921]);
   (8093, [7981; 921]); (8094, [7982; 921]); (8095, [7983; 921]);
   (8096, [8040; 921]); (8097, [8041; 921]); (8098, [8042; 921]);
   (8099, [8043; 921]); (8100, [8044; 921]); (8101, [8045; 921]);
   (8102, [8046; 921]); (8103, [8047; 921]); (8104, [8040; 921]);
   (8105, [8041; 921]); (8106, [8042; 921]); (8107, [8043; 921]);
   (8108, [8044; 921]); (8109, [8045; 921]); (8110, [8046; 921]);
   (8111, [8047; 921]); (8114, [8122; 921]); (8115, [913; 921]);
   (8116, [902; 921]); (8118, [913; 834]); (8119, [913; 834; 921]);
   (8124, [913; 921]); (8130, [8138; 921]); (8131, [919; 921]);
   (8132, [905; 921]); (8134, [919; 834]); (8135, [919; 834; 921]);
   (8140, [919; 921]); (8146, [921; 776; 768]); (8147, [921; 776; 769]);
   (8150, [921; 834]); (8151, [921; 776; 834]); (8162, [933; 776; 768]);
   (8163, [933; 776; 769]); (8164, [929; 787]); (8166, [933; 834]);
   (8167, [933; 776; 834]); (8178, [8186; 921]); (8179, [937; 921]);
   (8180, [911; 921]); (8182, [937; 834]); (8183, [937; 834; 921]);
   (8188, [937; 921]); (64256, [70; 70]); (64257, [70; 73]);
   (64258, [70; 76]); (64259, [70; 70; 73]); (64260, [70; 70; 76]);
   (64261, [83; 84]); (64262, [83; 84]); (64275, [1348; 1350]);
   (64276, [1348; 1333]); (64277, [1348; 1339]); (64278, [1358; 1350]);
   (64279, [1348; 1341])].

(** [c.isspace()]. *)
Definition is_space_code (c : Z) : bool :=
  existsb (fun r => (fst r <=? c) && (c <=? snd r)) space_ranges.

(** The value of a decimal digit character. *)
Definition decimal_code (c : Z) : option Z :=
  match List.find (fun z => (z <=? c) && (c <? z + 10)) decimal_zeros with
  | Some z => Some (c - z)
  | None => None
  end.

(** What [c.upper()] is, when it is not [c]. *)
Definition upper_code (c : Z) : option (list Z) :=
  match List.find (fun s => fst s =? c) upper_special with
  | Some s => Some (snd s)
  | None =>
      match
        List.find
          (fun r =>
             let '(first, count, step, _) := r in
             (first <=? c) && (c <=? first + step * (count - 1))
             && ((c - first) mod step =? 0))
          upper_runs
      with
      | Some (_, _, _, delta) => Some [c + delta]
      | None => None
      end
  end.

(** ** [str.strip] *)

(** [s.lstrip()], on the bytes: the whitespace characters at the head,
    which have one, two or three bytes, are dropped. *)
Fixpoint lstrip_chars (l : list ascii) : list ascii :=
  match l with
  | [] => []
  | c1 :: r1 =>
      if byte c1 <? 128 then
        if is_space_code (byte c1) then lstrip_chars r1 else l
      else
        match r1 with
        | [] => l
        | c2 :: r2 =>
            match code2 (byte c1) (byte c2) with
            | Some c => if is_space_code c then lstrip_chars r2 else l
            | None =>
                match r2 with
                | [] => l
                | c3 :: r3 =>
                    match code3 (byte c1) (byte c2) (byte c3) with
                    | Some c => if is_space_code c then lstrip_chars r3 else l
                    | None => l
                    end
                end
            end
        end
  end.

(** [s.rstrip()], on the bytes from the last to the first: the last
    character ends with the first byte of the list and starts with the
    first lead byte that follows. *)
Fixpoint rstrip_rev (l : list ascii) : list ascii :=
  match l with
  | [] => []
  | c1 :: r1 =>
      if byte c1 <? 128 then
        if is_space_code (byte c1) then rstrip_rev r1 else l
      else
        match r1 with
        | [] => l
        | c2 :: r2 =>
            match code2 (byte c2) (byte c1) with
            | Some c => if is_space_code c then rstrip_rev r2 else l
            | None =>
                match r2 with
                | [] => l
                | c3 :: r3 =>
                    match code3 (byte c3) (byte c2) (byte c1) with
                    | Some c => if is_space_code c then rstrip_rev r3 else l
                    | None => l
                    end
                end
            end
        end
  end.

Definition strip_chars (l : list ascii) : list ascii :=
  rev (rstrip_rev (rev (lstrip_chars l))).

Definition strip (s : string) : string := of_chars (strip_chars (chars s)).

(** ** [str.upper] *)

Definition upper_unit (u : option Z * list ascii) : list ascii :=
  match fst u with
  | Some c =>
      match upper_code c with
      | Some cs => flat_map encode cs
      | None => snd u
      end
  | None => snd u
  end.

Definition upper_chars (l : list ascii) : list ascii :=
  flat_map upper_unit (units l).

Definition upper (s : string) : string := of_chars (upper_chars (chars s)).

(** ** [str.split] *)

(** [s.split(sep)] for a one-byte separator: the pieces between the
    separators, empty pieces kept. *)
Fixpoint split_chars (sep : ascii) (l : list ascii) (cur : list ascii)
  : list (list ascii) :=
  match l with
  | [] => [rev cur]
  | c :: r =>
      if Ascii.eqb c sep then rev cur :: split_chars sep r []
      else split_chars sep r (c :: cur)
  end.

Definition split (sep : ascii) (s : string) : list string :=
  map of_chars (split_chars sep (chars s) []).

(** ** [int] and [float] of a string *)

(** Both first rewrite the string in ASCII: a character below 127 stays, a
    whitespace character becomes a space, a decimal digit character becomes
    its ASCII digit, and any other character makes the conversion fail. *)
Definition to_ascii_unit (u : option Z * list ascii) : option ascii :=
  match fst u with
  | Some c =>
      if c <? 127 then Some (of_byte c)
      else if is_space_code c then Some " "%char
      else
        match decimal_code c with
        | Some d => Some (of_byte (48 + d))
        | None => None
        end
  | None => None
  end.

Fixpoint to_ascii_units (us : list (option Z * list ascii)) : option (list ascii) :=
  match us with
  | [] => Some []
  | u :: us' =>
      match to_ascii_unit u, to_ascii_units us' with
      | Some c, Some cs => Some (c :: cs)
      | _, _ => None
      end
  end.

Definition to_ascii (l : list ascii) : option (list ascii) :=
  to_ascii_units (units l).

(** The blanks that the parsers skip around a number: space, tab, line
    feed, vertical tab, form feed and carriage return. *)
Definition is_c_space (c : ascii) : bool :=
  ((9 <=? byte c) && (byte c <=? 13)) || (byte c =? 32).

Fixpoint lstrip_c (l : list ascii) : list ascii :=
  match l with
  | c :: r => if is_c_space c then lstrip_c r else l
  | [] => []
  end.

Definition strip_c (l : list ascii) : list ascii :=
  rev (lstrip_c (rev (lstrip_c l))).

Definition is_digit (c : ascii) : bool := (48 <=? byte c) && (byte c <=? 57).

Definition digit_val (c : ascii) : Z := byte c - 48.

(** The rest of a [digitpart]: [(["_"] digit)*], after a first digit.
    Returns the number read so far, how many digits it has, and what
    follows. *)
Fixpoint digitpart_tail (l : list ascii) (acc cnt : Z) : Z * Z * list ascii :=
  match l with
  | [] => (acc, cnt, [])
  | c :: r =>
      if is_digit c then digitpart_tail r (10 * acc + digit_val c) (cnt + 1)
      else if Ascii.eqb c "_" then
        match r with
        | c2 :: r2 =>
            if is_digit c2
            then digitpart_tail r2 (10 * acc + digit_val c2) (cnt + 1)
            else (acc, cnt, l)
        | [] => (acc, cnt, l)
        end
      else (acc, cnt, l)
  end.

(** [digitpart ::= digit (["_"] digit)*], continuing the number [acc]. *)
Definition digitpart (l : list ascii) (acc : Z) : option (Z * Z * list ascii) :=
  match l with
  | c :: r =>
      if is_digit c then Some (digitpart_tail r (10 * acc + digit_val c) 1)
      else None
  | [] => None
  end.

(** An optional sign: [true] for a minus. *)
Definition sign (l : list ascii) : bool * list ascii :=
  match l with
  | c :: r =>
      if Ascii.eqb c "-" then (true, r)
      else if Ascii.eqb c "+" then (false, r)
      else (false, l)
  | [] => (false, [])
  end.

(** [sys.get_int_max_str_digits()], as the interpreter starts. *)
Definition int_max_str_digits : Z := 4300.

(** [int(s)] in base ten: blanks, an optional sign, digits; [ValueError]
    for anything else and for more digits than the interpreter allows. *)
Definition to_int (s : string) : result Z :=
  match to_ascii (chars s) with
  | None => Raise (builtin_error "ValueError")
  | Some a =>
      let '(neg, l) := sign (strip_c a) in
      match digitpart l 0 with
      | Some (n, cnt, []) =>
          if int_max_str_digits <? cnt then Raise (builtin_error "ValueError")
          else Ok (if neg then - n else n)
      | _ => Raise (builtin_error "ValueError")
      end
  end.

(** [exponent ::= ("e" | "E") [sign] digitpart], or nothing. *)
Definition exponent (l : list ascii) : option (Z * list ascii) :=
  match l with
  | c :: r =>
      if Ascii.eqb c "e" || Ascii.eqb c "E" then
        let '(neg, r') := sign r in
        match digitpart r' 0 with
        | Some (n, _, rest) => Some (if neg then - n else n, rest)
        | None => None
        end
      else Some (0, l)
  | [] => Some (0, [])
  end.

(** [number ::= [digitpart] "." digitpart | digitpart ["."]]: the digits
    read as one integer, and how many of them follow the point. *)
Definition number (l : list ascii) : option (Z * Z * list ascii) :=
  match digitpart l 0 with
  | Some (n, _, c :: r) =>
      if Ascii.eqb c "." then
        match digitpart r n with
        | Some (n', k, rest) => Some (n', k, rest)
        | None => Some (n, 0, r)
        end
      else Some (n, 0, c :: r)
  | Some (n, _, []) => Some (n, 0, [])
  | None =>
      match l with
      | c :: r => if Ascii.eqb c "." then digitpart r 0 else None
      | [] => None
      end
  end.

(** The ASCII letters in upper case, for the words [inf] and [nan]. *)
Definition upper_ascii (c : ascii) : ascii :=
  if (97 <=? byte c) && (byte c <=? 122) then of_byte (byte c - 32) else c.

(** [float(s)]: blanks, an optional sign, then [inf], [infinity] or [nan]
    in any case, or a decimal number with an optional exponent;
    [ValueError] for anything else. *)
Definition to_float (s : string) : result float :=
  match to_ascii (chars s) with
  | None => Raise (builtin_error "ValueError")
  | Some a =>
      let '(neg, l) := sign (strip_c a) in
      let word := of_chars (map upper_ascii l) in
      if (word =? "INF")%string || (word =? "INFINITY")%string then Ok (Float.inf neg)
      else if (word =? "NAN")%string then Ok Float.nan
      else
        match number l with
        | Some (n, k, rest) =>
            match exponent rest with
            | Some (e, []) => Ok (Float.of_decimal neg n (e - k))
            | _ => Raise (builtin_error "ValueError")
            end
        | None => Raise (builtin_error "ValueError")
        end
  end.

End Str.

(* ===================================================================== *)
(** * Python values *)
(* ===================================================================== *)

(** What a metric or a [value_exact] can be: [None], a bool, an int, a
    float, a string, or a collection (a list stands for every built-in
    container: the engine only looks at whether it is empty). *)
Inductive pyval : Type :=
| PNone
| PBool (b : bool)
| PInt (n : Z)
| PFloat (x : float)
| PStr (s : string)
| PList (items : list pyval).

(** The numeric tower: a bool is the int 0 or 1. *)
Inductive number : Type :=
| NInt (n : Z)
| NFloat (x : float).

Definition as_number (v : pyval) : option number :=
  match v with
  | PBool b => Some (NInt (if b then 1 else 0))
  | PInt n => Some (NInt n)
  | PFloat x => Some (NFloat x)
  | _ => None
  end.

(** Three-way comparison of two numbers; [None] when a NaN is involved. *)
Definition number_compare (a b : number) : option comparison :=
  match a, b with
  | NInt m, NInt n => Some (m ?= n)
  | NInt m, NFloat y => Float.compare_Z m y
  | NFloat x, NInt n => CompOpp <$> Float.compare_Z n x
  | NFloat x, NFloat y => SFcompare x y
  end.

(** [bool(v)]. *)
Definition py_bool (v : pyval) : bool :=
  match v with
  | PNone => false
  | PBool b => b
  | PInt n => negb (n =? 0)
  | PFloat x => negb (Float.eqb x Float.zero)
  | PStr s => negb (s =? "")%string
  | PList items => match items with [] => false | _ :: _ => true end
  end.

(** [float(v)]. *)
Definition py_float (v : pyval) : result float :=
  match v with
  | PNone => Raise (builtin_error "TypeError")
  | PBool b => Ok (if b then Float.one else Float.zero)
  | PInt n => Float.of_Z n
  | PFloat x => Ok x
  | PStr s => Str.to_float s
  | PList _ => Raise (builtin_error "TypeError")
  end.

(** [a == b]. *)
Fixpoint py_eq (a b : pyval) {struct a} : bool :=
  match a, b with
  | PNone, PNone => true
  | PStr s, PStr t => (s =? t)%string
  | PList xs, PList ys =>
      (fix all2 (xs : list pyval) (ys : list pyval) {struct xs} : bool :=
         match xs, ys with
         | [], [] => true
         | x :: xs', y :: ys' => py_eq x y && all2 xs' ys'
         | _, _ => false
         end) xs ys
  | _, _ =>
      match as_number a, as_number b with
      | Some m, Some n =>
          match number_compare m n with Some Eq => true | _ => false end
      | _, _ => false
      end
  end.

Definition py_ne (a b : pyval) : bool := negb (py_eq a b).

(** [v >= bound] and [v <= bound] against a float: defined on numbers,
    [TypeError] on anything else. *)
Definition py_ge (v : pyval) (bound : float) : result bool :=
  match as_number v with
  | Some n =>
      Ok match number_compare n (NFloat bound) with
         | Some (Gt | Eq) => true
         | _ => false
         end
  | None => Raise (builtin_error "TypeError")
  end.

Definition py_le (v : pyval) (bound : float) : result bool :=
  match as_number v with
  | Some n =>
      Ok match number_compare n (NFloat bound) with
         | Some (Lt | Eq) => true
         | _ => false
         end
  | None => Raise (builtin_error "TypeError")
  end.

Definition is_none (v : pyval) : bool :=
  match v with PNone => true | _ => false end.

(* ===================================================================== *)
(** * Data model *)
(* ===================================================================== *)

Module Rule.
Record t := mk {
  id : string;
  category : string;
  label : string;
  metric : string;
  operator : string;
  value_low : option float;
  value_high : option float;
  value_exact : pyval;
  unit : option string;
  window_value : option Z;
  window_unit : option string;
  weight : float;
  is_gate : bool
}.
End Rule.

Module BusinessRuleOption.
Record t := mk {
  source : string;
  group_id : string;
  parent_id : option string;
  priority : option Z;
  match_type : option string;
  category : string;
  business_rule_label : string;
  likert_value : Z;
  likert_label : string;
  all_of : list string;
  any_of : list string;
  none_of : list string;
  threshold_attr : option string;
  weight : float
}.
End BusinessRuleOption.

(** One entry of the atomic log: a dict whose keys depend on how the rule
    ended.  An absent key is [None] here, as [entry.get] gives it. *)
Module AtomicLogEntry.
Record thresholds_t := mk_thresholds {
  th_value_low : option float;
  th_value_high : option float;
  th_value_exact : pyval
}.
Record window_t := mk_window {
  w_value : option Z;
  w_unit : option string
}.
Record t := mk {
  id : string;
  category : string;
  label : string;
  metric : string;
  operator : option string;
  thresholds : option thresholds_t;
  window : option window_t;
  metric_value : pyval;
  matched : bool;
  weight_applied : float;
  is_gate : option bool;
  error : option string;
  exception_type : option string
}.
End AtomicLogEntry.

(** A provider adapter, seen through its one capability [get_metric]. *)
Definition provider : Type := string -> option Z -> option string -> result pyval.

(* ===================================================================== *)
(** * Atomic rule evaluator: [evaluate_rules] *)
(* ===================================================================== *)

(** [if isinstance(target, str): t = target.strip().upper(); if t in
    ("TRUE", "FALSE"): target = True if t == "TRUE" else False]. *)
Definition coerce_bool_string (target : pyval) : pyval :=
  match target with
  | PStr s =>
      let t := Str.upper (Str.strip s) in
      if (t =? "TRUE")%string || (t =? "FALSE")%string
      then PBool (t =? "TRUE")%string
      else target
  | _ => target
  end.

(** [try: mv = float(metric_value) except Exception: mv = None]. *)
Definition try_float (metric_value : pyval) : option float :=
  match py_float metric_value with
  | Ok mv => Some mv
  | Raise _ => None
  end.

(** The operator chain of [evaluate_rules]: the value of [matched], or the
    exception that leaves the function. *)
Definition eval_operator (rule : Rule.t) (metric_value : pyval) : result bool :=
  let op := Rule.operator rule in
  if (op =? "EXISTS")%string then
    Ok (py_bool metric_value)
  else if (op =? "MISSING")%string then
    Ok (negb (py_bool metric_value))
  else if (op =? "EQ")%string then
    Ok (py_eq metric_value (coerce_bool_string (Rule.value_exact rule)))
  else if (op =? "NE")%string then
    Ok (py_ne metric_value (coerce_bool_string (Rule.value_exact rule)))
  else if (op =? "LT")%string || (op =? "LTE")%string
          || (op =? "GT")%string || (op =? "GTE")%string then
    match try_float metric_value with
    | None => Ok false
    | Some mv =>
        if is_none (Rule.value_exact rule) then Ok false
        else
          do thr <- py_float (Rule.value_exact rule);
          if (op =? "LT")%string then Ok (Float.ltb mv thr)
          else if (op =? "LTE")%string then Ok (Float.leb mv thr)
          else if (op =? "GT")%string then Ok (Float.gtb mv thr)
          else Ok (Float.geb mv thr)
    end
  else if (op =? "RANGE")%string || (op =? "BETWEEN")%string then
    do low_ok <-
      match Rule.value_low rule with
      | None => Ok true
      | Some low =>
          if is_none metric_value then Ok false else py_ge metric_value low
      end;
    do high_ok <-
      match Rule.value_high rule with
      | None => Ok true
      | Some high =>
          if is_none metric_value then Ok false else py_le metric_value high
      end;
    Ok (low_ok && high_ok)
  else
    Ok false.

(** The entry logged when [get_metric] raised. *)
Definition error_entry (rule : Rule.t) (e : exn) : AtomicLogEntry.t :=
  {| AtomicLogEntry.id := Rule.id rule;
     AtomicLogEntry.category := Rule.category rule;
     AtomicLogEntry.label := Rule.label rule;
     AtomicLogEntry.metric := Rule.metric rule;
     AtomicLogEntry.operator := None;
     AtomicLogEntry.thresholds := None;
     AtomicLogEntry.window := None;
     AtomicLogEntry.metric_value := PNone;
     AtomicLogEntry.matched := false;
     AtomicLogEntry.weight_applied := Float.zero;
     AtomicLogEntry.is_gate := None;
     AtomicLogEntry.error := Some (exn_msg e);
     AtomicLogEntry.exception_type := Some (exn_type e) |}.

(** The entry logged when the operator was evaluated. *)
Definition eval_entry (rule : Rule.t) (metric_value : pyval) (matched : bool)
    (applied : float) : AtomicLogEntry.t :=
  {| AtomicLogEntry.id := Rule.id rule;
     AtomicLogEntry.category := Rule.category rule;
     AtomicLogEntry.label := Rule.label rule;
     AtomicLogEntry.metric := Rule.metric rule;
     AtomicLogEntry.operator := Some (Rule.operator rule);
     AtomicLogEntry.thresholds :=
       Some (AtomicLogEntry.mk_thresholds (Rule.value_low rule)
               (Rule.value_high rule) (Rule.value_exact rule));
     AtomicLogEntry.window :=
       Some (AtomicLogEntry.mk_window (Rule.window_value rule)
               (Rule.window_unit rule));
     AtomicLogEntry.metric_value := metric_value;
     AtomicLogEntry.matched := matched;
     AtomicLogEntry.weight_applied := applied;
     AtomicLogEntry.is_gate := Some (Rule.is_gate rule);
     AtomicLogEntry.error := None;
     AtomicLogEntry.exception_type := None |}.

(** One turn of the loop body on the state [(score, log)]. *)
Definition evaluate_rule (p : provider) (rule : Rule.t)
    (st : float * list AtomicLogEntry.t) : result (float * list AtomicLogEntry.t) :=
  let '(score, log) := st in
  match p (Rule.metric rule) (Rule.window_value rule) (Rule.window_unit rule) with
  | Raise e => Ok (score, log ++ [error_entry rule e])
  | Ok metric_value =>
      do matched <- eval_operator rule metric_value;
      let applied := if matched then Rule.weight rule else Float.zero in
      Ok (Float.add score applied,
          log ++ [eval_entry rule metric_value matched applied])
  end.

(** [for rule in rules: ...] from a given state. *)
Fixpoint evaluate_loop (p : provider) (rules : list Rule.t)
    (st : float * list AtomicLogEntry.t) : result (float * list AtomicLogEntry.t) :=
  match rules with
  | [] => Ok st
  | rule :: rest =>
      do st' <- evaluate_rule p rule st;
      evaluate_loop p rest st'
  end.

Definition evaluate_rules (p : provider) (rules : list Rule.t)
  : result (float * list AtomicLogEntry.t) :=
  evaluate_loop p rules (Float.zero, []).

(* ===================================================================== *)
(** * Business rule evaluator: [evaluate_business_rules] *)
(* ===================================================================== *)

Module BusinessLogEntry.
Record chosen_t := mk_chosen {
  c_likert_value : Z;
  c_likert_label : string;
  c_weight : float;
  c_all_of : list string;
  c_any_of : list string;
  c_none_of : list string
}.
Record satisfied_t := mk_satisfied {
  s_likert_value : Z;
  s_likert_label : string;
  s_weight : float
}.
Record t := mk {
  group_id : string;
  label : string;
  category : string;
  chosen : option chosen_t;
  satisfied_options : list satisfied_t
}.
End BusinessLogEntry.

(** [{str(entry.get("id")) for entry in atomic_log if entry.get("matched")}]. *)
Definition matched_atomic_ids (atomic_log : list AtomicLogEntry.t) : gset string :=
  list_to_set
    (map AtomicLogEntry.id (List.filter AtomicLogEntry.matched atomic_log)).

Definition is_in (ids : gset string) (rule_id : string) : bool :=
  bool_decide (rule_id ∈ ids).

Definition nonempty {A : Type} (l : list A) : bool :=
  match l with [] => false | _ :: _ => true end.

Definition option_satisfied (ids : gset string) (opt : BusinessRuleOption.t) : bool :=
  if nonempty (BusinessRuleOption.all_of opt)
     && negb (forallb (is_in ids) (BusinessRuleOption.all_of opt)) then false
  else if nonempty (BusinessRuleOption.any_of opt)
     && negb (existsb (is_in ids) (BusinessRuleOption.any_of opt)) then false
  else if nonempty (BusinessRuleOption.none_of opt)
     && existsb (is_in ids) (BusinessRuleOption.none_of opt) then false
  else true.

(** [groups.setdefault(opt.group_id, []).append(opt)] on a dict that keeps
    the order in which its keys were first inserted. *)
Fixpoint setdefault_append (groups : list (string * list BusinessRuleOption.t))
    (k : string) (opt : BusinessRuleOption.t)
  : list (string * list BusinessRuleOption.t) :=
  match groups with
  | [] => [(k, [opt])]
  | (k', opts) :: rest =>
      if (k' =? k)%string then (k', opts ++ [opt]) :: rest
      else (k', opts) :: setdefault_append rest k opt
  end.

Definition group_options (br_options : list BusinessRuleOption.t)
  : list (string * list BusinessRuleOption.t) :=
  fold_left
    (fun groups opt => setdefault_append groups (BusinessRuleOption.group_id opt) opt)
    br_options [].

(** [o.priority or 0]. *)
Definition priority_or_0 (opt : BusinessRuleOption.t) : Z :=
  match BusinessRuleOption.priority opt with
  | None => 0
  | Some p => p
  end.

(** The sort key [(o.likert_value, o.weight, -(o.priority or 0))]. *)
Definition sort_key (opt : BusinessRuleOption.t) : Z * float * Z :=
  (BusinessRuleOption.likert_value opt,
   BusinessRuleOption.weight opt,
   - priority_or_0 opt).

(** [k1 < k2] on key tuples: the first position where the two differ
    (by [==]) decides (by [<]). *)
Definition key_lt (k1 k2 : Z * float * Z) : bool :=
  let '(l1, w1, p1) := k1 in
  let '(l2, w2, p2) := k2 in
  if negb (l1 =? l2) then l1 <? l2
  else if negb (Float.eqb w1 w2) then Float.ltb w1 w2
  else if negb (p1 =? p2) then p1 <? p2
  else false.

(** [list.sort] (CPython's [listsort]) only asks [<] of the keys.  It looks
    for the run that starts the list with [count_run]: the elements up to
    the first one that is smaller than its predecessor, or, when the second
    element is smaller than the first, the elements up to the first one
    that is not smaller than its predecessor, and this strictly descending
    run is reversed.  The elements after the run are then inserted one by
    one with [binarysort], at the place that a binary search gives.  This
    is the whole of the sort for a list of fewer than 64 elements; a longer
    list is cut into runs of 32 to 64 elements that are sorted in this way
    and merged, which gives the same list whenever [<] orders the keys
    totally (no NaN among the weights). *)
Fixpoint run_length {A K : Type} (lt : K -> K -> bool) (key : A -> K)
    (descending : bool) (prev : A) (l : list A) : nat :=
  match l with
  | [] => O
  | x :: r =>
      if Bool.eqb (lt (key x) (key prev)) descending
      then S (run_length lt key descending x r)
      else O
  end.

(** [count_run]: the length of the first run, and whether it descends. *)
Definition count_run {A K : Type} (lt : K -> K -> bool) (key : A -> K)
    (l : list A) : nat * bool :=
  match l with
  | [] => (O, false)
  | x :: r =>
      match r with
      | [] => (1%nat, false)
      | y :: r' =>
          let descending := lt (key y) (key x) in
          (S (S (run_length lt key descending y r')), descending)
      end
  end.

(** The binary search of [binarysort] for the place of [pivot] in [a],
    between the indices [l] and [r], with [l < r]:
    [do { p = l + ((r - l) >> 1); if pivot < a[p]: r = p; else: l = p + 1 }
    while (l < r)]. *)
Fixpoint bisect {A K : Type} (fuel : nat) (lt : K -> K -> bool) (key : A -> K)
    (pivot : A) (a : list A) (l r : nat) : nat :=
  match fuel with
  | O => l
  | S fuel' =>
      let p := (l + Nat.div2 (r - l))%nat in
      match a !! p with
      | Some x =>
          if lt (key pivot) (key x) then
            if (l <? p)%nat then bisect fuel' lt key pivot a l p else l
          else
            if (S p <? r)%nat then bisect fuel' lt key pivot a (S p) r else S p
      | None => l
      end
  end.

(** One turn of [binarysort]: [pivot] goes where the search puts it. *)
Definition binary_insert {A K : Type} (lt : K -> K -> bool) (key : A -> K)
    (sorted : list A) (pivot : A) : list A :=
  let k := bisect (length sorted) lt key pivot sorted O (length sorted) in
  take k sorted ++ pivot :: drop k sorted.

Definition binarysort {A K : Type} (lt : K -> K -> bool) (key : A -> K)
    (run rest : list A) : list A :=
  fold_left (binary_insert lt key) rest run.

(** [l.sort(key=key)]. *)
Definition list_sort {A K : Type} (lt : K -> K -> bool) (key : A -> K)
    (l : list A) : list A :=
  let '(n, descending) := count_run lt key l in
  let run := take n l in
  binarysort lt key (if descending then rev run else run) (drop n l).

(** [l.sort(key=key, reverse=True)]: the list is reversed, sorted in
    increasing order, and reversed again, which keeps equal keys in their
    original order. *)
Definition sort_reverse {A K : Type} (lt : K -> K -> bool) (key : A -> K)
    (l : list A) : list A :=
  rev (list_sort lt key (rev l)).

(** [next((f(opt) for opt in options if f(opt)), "")]. *)
Definition first_nonempty (f : BusinessRuleOption.t -> string)
    (options : list BusinessRuleOption.t) : string :=
  match List.filter (fun s => negb (s =? "")%string) (map f options) with
  | s :: _ => s
  | [] => ""
  end.

(** The satisfied options of a group, after the in-place sort. *)
Definition sorted_satisfied (ids : gset string)
    (options : list BusinessRuleOption.t) : list BusinessRuleOption.t :=
  sort_reverse key_lt sort_key (List.filter (option_satisfied ids) options).

(** [chosen]: [satisfied[0]] after the sort, or [None]. *)
Definition chosen_option (ids : gset string)
    (options : list BusinessRuleOption.t) : option BusinessRuleOption.t :=
  head (sorted_satisfied ids options).

Definition chosen_info (c : BusinessRuleOption.t) : BusinessLogEntry.chosen_t :=
  BusinessLogEntry.mk_chosen
    (BusinessRuleOption.likert_value c) (BusinessRuleOption.likert_label c)
    (BusinessRuleOption.weight c) (BusinessRuleOption.all_of c)
    (BusinessRuleOption.any_of c) (BusinessRuleOption.none_of c).

Definition satisfied_info (o : BusinessRuleOption.t) : BusinessLogEntry.satisfied_t :=
  BusinessLogEntry.mk_satisfied
    (BusinessRuleOption.likert_value o) (BusinessRuleOption.likert_label o)
    (BusinessRuleOption.weight o).

Definition group_entry (ids : gset string) (group_id : string)
    (options : list BusinessRuleOption.t) : BusinessLogEntry.t :=
  {| BusinessLogEntry.group_id := group_id;
     BusinessLogEntry.label :=
       first_nonempty BusinessRuleOption.business_rule_label options;
     BusinessLogEntry.category :=
       first_nonempty BusinessRuleOption.category options;
     BusinessLogEntry.chosen := chosen_info <$> chosen_option ids options;
     BusinessLogEntry.satisfied_options :=
       map satisfied_info (sorted_satisfied ids options) |}.

(** One turn of [for group_id, options in groups.items()]. *)
Definition evaluate_group (ids : gset string)
    (st : float * list BusinessLogEntry.t)
    (group : string * list BusinessRuleOption.t)
  : float * list BusinessLogEntry.t :=
  let '(business_score, business_log) := st in
  let '(group_id, options) := group in
  (match chosen_option ids options with
   | Some c => Float.add business_score (BusinessRuleOption.weight c)
   | None => business_score
   end,
   business_log ++ [group_entry ids group_id options]).

Definition evaluate_business_rules (atomic_log : list AtomicLogEntry.t)
    (br_options : list BusinessRuleOption.t) : float * list BusinessLogEntry.t :=
  match br_options with
  | [] => (Float.zero, [])
  | _ :: _ =>
      let ids := matched_atomic_ids atomic_log in
      fold_left (evaluate_group ids) (group_options br_options) (Float.zero, [])
  end.

(* ===================================================================== *)
(** * Rule store *)
(* ===================================================================== *)

(** A row of [csv.DictReader]: a dict from column names to cells; a cell is
    [None] when the line was shorter than the header. *)
Module Row.
Abbreviation t := (gmap string (option string)).

(** [row.get(k)]. *)
Definition get (row : t) (k : string) : option string :=
  match row !! k with
  | Some cell => cell
  | None => None
  end.

(** [row.get(k, d)]. *)
Definition get_default (row : t) (k : string) (d : string) : option string :=
  match row !! k with
  | Some cell => cell
  | None => Some d
  end.

(** [row[k]]. *)
Definition index (row : t) (k : string) : result (option string) :=
  match row !! k with
  | Some cell => Ok cell
  | None => Raise (builtin_error "KeyError")
  end.

(** [row.get(k) or ""]. *)
Definition get_or_empty (row : t) (k : string) : string :=
  match get row k with
  | Some s => s
  | None => ""
  end.
End Row.

(** [x.strip()] on a cell that may be [None]. *)
Definition cell_strip (cell : option string) : result string :=
  match cell with
  | Some s => Ok (Str.strip s)
  | None => Raise (builtin_error "AttributeError")
  end.

(** [s or None]. *)
Definition or_none (s : string) : option string :=
  if (s =? "")%string then None else Some s.

(** [_parse_id_list]. *)
Definition _parse_id_list (cell : option string) : list string :=
  match cell with
  | None => []
  | Some s =>
      if (s =? "")%string then []
      else
        let values := map Str.strip (Str.split "," s) in
        List.filter (fun v => negb (v =? "")%string) values
  end.

(** The parsing of the [value_exact] cell, the same text in
    [load_rules_from_csv] and in [load_rules]. *)
Definition parse_value_exact (cell : option string) : pyval :=
  let raw_exact := Str.strip (match cell with Some s => s | None => "" end) in
  if (raw_exact =? "")%string then PNone
  else
    let upper_exact := Str.upper raw_exact in
    if (upper_exact =? "TRUE")%string || (upper_exact =? "FALSE")%string
    then PBool (upper_exact =? "TRUE")%string
    else
      match Str.to_float raw_exact with
      | Ok x => PFloat x
      | Raise _ => PStr raw_exact
      end.

(** [row.get(k) and row[k].strip()], as a condition. *)
Definition cell_present (row : Row.t) (k : string) : bool :=
  match Row.get row k with
  | Some s => negb (s =? "")%string && negb (Str.strip s =? "")%string
  | None => false
  end.

(** [conv(row[k]) if row.get(k) and row[k].strip() else None]. *)
Definition optional_cell {A : Type} (conv : string -> result A) (row : Row.t)
    (k : string) : result (option A) :=
  if cell_present row k then
    do v <- conv (Row.get_or_empty row k);
    Ok (Some v)
  else Ok None.

Definition option_default {A : Type} (d : A) (o : option A) : A :=
  match o with Some a => a | None => d end.

(** The [Rule(...)] built from a row in [load_rules_from_csv]. *)
Definition rule_of_csv_row (row : Row.t) : result Rule.t :=
  let parsed_exact := parse_value_exact (Row.get row "value_exact") in
  do id <- (do c <- Row.index row "id"; cell_strip c);
  do category <- (do c <- Row.index row "category"; cell_strip c);
  do label <- (do c <- Row.index row "label"; cell_strip c);
  do metric <- (do c <- Row.index row "metric"; cell_strip c);
  do operator <- (do c <- Row.index row "operator"; cell_strip c);
  do value_low <- optional_cell Str.to_float row "value_low";
  do value_high <- optional_cell Str.to_float row "value_high";
  do window_value <- optional_cell Str.to_int row "window_value";
  do weight <- optional_cell Str.to_float row "weight";
  do is_gate <- cell_strip (Row.get_default row "is_gate" "FALSE");
  Ok {| Rule.id := id;
        Rule.category := category;
        Rule.label := label;
        Rule.metric := metric;
        Rule.operator := Str.upper operator;
        Rule.value_low := value_low;
        Rule.value_high := value_high;
        Rule.value_exact := parsed_exact;
        Rule.unit := or_none (Str.strip (Row.get_or_empty row "unit"));
        Rule.window_value := window_value;
        Rule.window_unit := or_none (Str.strip (Row.get_or_empty row "window_unit"));
        Rule.weight := option_default Float.zero weight;
        Rule.is_gate := (Str.upper is_gate =? "TRUE")%string |}.

(** The [Rule(...)] built from a row in [load_rules]; [str(None)] is
    ["None"]. *)
Definition rule_of_dynamic_row (row : Row.t) : result Rule.t :=
  let parsed_exact := parse_value_exact (Row.get row "value_exact") in
  do value_low <- optional_cell Str.to_float row "value_low";
  do value_high <- optional_cell Str.to_float row "value_high";
  do window_value <- optional_cell Str.to_int row "window_value";
  do weight <- optional_cell Str.to_float row "weight";
  Ok {| Rule.id := Str.strip (Row.get_or_empty row "id");
        Rule.category := Str.strip (Row.get_or_empty row "category");
        Rule.label := Str.strip (Row.get_or_empty row "label");
        Rule.metric := Str.strip (Row.get_or_empty row "metric");
        Rule.operator := Str.upper (Str.strip (Row.get_or_empty row "operator"));
        Rule.value_low := value_low;
        Rule.value_high := value_high;
        Rule.value_exact := parsed_exact;
        Rule.unit := or_none (Str.strip (Row.get_or_empty row "unit"));
        Rule.window_value := window_value;
        Rule.window_unit := or_none (Str.strip (Row.get_or_empty row "window_unit"));
        Rule.weight := option_default Float.zero weight;
        Rule.is_gate :=
          (Str.upper (Str.strip (option_default "None"
                                   (Row.get_default row "is_gate" "FALSE")))
           =? "TRUE")%string |}.

(** The [BusinessRuleOption(...)] built from a row, the same in
    [load_business_rules_from_csv] and in [load_business_rules]. *)
Definition option_of_row (row : Row.t) : result BusinessRuleOption.t :=
  do priority <- optional_cell Str.to_int row "priority";
  do likert_value <-
    (match Row.get row "likert_value" with
     | Some s => if (s =? "")%string then Ok 0 else Str.to_int s
     | None => Ok 0
     end);
  do weight <- optional_cell Str.to_float row "weight";
  Ok {| BusinessRuleOption.source := Str.strip (Row.get_or_empty row "source");
        BusinessRuleOption.group_id := Str.strip (Row.get_or_empty row "id");
        BusinessRuleOption.parent_id :=
          or_none (Str.strip (Row.get_or_empty row "parentId"));
        BusinessRuleOption.priority := priority;
        BusinessRuleOption.match_type :=
          or_none (Str.strip (Row.get_or_empty row "match_type"));
        BusinessRuleOption.category := Str.strip (Row.get_or_empty row "category");
        BusinessRuleOption.business_rule_label :=
          Str.strip (Row.get_or_empty row "businessRuleLabel");
        BusinessRuleOption.likert_value := likert_value;
        BusinessRuleOption.likert_label :=
          Str.strip (Row.get_or_empty row "likert_label");
        BusinessRuleOption.all_of := _parse_id_list (Row.get row "ALL_OF");
        BusinessRuleOption.any_of := _parse_id_list (Row.get row "ANY_OF");
        BusinessRuleOption.none_of := _parse_id_list (Row.get row "NONE_OF");
        BusinessRuleOption.threshold_attr :=
          or_none (Str.strip (Row.get_or_empty row "threshold_attr"));
        BusinessRuleOption.weight := option_default Float.zero weight |}.

(** What [csv.DictReader] yields over an open file: the rows that it gives
    before it stops and, when it does not reach the end of the file, the
    exception that stops it (the file cannot be opened or decoded, or the
    reader raises [csv.Error]). *)
Record csv_stream := {
  stream_rows : list Row.t;
  stream_error : option exn
}.

(** A path that [os.path.exists] finds. *)
Record file := {
  (** [open(path, "r", encoding="utf-8")] and [f.read()] *)
  file_text : result string;
  (** [csv.DictReader] over [open(path, newline="", encoding="utf-8")] *)
  file_rows : csv_stream
}.

(** A row of the values of a sheet as [csv.writer] takes it: the texts of
    its cells, or something that is not iterable. *)
Inductive sheet_row :=
| Cells (cells : list string)
| NotIterable.

(** What the loaders see of the outside: the environment variables, the
    local files, the [csv] module, the object-storage cache and the remote
    spreadsheet.  The cache and the spreadsheet answer [None] wherever the
    source catches an exception. *)
Record World := {
  (** [os.environ.get] *)
  environ : string -> option string;
  (** the file at a path, [None] when [os.path.exists] is false *)
  files : string -> option file;
  (** [csv.DictReader] over [text.splitlines()], read to its end *)
  csv_reader_lines : string -> result (list Row.t);
  (** [csv.writer] over rows of cells *)
  csv_writer : list (list string) -> string;
  (** [boto3] is importable and a client can be made *)
  s3_client : bool;
  (** [head_object]: the age in seconds of the cached object
      ([None]: the call raised; [Some None]: no [LastModified]) *)
  s3_age : string -> string -> option (option float);
  (** [get_object(...)["Body"].read().decode("utf-8")] *)
  s3_get : string -> string -> option string;
  (** the [values] of the sheet, [None] unless a list came back *)
  sheet_values : string -> string -> string -> option (list sheet_row)
}.

(** [for row in reader: xs.append(f(row))]: the first row that [f] refuses
    ends the loop, and so does the reader when it raises. *)
Definition read_rows {A : Type} (f : Row.t -> result A) (s : csv_stream)
  : result (list A) :=
  do xs <- mapM f (stream_rows s);
  match stream_error s with
  | Some e => Raise e
  | None => Ok xs
  end.

(** [os.path.join(a, b)] for a relative [b]. *)
Definition path_join (a b : string) : string :=
  if (a =? "")%string then b
  else
    match List.last (Str.chars a) "/"%char with
    | "/"%char => a ++ b
    | _ => a ++ "/" ++ b
    end%string.

Definition rules_path (provider_name rules_dir : string) : string :=
  path_join rules_dir
    ("providers/" ++ provider_name ++ "/rules_" ++ provider_name ++ ".csv")%string.

Definition br_path (provider_name rules_dir : string) : string :=
  path_join rules_dir
    ("providers/" ++ provider_name ++ "/br_" ++ provider_name ++ ".csv")%string.

Definition load_business_rules_from_csv (w : World)
    (provider_name rules_dir : string) : result (list BusinessRuleOption.t) :=
  match files w (br_path provider_name rules_dir) with
  | None => Ok []
  | Some f => read_rows option_of_row (file_rows f)
  end.

Definition load_rules_from_csv (w : World)
    (provider_name rules_dir : string) : result (list Rule.t) :=
  let path := rules_path provider_name rules_dir in
  match files w path with
  | None =>
      Raise (Exn "FileNotFoundError"
               ("Rules file not found for provider '" ++ provider_name
                ++ "' at " ++ path)%string)
  | Some f => read_rows rule_of_csv_row (file_rows f)
  end.

(** [_env(name)] and [_env(name, default)]. *)
Definition _env (w : World) (name : string) (default : option string)
  : option string :=
  match environ w name with
  | Some v => Some v
  | None => default
  end.

(** [x or y] on optional strings. *)
Definition str_or (x y : option string) : option string :=
  match x with
  | Some s => if (s =? "")%string then y else x
  | None => y
  end.

Definition truthy_str (x : option string) : bool :=
  match x with
  | Some s => negb (s =? "")%string
  | None => false
  end.

Definition _read_cached_rules_from_s3 (w : World) (bucket key : string)
  : option string :=
  if negb (s3_client w) || (bucket =? "")%string || (key =? "")%string then None
  else s3_get w bucket key.

(** The columns of the first row must include the required ones, and in the
    first ten rows the listed cells must be empty or parse as floats. *)
Definition validate_rows (required numeric : list string) (rows : list Row.t)
  : bool :=
  match rows with
  | [] => false
  | first :: _ =>
      forallb (fun k => bool_decide (is_Some (first !! k))) required
      && forallb
           (fun row =>
              forallb
                (fun k =>
                   let v := Str.strip (Row.get_or_empty row k) in
                   (v =? "")%string
                   || match Str.to_float v with Ok _ => true | Raise _ => false end)
                numeric)
           (firstn 10 rows)
  end.

Definition _validate_rules_rows : list Row.t -> bool :=
  validate_rows ["id"; "category"; "label"; "metric"; "operator"; "weight"]
                ["value_low"; "value_high"; "weight"].

Definition _validate_business_rows : list Row.t -> bool :=
  validate_rows ["id"; "category"; "businessRuleLabel"; "likert_value"; "weight"]
                ["likert_value"; "weight"].

Inductive kind := KRules | KBr.

Definition kind_str (k : kind) : string :=
  match k with KRules => "rules" | KBr => "br" end.

Definition validate (k : kind) : list Row.t -> bool :=
  match k with
  | KRules => _validate_rules_rows
  | KBr => _validate_business_rows
  end.

(** [_csv_string_to_dicts]. *)
Definition _csv_string_to_dicts (w : World) (csv_text : string)
  : result (list Row.t) :=
  csv_reader_lines w csv_text.

(** [_sheet_values_to_csv_text]: [writerow] raises [csv.Error] for a row
    that is not iterable. *)
Definition _sheet_values_to_csv_text (w : World) (values : list sheet_row)
  : result string :=
  do rows <- mapM (fun row =>
                     match row with
                     | Cells cells => Ok cells
                     | NotIterable => Raise (builtin_error "Error")
                     end) values;
  Ok (csv_writer w rows).

(** Step 5 of the resolver, also its step 1: the local file or nothing.
    Nothing is caught here. *)
Definition local_rows (w : World) (fallback_path : string)
  : result (option (list Row.t)) :=
  match files w fallback_path with
  | Some f =>
      do text <- file_text f;
      do rows <- _csv_string_to_dicts w text;
      Ok (Some rows)
  | None => Ok None
  end.

(** Step 2: a cached copy younger than the TTL.  Every exception is caught,
    that of the reader too. *)
Definition fresh_cache_rows (w : World) (bucket : option string)
    (cache_key : string) (ttl_seconds : Z) : option (list Row.t) :=
  match bucket with
  | Some b =>
      if s3_client w && negb (b =? "")%string then
        match s3_age w b cache_key with
        | Some (Some age) =>
            match number_compare (NFloat age) (NInt ttl_seconds) with
            | Some Lt =>
                match _read_cached_rules_from_s3 w b cache_key with
                | Some cached_text =>
                    if (cached_text =? "")%string then None
                    else
                      match _csv_string_to_dicts w cached_text with
                      | Ok rows => Some rows
                      | Raise _ => None
                      end
                | None => None
                end
            | _ => None
            end
        | _ => None
        end
      else None
  | None => None
  end.

(** Step 3: the remote sheet, when its rows pass the validation.  Nothing
    is caught here. *)
Definition sheet_rows (w : World) (k : kind) (spreadsheet_id api_key : string)
    (provider_name : string) : result (option (list Row.t)) :=
  let sheet_prefix := match k with KRules => "a-" | KBr => "br-" end in
  let sheet_name := (sheet_prefix ++ provider_name)%string in
  match sheet_values w spreadsheet_id sheet_name api_key with
  | Some (row :: more) =>
      do csv_text <- _sheet_values_to_csv_text w (row :: more);
      do rows <- _csv_string_to_dicts w csv_text;
      Ok (if validate k rows then Some rows else None)
  | _ => Ok None
  end.

(** Step 4: any cached copy, when its rows pass the validation.  Every
    exception of the reader is caught. *)
Definition stale_cache_rows (w : World) (k : kind) (bucket : option string)
    (cache_key : string) : option (list Row.t) :=
  match bucket with
  | Some b =>
      if (b =? "")%string then None
      else
        match _read_cached_rules_from_s3 w b cache_key with
        | Some cached_text =>
            if (cached_text =? "")%string then None
            else
              match _csv_string_to_dicts w cached_text with
              | Ok rows => if validate k rows then Some rows else None
              | Raise _ => None
              end
        | None => None
        end
  | None => None
  end.

(** [_load_csv_rows_dynamic].  The write of the fetched text to the cache
    changes nothing that the call returns and is left out. *)
Definition _load_csv_rows_dynamic (w : World) (provider_name : string)
    (k : kind) (fallback_path : string) : result (option (list Row.t)) :=
  let spreadsheet_id := _env w "RULES_SPREADSHEET_ID" None in
  let api_key := _env w "GOOGLE_SHEETS_API_KEY" None in
  let bucket :=
    str_or (_env w "RULES_CACHE_BUCKET" None)
           (_env w "REPO_ARCHIVES_BUCKET_NAME" None) in
  let prefix :=
    option_default "rules-engine-cache"
      (str_or (_env w "RULES_CACHE_PREFIX" (Some "rules-engine-cache"))
              (Some "rules-engine-cache")) in
  let ttl_seconds_str := _env w "RULES_CACHE_TTL_SECONDS" (Some "86400") in
  let ttl_seconds :=
    if truthy_str ttl_seconds_str then
      match Str.to_int (option_default "" ttl_seconds_str) with
      | Ok n => n
      | Raise _ => 86400
      end
    else 86400 in
  let cache_key :=
    (prefix ++ "/" ++ kind_str k ++ "_" ++ provider_name ++ ".csv")%string in
  if negb (truthy_str spreadsheet_id) || negb (truthy_str api_key) then
    local_rows w fallback_path
  else
    match fresh_cache_rows w bucket cache_key ttl_seconds with
    | Some rows => Ok (Some rows)
    | None =>
        do fetched <- sheet_rows w k (option_default "" spreadsheet_id)
                        (option_default "" api_key) provider_name;
        match fetched with
        | Some rows => Ok (Some rows)
        | None =>
            match stale_cache_rows w k bucket cache_key with
            | Some rows => Ok (Some rows)
            | None => local_rows w fallback_path
            end
        end
    end.

Definition load_rules (w : World) (provider_name rules_dir : string)
  : result (list Rule.t) :=
  let fallback_path := rules_path provider_name rules_dir in
  do rows <- _load_csv_rows_dynamic w provider_name KRules fallback_path;
  match rows with
  | None => load_rules_from_csv w provider_name rules_dir
  | Some rows => mapM rule_of_dynamic_row rows
  end.

Definition load_business_rules (w : World) (provider_name rules_dir : string)
  : result (list BusinessRuleOption.t) :=
  let fallback_path := br_path provider_name rules_dir in
  do rows <- _load_csv_rows_dynamic w provider_name KBr fallback_path;
  match rows with
  | None => load_business_rules_from_csv w provider_name rules_dir
  | Some rows => mapM option_of_row rows
  end.

(* ===================================================================== *)
(** * Notions used in the statements *)
(* ===================================================================== *)

(** ** The atomic log, rule by rule *)

(** What [evaluate_rules] logs for one rule, whatever the state. *)
Definition rule_outcome (p : provider) (rule : Rule.t) : result AtomicLogEntry.t :=
  match p (Rule.metric rule) (Rule.window_value rule) (Rule.window_unit rule) with
  | Raise e => Ok (error_entry rule e)
  | Ok metric_value =>
      do matched <- eval_operator rule metric_value;
      Ok (eval_entry rule metric_value matched
            (if matched then Rule.weight rule else Float.zero))
  end.

(** What an entry does to the score: nothing for an error entry, one
    addition for the others. *)
Definition accumulate (score : float) (entry : AtomicLogEntry.t) : float :=
  match AtomicLogEntry.error entry with
  | Some _ => score
  | None => Float.add score (AtomicLogEntry.weight_applied entry)
  end.

(** The weights that a log added to the score, in order. *)
Definition applied_weights (log : list AtomicLogEntry.t) : list float :=
  map AtomicLogEntry.weight_applied
    (List.filter (fun e => negb (bool_decide (is_Some (AtomicLogEntry.error e)))) log).

(** The total that [evaluate_rules] returns, when it returns. *)
Definition total_score (p : provider) (rules : list Rule.t) : option float :=
  match evaluate_rules p rules with
  | Ok (score, _) => Some score
  | Raise _ => None
  end.

(** ** Truthiness, in the words of the specification *)

Definition is_zero (v : pyval) : bool :=
  match v with
  | PInt 0 => true
  | PFloat (S754_zero _) => true
  | _ => false
  end.

(** Not null, not zero, not an empty string or collection, not [False]. *)
Definition truthy (v : pyval) : Prop :=
  v <> PNone /\ is_zero v = false /\ v <> PStr "" /\ v <> PList [] /\ v <> PBool false.

(** ** Ranking of business rule options *)

(** [c] ranks at least as high as [o] in the order of the code: a higher
    likert value, then a higher weight, then a lower priority number. *)
Definition ranks_at_least (c o : BusinessRuleOption.t) : Prop :=
  BusinessRuleOption.likert_value o < BusinessRuleOption.likert_value c
  \/ (BusinessRuleOption.likert_value o = BusinessRuleOption.likert_value c
      /\ (Float.ltb (BusinessRuleOption.weight o) (BusinessRuleOption.weight c) = true
          \/ (Float.eqb (BusinessRuleOption.weight o) (BusinessRuleOption.weight c) = true
              /\ priority_or_0 c <= priority_or_0 o))).

(** [o] and [c] are tied on likert value, weight and priority, a missing
    priority counting as 0. *)
Definition tied (o c : BusinessRuleOption.t) : Prop :=
  BusinessRuleOption.likert_value o = BusinessRuleOption.likert_value c
  /\ Float.eqb (BusinessRuleOption.weight o) (BusinessRuleOption.weight c) = true
  /\ priority_or_0 o = priority_or_0 c.

Definition weight_is_number (o : BusinessRuleOption.t) : Prop :=
  Float.is_nan (BusinessRuleOption.weight o) = false.

(** A stable sort in increasing order, by insertion: each element goes
    behind the elements that it is not smaller than. *)
Fixpoint insert_by {A K : Type} (lt : K -> K -> bool) (key : A -> K)
    (x : A) (l : list A) : list A :=
  match l with
  | [] => [x]
  | y :: l' =>
      if lt (key x) (key y) then x :: y :: l'
      else y :: insert_by lt key x l'
  end.

Definition stable_sort {A K : Type} (lt : K -> K -> bool) (key : A -> K)
    (l : list A) : list A :=
  fold_left (fun sorted x => insert_by lt key x sorted) l [].

(** Where the stable insertion puts [x] in [l]: behind the elements at the
    head of [l] that [x] is not smaller than. *)
Fixpoint insert_place {A K : Type} (lt : K -> K -> bool) (key : A -> K)
    (x : A) (l : list A) : nat :=
  match l with
  | [] => O
  | y :: l' => if lt (key x) (key y) then O else S (insert_place lt key x l')
  end.

(** The first element of a list that no other element beats; on ties the
    earlier element stays. *)
Fixpoint first_best {A K : Type} (lt : K -> K -> bool) (key : A -> K)
    (l : list A) : option A :=
  match l with
  | [] => None
  | x :: r =>
      match first_best lt key r with
      | None => Some x
      | Some b => if lt (key x) (key b) then Some b else Some x
      end
  end.

(** The option carries the group id [g]. *)
Definition in_group (g : string) (opt : BusinessRuleOption.t) : bool :=
  (BusinessRuleOption.group_id opt =? g)%string.

(** A list in increasing order of its keys: no element is smaller than one
    before it. *)
Definition ascending {A K : Type} (lt : K -> K -> bool) (key : A -> K)
    (l : list A) : Prop :=
  StronglySorted (fun a b => lt (key b) (key a) = false) l.

(** An order-preserving code of the floats that are not NaN: the class
    (infinities, negative, zero, positive), then exponent and mantissa. *)
Definition float_code (x : float) : Z * Z * Z :=
  match x with
  | S754_zero _ => (0, 0, 0)
  | S754_infinity s => (if s then -2 else 2, 0, 0)
  | S754_nan => (0, 0, 0)
  | S754_finite s m e => if s then (-1, - e, Zneg m) else (1, e, Zpos m)
  end.

Definition lex3_lt (a b : Z * Z * Z) : Prop :=
  let '(a1, a2, a3) := a in
  let '(b1, b2, b3) := b in
  a1 < b1 \/ (a1 = b1 /\ (a2 < b2 \/ (a2 = b2 /\ a3 < b3))).

(** ** Exact sums *)

(** A float as an integer multiple of [2 ^ scale_exp]: its exact value for
    the finite floats with an exponent of at least [scale_exp]; [None] for
    the infinities and NaN. *)
Definition scale_exp : Z := -1074.

Definition scaled (x : float) : option Z :=
  match x with
  | S754_zero _ => Some 0
  | S754_finite s m e =>
      Some ((if s then Zneg m else Zpos m) * 2 ^ (e - scale_exp))
  | _ => None
  end.

Fixpoint exact_sum (ws : list float) : option Z :=
  match ws with
  | [] => Some 0
  | w :: ws' =>
      match scaled w, exact_sum ws' with
      | Some a, Some b => Some (a + b)
      | _, _ => None
      end
  end.

(** The sum of the absolute values of floats, in units of [2 ^ scale_exp]. *)
Fixpoint abs_sum (ws : list float) : Z :=
  match ws with
  | [] => 0
  | w :: ws' => Z.abs (default 0 (scaled w)) + abs_sum ws'
  end.

(** A weight that is a finite binary64 number. *)
Definition finite_weight (rule : Rule.t) : Prop :=
  Float.is_finite (Rule.weight rule) = true
  /\ Float.is_binary64 (Rule.weight rule) = true.

(** Two totals of [n] additions of the weights [ws] agree within the
    rounding of the additions: both are finite, and they differ by at most
    [2 * ((1 + 2 ^ -53) ^ n - 1)] times the sum of the absolute values of
    the weights (the inequality is multiplied by [(2 ^ 53) ^ n]). *)
Definition within_tolerance (n : nat) (ws : list float) (total total' : float)
  : Prop :=
  exists u u',
    scaled total = Some u /\ scaled total' = Some u'
    /\ (2 ^ 53) ^ Z.of_nat n * Z.abs (u - u')
       <= 2 * ((2 ^ 53 + 1) ^ Z.of_nat n - (2 ^ 53) ^ Z.of_nat n) * abs_sum ws.

(** ** Notions used in the proofs about rounding *)

(** A zero, or a finite float with an exponent of at least [scale_exp]. *)
Definition scalable (x : float) : Prop :=
  match x with
  | S754_zero _ => True
  | S754_finite _ _ e => scale_exp <= e
  | _ => False
  end.

(** What [j] right shifts of the integer [m] have made of it: the quotient
    by [2 ^ j], and where the remainder lies against the half of
    [2 ^ j]. *)
Definition shifted (m j : Z) (mrs : shr_record) : Prop :=
  exists rem,
    m = shr_m mrs * 2 ^ j + rem
    /\ 0 <= rem < 2 ^ j
    /\ 0 <= shr_m mrs
    /\ match loc_of_shr_record mrs with
       | loc_Exact => rem = 0
       | loc_Inexact Lt => 0 < 2 * rem < 2 ^ j
       | loc_Inexact Eq => 2 * rem = 2 ^ j
       | loc_Inexact Gt => 2 ^ j < 2 * rem
       end.

(** ** The order of numbers, in the words of the specification *)













(* ===================================================================== *)
(** * Concrete inputs *)
(* ===================================================================== *)

Module Examples.

(** The float of a non-negative integer literal. *)
Definition fl (n : Z) : float := Float.of_decimal false n 0.

Definition rule (id metric operator : string) (value_low value_high : option float)
    (value_exact : pyval) (weight : float) : Rule.t :=
  Rule.mk id "cat" id metric operator value_low value_high value_exact
          None None None weight false.

(** An adapter over a fixed payload; as the adapters of the repository do,
    it raises [ValueError] for a metric it does not implement. *)
Definition adapter : provider :=
  fun metric_name _ _ =>
    if (metric_name =? "stars")%string then Ok (PInt 15)
    else if (metric_name =? "verified")%string then Ok (PBool true)
    else if (metric_name =? "bio")%string then Ok (PStr "")
    else if (metric_name =? "company")%string then Ok PNone
    else if (metric_name =? "ratio")%string then Ok (PFloat (Float.of_decimal false 5 (-1)))
    else Raise (Exn "ValueError" ("Unsupported metric: " ++ metric_name)%string).

Definition business_option (group_id likert_label : string) (likert_value : Z)
    (weight : float) (priority : option Z) (all_of any_of : list string)
  : BusinessRuleOption.t :=
  BusinessRuleOption.mk "src" group_id None priority None "cat" group_id
    likert_value likert_label all_of any_of [] None weight.

(** Four options of one group, tied on likert value and weight; [option_B]
    has the highest priority number, [option_D] has no priority. *)
Definition option_A := business_option "g1" "A" 3 (fl 5) (Some 1) [] [].
Definition option_B := business_option "g1" "B" 3 (fl 5) (Some 2) [] ["r1"].
Definition option_C := business_option "g1" "C" 3 (fl 5) (Some 1) [] [].
Definition option_D := business_option "g1" "D" 3 (fl 5) None [] [].

(** An option of another group, and one that needs a rule that did not
    match. *)
Definition option_E := business_option "g2" "E" 5 (fl 10) None [] ["r1"].
Definition option_F := business_option "g1" "F" 9 (fl 9) None ["r1"; "r2"] [].

Definition br_options : list BusinessRuleOption.t :=
  [option_B; option_A; option_E; option_C; option_F].

(** An atomic log in which [r1] matched and [r2] did not. *)
Definition atomic_log : list AtomicLogEntry.t :=
  [eval_entry (rule "r1" "stars" "GTE" None None (PInt 10) (fl 2)) (PInt 15) true (fl 2);
   eval_entry (rule "r2" "bio" "EXISTS" None None PNone (fl 1)) (PStr "") false Float.zero].

(** Three rules that match on [adapter], with the weights of the cells
    [1e308], [1e308] and [-1e308]; and three with [1e16], [1] and [-1e16]. *)
Definition huge_1 := rule "h1" "verified" "EXISTS" None None PNone (Float.of_decimal false 1 308).
Definition huge_2 := rule "h2" "stars" "EXISTS" None None PNone (Float.of_decimal false 1 308).
Definition huge_3 := rule "h3" "ratio" "EXISTS" None None PNone (Float.of_decimal true 1 308).
Definition big_1 := rule "b1" "verified" "EXISTS" None None PNone (Float.of_decimal false 1 16).
Definition small_2 := rule "b2" "stars" "EXISTS" None None PNone (fl 1).
Definition big_3 := rule "b3" "ratio" "EXISTS" None None PNone (Float.of_decimal true 1 16).

(** A world with no remote configuration and no file at all. *)
Definition empty_world : World :=
  {| environ := fun _ => None;
     files := fun _ => None;
     csv_reader_lines := fun _ => Ok [];
     csv_writer := fun _ => "";
     s3_client := false;
     s3_age := fun _ _ => None;
     s3_get := fun _ _ => None;
     sheet_values := fun _ _ _ => None |}.

End Examples.

Module SortExamples.

(** Seven options of one group without conditions, with the same likert
    value and no priority; their weights are 5, 5, 5, 5, NaN, 5 and 6. *)
Definition tie (likert_label : string) (weight : float) : BusinessRuleOption.t :=
  Examples.business_option "g" likert_label 3 weight None [] [].

Definition option_A := tie "A" (Examples.fl 5).
Definition option_B := tie "B" (Examples.fl 5).

Definition options : list BusinessRuleOption.t :=
  [option_A; option_B; tie "C" (Examples.fl 5); tie "D" (Examples.fl 5);
   tie "E" Float.nan; tie "F" (Examples.fl 5); tie "G" (Examples.fl 6)].

End SortExamples.

(* ===================================================================== *)
(** * Adapters and operators *)
(* ===================================================================== *)

(** A method [metric_<name>] of an adapter class. *)
Definition metric_method : Type := option Z -> option string -> result pyval.

(** [get_metric], the same text in every adapter of the repository: the
    method is looked up by name among the attributes of the adapter,
    [ValueError] is raised when there is none, and the window is handed to
    the method as it came. *)
Definition get_metric (attrs : gmap string metric_method) : provider :=
  fun metric_name window_value window_unit =>
    let method_name := ("metric_" ++ metric_name)%string in
    match attrs !! method_name with
    | None => Raise (Exn "ValueError" ("Unsupported metric: " ++ metric_name)%string)
    | Some method => method window_value window_unit
    end.

(** The operators that [evaluate_rules] knows, as it spells them. *)
Definition comparison_operators : list string := ["LT"; "LTE"; "GT"; "GTE"].
Definition range_operators : list string := ["RANGE"; "BETWEEN"].
Definition known_operators : list string :=
  ["EXISTS"; "MISSING"; "EQ"; "NE"] ++ comparison_operators ++ range_operators.

(** A threshold that [float] accepts whatever it holds: null is never
    coerced, a bool and a float always are. *)
Definition numeric_threshold (v : pyval) : Prop :=
  match v with
  | PNone | PBool _ | PFloat _ => True
  | _ => False
  end.

(** A metric value that can be ordered against a float, or null. *)
Definition number_or_none (v : pyval) : Prop :=
  v = PNone \/ as_number v <> None.

(** A rule whose operator cannot raise on adapter [p]: a comparison has a
    threshold that coerces, a range test gets a number or null. *)
Definition cannot_raise (p : provider) (rule : Rule.t) : Prop :=
  (In (Rule.operator rule) comparison_operators ->
   numeric_threshold (Rule.value_exact rule))
  /\ (In (Rule.operator rule) range_operators ->
      forall v,
        p (Rule.metric rule) (Rule.window_value rule) (Rule.window_unit rule) = Ok v ->
        number_or_none v).

(* ===================================================================== *)
(** * Notions used for the business log *)
(* ===================================================================== *)

(** The distinct strings of a list, in the order of their first
    occurrence. *)
Fixpoint distinct_keys (l : list string) : list string :=
  match l with
  | [] => []
  | x :: r => x :: List.filter (fun y => negb (y =? x)%string) (distinct_keys r)
  end.

(** The weights that a business log shows as chosen, in order. *)
Definition chosen_weights (log : list BusinessLogEntry.t) : list float :=
  omap (fun entry => BusinessLogEntry.c_weight <$> BusinessLogEntry.chosen entry) log.

(* ===================================================================== *)
(** * Notions used for the rule store *)
(* ===================================================================== *)

(** [sep.join(ids)]. *)
Fixpoint join (sep : string) (ids : list string) : string :=
  match ids with
  | [] => ""
  | [x] => x
  | x :: rest => (x ++ sep ++ join sep rest)%string
  end.

(** An id as [_parse_id_list] returns them: not empty, no blank at either
    end, no comma. *)
Definition clean_id (id : string) : Prop :=
  id <> "" /\ Str.strip id = id /\ ~ In ","%char (Str.chars id).

(** A text of ASCII characters, and a text without a lower-case ASCII
    letter. *)
Definition ascii_text (s : string) : Prop :=
  Forall (fun c => Str.byte c < 128) (Str.chars s).

Definition no_lower_letter (s : string) : Prop :=
  Forall (fun c => ~ (97 <= Str.byte c <= 122)) (Str.chars s).

(** The let-bound values of [_load_csv_rows_dynamic]. *)
Definition configured (w : World) : bool :=
  truthy_str (_env w "RULES_SPREADSHEET_ID" None)
  && truthy_str (_env w "GOOGLE_SHEETS_API_KEY" None).

Definition cache_bucket (w : World) : option string :=
  str_or (_env w "RULES_CACHE_BUCKET" None) (_env w "REPO_ARCHIVES_BUCKET_NAME" None).

Definition cache_ttl (w : World) : Z :=
  let ttl_seconds_str := _env w "RULES_CACHE_TTL_SECONDS" (Some "86400") in
  if truthy_str ttl_seconds_str then
    match Str.to_int (option_default "" ttl_seconds_str) with
    | Ok n => n
    | Raise _ => 86400
    end
  else 86400.

Definition cache_key (w : World) (k : kind) (provider_name : string) : string :=
  (option_default "rules-engine-cache"
     (str_or (_env w "RULES_CACHE_PREFIX" (Some "rules-engine-cache"))
        (Some "rules-engine-cache"))
   ++ "/" ++ kind_str k ++ "_" ++ provider_name ++ ".csv")%string.

(** Steps 3 to 5 of [_load_csv_rows_dynamic]: the sheet, then any cached
    copy, then the local file. *)
Definition after_fresh_cache (w : World) (k : kind)
    (provider_name fallback_path : string) : result (option (list Row.t)) :=
  do fetched <- sheet_rows w k
                  (option_default "" (_env w "RULES_SPREADSHEET_ID" None))
                  (option_default "" (_env w "GOOGLE_SHEETS_API_KEY" None))
                  provider_name;
  match fetched with
  | Some rows => Ok (Some rows)
  | None =>
      match stale_cache_rows w k (cache_bucket w) (cache_key w k provider_name) with
      | Some rows => Ok (Some rows)
      | None => local_rows w fallback_path
      end
  end.

(** The exceptions of the outside that the resolver lets through when the
    local file is [f]: what the [csv] module raises on the fetched sheet,
    what the reading of the file raises, and what the [csv] module raises
    on its text. *)
Definition raised_by_sources (w : World) (k : kind) (provider_name : string)
    (f : file) (e : exn) : Prop :=
  sheet_rows w k
    (option_default "" (_env w "RULES_SPREADSHEET_ID" None))
    (option_default "" (_env w "GOOGLE_SHEETS_API_KEY" None))
    provider_name = Raise e
  \/ file_text f = Raise e
  \/ exists text, file_text f = Ok text /\ _csv_string_to_dicts w text = Raise e.

Module ResolverExamples.

(** A world with the remote source configured, a bucket, and a cached copy
    of the rules of every provider that is one minute old; its sheet cannot
    be fetched and it has no local file. *)
Definition cached_world : World :=
  {| environ := fun name =>
       if (name =? "RULES_SPREADSHEET_ID")%string then Some "sheet-1"
       else if (name =? "GOOGLE_SHEETS_API_KEY")%string then Some "key-1"
       else if (name =? "RULES_CACHE_BUCKET")%string then Some "bucket-1"
       else None;
     files := fun _ => None;
     csv_reader_lines := fun text =>
       Ok (if (text =? "")%string then [] else [{[ "id" := Some text ]}]);
     csv_writer := fun _ => "";
     s3_client := true;
     s3_age := fun _ _ => Some (Some (Examples.fl 60));
     s3_get := fun _ _ => Some "r1";
     sheet_values := fun _ _ _ => None |}.

(** The same world with a cached copy that is two days old. *)
Definition stale_world : World :=
  {| environ := environ cached_world;
     files := fun _ => None;
     csv_reader_lines := fun text =>
       Ok [{[ "id" := Some text; "category" := Some "c"; "label" := Some "l";
              "metric" := Some "stars"; "operator" := Some "EXISTS";
              "weight" := Some "1" ]}];
     csv_writer := fun _ => "";
     s3_client := true;
     s3_age := fun _ _ => Some (Some (Examples.fl 172800));
     s3_get := fun _ _ => Some "r1";
     sheet_values := fun _ _ _ => None |}.

(** A file with a one-line table. *)
Definition local_file : file :=
  {| file_text := Ok "id,weight";
     file_rows :=
       {| stream_rows := [{[ "id" := Some "r1"; "weight" := Some "abc" ]}];
          stream_error := None |} |}.

(** A world without remote configuration whose local files all hold the
    same one-line table. *)
Definition local_world : World :=
  {| environ := fun _ => None;
     files := fun _ => Some local_file;
     csv_reader_lines := fun _ => Ok [{[ "id" := Some "r1"; "weight" := Some "abc" ]}];
     csv_writer := fun _ => "";
     s3_client := false;
     s3_age := fun _ _ => None;
     s3_get := fun _ _ => None;
     sheet_values := fun _ _ _ => None |}.

(** A row of a rules table whose numeric cells are fine and whose
    window_value cell is not an int. *)
Definition unchecked_window_row : Row.t :=
  {[ "id" := Some "r1"; "category" := Some "c"; "label" := Some "l";
     "metric" := Some "stars"; "operator" := Some "GT";
     "weight" := Some " 2 "; "window_value" := Some "soon" ]}.

(** A row of a rules table whose weight is the digit 5 after a unit
    separator (U+001F), which [strip] removes and [float] does not skip. *)
Definition padded_weight_row : Row.t :=
  {[ "id" := Some "r1"; "category" := Some "c"; "label" := Some "l";
     "metric" := Some "stars"; "operator" := Some "GT";
     "weight" := Some (Str.of_codes [31; 53]) ]}.

(** A world without remote configuration whose local files exist and are
    not UTF-8. *)
Definition undecodable_world : World :=
  {| environ := fun _ => None;
     files := fun _ =>
       Some {| file_text := Raise (builtin_error "UnicodeDecodeError");
               file_rows :=
                 {| stream_rows := [];
                    stream_error := Some (builtin_error "UnicodeDecodeError") |} |};
     csv_reader_lines := fun _ => Ok [];
     csv_writer := fun _ => "";
     s3_client := false;
     s3_age := fun _ _ => None;
     s3_get := fun _ _ => None;
     sheet_values := fun _ _ _ => None |}.

(** The world of [cached_world] with a cached copy that the reader of the
    [csv] module refuses, and a sheet of one row. *)
Definition unreadable_cache_world : World :=
  {| environ := environ cached_world;
     files := fun _ => None;
     csv_reader_lines := fun text =>
       if (text =? "r1")%string then Raise (builtin_error "Error")
       else Ok [{[ "id" := Some text; "category" := Some "c"; "label" := Some "l";
                   "metric" := Some "stars"; "operator" := Some "EXISTS";
                   "weight" := Some "1" ]}];
     csv_writer := fun _ => "sheet";
     s3_client := true;
     s3_age := fun _ _ => Some (Some (Examples.fl 60));
     s3_get := fun _ _ => Some "r1";
     sheet_values := fun _ _ _ => Some [Cells ["id"]] |}.

End ResolverExamples.

(* ===================================================================== *)
(** * Evaluation of several providers: [evaluate_dynamic_from_aggregated] *)
(* ===================================================================== *)

(** What the evaluation of the providers needs besides the loaders:
    [get_provider_instance], which imports the adapter class of a provider
    by name and builds it from a payload, and [round(x, 6)]. *)
Record Runtime (payload : Type) := {
  get_provider_instance : string -> payload -> result provider;
  round6 : float -> float
}.
Arguments get_provider_instance {payload} _ _ _.
Arguments round6 {payload} _ _.

(** The entry of a provider in [provider_results]: its scores, business log
    and errors, or the text and class of the exception that ended its
    evaluation. *)
Inductive provider_result : Type :=
| Scored (score score_atomic score_business : float)
    (business : list BusinessLogEntry.t) (errors : list AtomicLogEntry.t)
| Failed (error exception_type : string).

(** [entry.get("error")] as a condition: the key is there and its text is
    not empty. *)
Definition has_error (entry : AtomicLogEntry.t) : bool :=
  truthy_str (AtomicLogEntry.error entry).

(** The body of the [try] for one provider: what is added to the total, and
    the entry of the provider. *)
Definition evaluate_provider {payload : Type} (rt : Runtime payload) (w : World)
    (script_dir provider_name : string) (p : payload)
  : result (float * provider_result) :=
  do rules <- load_rules w provider_name script_dir;
  do provider <- get_provider_instance rt provider_name p;
  do '(atomic_score, atomic_log) <- evaluate_rules provider rules;
  do br_options <- load_business_rules w provider_name script_dir;
  let '(business_score, business_log) :=
    evaluate_business_rules atomic_log br_options in
  let provider_score_total := Float.add atomic_score business_score in
  Ok (provider_score_total,
      Scored (round6 rt provider_score_total) (round6 rt atomic_score)
        (round6 rt business_score) business_log
        (List.filter has_error atomic_log)).

(** One turn of [for provider_name, payload in provider_payloads.items()]
    on the state [(total_score, all_provider_results)]. *)
Definition evaluate_payload {payload : Type} (rt : Runtime payload) (w : World)
    (script_dir : string) (st : float * gmap string provider_result)
    (item : string * payload) : float * gmap string provider_result :=
  let '(total_score, all_provider_results) := st in
  let '(provider_name, p) := item in
  match evaluate_provider rt w script_dir provider_name p with
  | Ok (provider_score_total, r) =>
      (Float.add total_score provider_score_total,
       <[provider_name := r]> all_provider_results)
  | Raise e =>
      (total_score,
       <[provider_name := Failed (exn_msg e) (exn_type e)]> all_provider_results)
  end.

(** The loop of [evaluate_dynamic_from_aggregated] over the payloads of the
    providers, and what it returns: the rounded total and the results (the
    time stamp of the evaluation is left out). *)
Definition evaluate_payloads {payload : Type} (rt : Runtime payload) (w : World)
    (script_dir : string) (provider_payloads : list (string * payload))
  : float * gmap string provider_result :=
  let '(total_score, all_provider_results) :=
    fold_left (evaluate_payload rt w script_dir) provider_payloads (Float.zero, ∅) in
  (round6 rt total_score, all_provider_results).

(** The entry that a provider gets in the results, and what it adds to the
    total. *)
Definition entry_of {payload : Type} (rt : Runtime payload) (w : World)
    (script_dir provider_name : string) (p : payload) : provider_result :=
  match evaluate_provider rt w script_dir provider_name p with
  | Ok (_, r) => r
  | Raise e => Failed (exn_msg e) (exn_type e)
  end.

Definition contribution {payload : Type} (rt : Runtime payload) (w : World)
    (script_dir : string) (item : string * payload) : option float :=
  match evaluate_provider rt w script_dir (fst item) (snd item) with
  | Ok (provider_score_total, _) => Some provider_score_total
  | Raise _ => None
  end.

Module RuntimeExamples.

(** A runtime whose payload is the table of methods of the adapter; the
    provider [broken] cannot be imported. *)
Definition runtime : Runtime (gmap string metric_method) :=
  {| get_provider_instance := fun name attrs =>
       if (name =? "broken")%string
       then Raise (Exn "ValueError" "Could not load provider 'broken'")
       else Ok (get_metric attrs);
     round6 := fun x => x |}.

(** A world without remote configuration in which every provider has the
    same local table of one rule, on the metric [stars]. *)
Definition world : World :=
  {| environ := fun _ => None;
     files := fun _ =>
       Some {| file_text := Ok "table";
               file_rows := {| stream_rows := []; stream_error := None |} |};
     csv_reader_lines := fun _ =>
       Ok [{[ "id" := Some "r1"; "metric" := Some "stars";
              "operator" := Some "EXISTS"; "weight" := Some "2" ]}];
     csv_writer := fun _ => "";
     s3_client := false;
     s3_age := fun _ _ => None;
     s3_get := fun _ _ => None;
     sheet_values := fun _ _ _ => None |}.

Definition stars_payload : gmap string metric_method :=
  {[ "metric_stars" := fun _ _ => Ok (PInt 15) ]}.

(** An adapter whose only method raises with an empty message. *)
Definition silent_payload : gmap string metric_method :=
  {[ "metric_stars" := fun _ _ => Raise (Exn "NotImplementedError" "") ]}.

End RuntimeExamples.
(* ===================================================================== *)
(** * Properties of the atomic rule evaluator *)
(* ===================================================================== *)

Lemma bind_ok {A B : Type} (m : result A) (k : A -> result B) (b : B) :
  bind m k = Ok b -> exists a, m = Ok a /\ k a = Ok b.
Proof. destruct m as [a|e]; simpl; [eauto | discriminate]. Qed.

(** Opens every [bind] of a computation that is known to return. *)
Ltac inv_bind H := repeat (apply bind_ok in H as (? & ? & H)).

Lemma evaluate_rule_outcome p rule score log :
  evaluate_rule p rule (score, log) =
  do entry <- rule_outcome p rule;
  Ok (accumulate score entry, log ++ [entry]).
Proof.
  unfold evaluate_rule, rule_outcome.
  destruct (p _ _ _) as [mv|e]; simpl; [|reflexivity].
  destruct (eval_operator rule mv) as [m|e]; reflexivity.
Qed.

Lemma evaluate_loop_app p rules1 rules2 st :
  evaluate_loop p (rules1 ++ rules2) st =
  do st' <- evaluate_loop p rules1 st; evaluate_loop p rules2 st'.
Proof.
  revert st. induction rules1 as [|r rs IH]; intros st; simpl; [reflexivity|].
  destruct (evaluate_rule p r st) as [st'|e]; simpl; [apply IH | reflexivity].
Qed.

(** The loop is the rule-by-rule log, with the score folded over it. *)
Lemma evaluate_loop_outcomes p rules score log :
  evaluate_loop p rules (score, log) =
  do entries <- mapM (rule_outcome p) rules;
  Ok (fold_left accumulate entries score, log ++ entries).
Proof.
  revert score log.
  induction rules as [|r rs IH]; intros score log; cbn [evaluate_loop mapM].
  - simpl. now rewrite app_nil_r.
  - rewrite evaluate_rule_outcome.
    destruct (rule_outcome p r) as [entry|e]; simpl; [|reflexivity].
    rewrite IH. destruct (mapM (rule_outcome p) rs) as [entries|e]; simpl.
    + now rewrite <- app_assoc.
    + reflexivity.
Qed.

Lemma evaluate_rules_outcomes p rules :
  evaluate_rules p rules =
  do entries <- mapM (rule_outcome p) rules;
  Ok (fold_left accumulate entries Float.zero, entries).
Proof. unfold evaluate_rules. now rewrite evaluate_loop_outcomes. Qed.

Lemma mapM_lookup {A B : Type} (f : A -> result B) (xs : list A) (ys : list B)
    (i : nat) (x : A) :
  mapM f xs = Ok ys -> xs !! i = Some x ->
  exists y, ys !! i = Some y /\ f x = Ok y.
Proof.
  revert ys i. induction xs as [|a xs IH]; intros ys i Hm Hx; [discriminate|].
  simpl in Hm. apply bind_ok in Hm as (y & Hy & Hm).
  apply bind_ok in Hm as (ys' & Hys & Hm). injection Hm as <-.
  destruct i as [|i]; simpl in *.
  - injection Hx as <-. eauto.
  - eauto.
Qed.

(** Every rule has its entry at the same index of the log. *)
Lemma evaluate_rules_entry p rules score log (i : nat) rule :
  evaluate_rules p rules = Ok (score, log) ->
  rules !! i = Some rule ->
  exists entry, log !! i = Some entry /\ rule_outcome p rule = Ok entry.
Proof.
  rewrite evaluate_rules_outcomes. intros H Hi.
  apply bind_ok in H as (entries & Hm & H). injection H as _ <-.
  eapply mapM_lookup; eauto.
Qed.

Lemma py_bool_truthy (v : pyval) : py_bool v = true <-> truthy v.
Proof.
  unfold truthy. destruct v as [|b|n|x|s|items]; simpl.
  - split; [discriminate | intros (H & _); congruence].
  - destruct b; split; intros H; repeat split; try discriminate.
    destruct H as (_ & _ & _ & _ & H). congruence.
  - destruct n; simpl; split; intros H; repeat split; try discriminate.
    destruct H as (_ & H & _). discriminate.
  - destruct x as [s| s| |s m e]; simpl.
    + split; [discriminate | intros (_ & H & _); discriminate].
    + destruct s; split; intros _; repeat split; discriminate.
    + split; intros _; repeat split; discriminate.
    + destruct s; split; intros _; repeat split; discriminate.
  - destruct s as [|c s]; simpl; split; intros H; repeat split; try discriminate.
    destruct H as (_ & _ & H & _). congruence.
  - destruct items; split; intros H; repeat split; try discriminate.
    destruct H as (_ & _ & _ & H & _). congruence.
Qed.

(** C4.  In [evaluate_rules], the entry of a rule whose operator is [EXISTS]
    has [matched] true exactly when the value returned by the adapter is
    truthy (not null, not zero, not an empty string or collection, not
    [False]); the entry of a rule whose operator is [MISSING] has [matched]
    true exactly when that value is not truthy. *)
Theorem exists_missing_follow_truthiness p rules score log (i : nat) rule v :
  evaluate_rules p rules = Ok (score, log) ->
  rules !! i = Some rule ->
  p (Rule.metric rule) (Rule.window_value rule) (Rule.window_unit rule) = Ok v ->
  exists entry,
    log !! i = Some entry
    /\ AtomicLogEntry.metric_value entry = v
    /\ (Rule.operator rule = "EXISTS" ->
        (AtomicLogEntry.matched entry = true <-> truthy v))
    /\ (Rule.operator rule = "MISSING" ->
        (AtomicLogEntry.matched entry = true <-> ~ truthy v)).
Proof.
  intros Hev Hi Hp.
  destruct (evaluate_rules_entry _ _ _ _ _ _ Hev Hi) as (entry & Hl & Ho).
  exists entry. split; [exact Hl|].
  unfold rule_outcome in Ho. rewrite Hp in Ho.
  apply bind_ok in Ho as (m & Hop & Ho). injection Ho as <-. simpl.
  split; [reflexivity|]. split; intros Hop'.
  - unfold eval_operator in Hop. rewrite Hop' in Hop. simpl in Hop.
    injection Hop as <-. apply py_bool_truthy.
  - unfold eval_operator in Hop. rewrite Hop' in Hop. simpl in Hop.
    injection Hop as <-. rewrite <- py_bool_truthy.
    destruct (py_bool v); simpl; split; congruence.
Qed.

Lemma exists_missing_follow_truthiness_witness :
  exists entry,
    [eval_entry (Examples.rule "r2" "verified" "EXISTS" None None PNone (Examples.fl 1))
       (PBool true) true (Examples.fl 1)] !! 0%nat = Some entry
    /\ AtomicLogEntry.metric_value entry = PBool true
    /\ ("EXISTS" = "EXISTS" ->
        (AtomicLogEntry.matched entry = true <-> truthy (PBool true)))
    /\ ("EXISTS" = "MISSING" ->
        (AtomicLogEntry.matched entry = true <-> ~ truthy (PBool true))).
Proof.
  apply (exists_missing_follow_truthiness Examples.adapter
           [Examples.rule "r2" "verified" "EXISTS" None None PNone (Examples.fl 1)]
           (Examples.fl 1) _ 0%nat
           (Examples.rule "r2" "verified" "EXISTS" None None PNone (Examples.fl 1))
           (PBool true)); reflexivity.
Defined.

(** The end-to-end scenario of the specification: [stars >= 10] with weight
    2 and [verified] with weight 1, on an adapter with 15 stars and a
    verified account, give a total of 3.0 and two matched entries. *)
Example evaluate_rules_scenario :
  (do '(score, log) <-
     evaluate_rules Examples.adapter
       [Examples.rule "r1" "stars" "GTE" None None (PInt 10) (Examples.fl 2);
        Examples.rule "r2" "verified" "EXISTS" None None PNone (Examples.fl 1)];
   Ok (score, map AtomicLogEntry.matched log))
  = Ok (Examples.fl 3, [true; true]).
Proof. vm_compute. reflexivity. Qed.

Lemma fold_accumulate log score :
  fold_left accumulate log score = fold_left Float.add (applied_weights log) score.
Proof.
  revert score. unfold applied_weights.
  induction log as [|e log IH]; intros score; simpl; [reflexivity|].
  unfold accumulate at 2. destruct (AtomicLogEntry.error e); simpl; apply IH.
Qed.

(** The score is the sum of the weights applied before a rule, then the
    weight applied for it, then the weights applied after it. *)
Lemma evaluate_rules_score_at p rules score log (i : nat) entry :
  evaluate_rules p rules = Ok (score, log) ->
  log !! i = Some entry ->
  AtomicLogEntry.error entry = None ->
  score
  = fold_left Float.add (applied_weights (drop (S i) log))
      (Float.add (fold_left Float.add (applied_weights (take i log)) Float.zero)
         (AtomicLogEntry.weight_applied entry)).
Proof.
  rewrite evaluate_rules_outcomes. intros H Hi He.
  apply bind_ok in H as (entries & _ & H). injection H as <- <-.
  rewrite <- (take_drop_middle _ _ _ Hi) at 1.
  rewrite fold_left_app. cbn [fold_left]. rewrite !fold_accumulate.
  unfold accumulate. now rewrite He.
Qed.

(** C9.  In [evaluate_rules], a rule with operator [EQ] whose [value_exact]
    is null matches when the adapter returns a null metric value, and its
    full weight is applied: the entry of the rule in the log has [matched]
    true and [weight_applied] equal to the weight of the rule, and the score
    is the sum of the weights applied before the rule, this weight, and
    the weights applied after the rule. *)
Theorem eq_null_target_matches_null_metric p rules score log (i : nat) rule :
  evaluate_rules p rules = Ok (score, log) ->
  rules !! i = Some rule ->
  Rule.operator rule = "EQ" ->
  Rule.value_exact rule = PNone ->
  p (Rule.metric rule) (Rule.window_value rule) (Rule.window_unit rule) = Ok PNone ->
  exists entry,
    log !! i = Some entry
    /\ AtomicLogEntry.id entry = Rule.id rule
    /\ AtomicLogEntry.metric_value entry = PNone
    /\ AtomicLogEntry.matched entry = true
    /\ AtomicLogEntry.weight_applied entry = Rule.weight rule
    /\ AtomicLogEntry.error entry = None
    /\ score
       = fold_left Float.add (applied_weights (drop (S i) log))
           (Float.add (fold_left Float.add (applied_weights (take i log)) Float.zero)
              (Rule.weight rule)).
Proof.
  intros Hev Hi Hop Hex Hp.
  destruct (evaluate_rules_entry _ _ _ _ _ _ Hev Hi) as (entry & Hl & Ho).
  exists entry. split; [exact Hl|].
  unfold rule_outcome in Ho. rewrite Hp in Ho.
  unfold eval_operator in Ho. rewrite Hop, Hex in Ho. simpl in Ho.
  injection Ho as Ho.
  assert (Hw : AtomicLogEntry.weight_applied entry = Rule.weight rule)
    by now subst entry.
  assert (He : AtomicLogEntry.error entry = None) by now subst entry.
  rewrite <- Hw at 2.
  rewrite <- (evaluate_rules_score_at _ _ _ _ _ _ Hev Hl He).
  subst entry. repeat split.
Qed.

Lemma eq_null_target_matches_null_metric_witness :
  exists entry,
    [eval_entry (Examples.rule "r1" "stars" "GTE" None None (PInt 10) (Examples.fl 2))
       (PInt 15) true (Examples.fl 2);
     eval_entry (Examples.rule "r3" "company" "EQ" None None PNone (Examples.fl 4))
       PNone true (Examples.fl 4)] !! 1%nat = Some entry
    /\ AtomicLogEntry.id entry = "r3"
    /\ AtomicLogEntry.metric_value entry = PNone
    /\ AtomicLogEntry.matched entry = true
    /\ AtomicLogEntry.weight_applied entry = Examples.fl 4
    /\ AtomicLogEntry.error entry = None
    /\ Examples.fl 6
       = fold_left Float.add
           (applied_weights
              (drop 2
                 [eval_entry
                    (Examples.rule "r1" "stars" "GTE" None None (PInt 10) (Examples.fl 2))
                    (PInt 15) true (Examples.fl 2);
                  eval_entry
                    (Examples.rule "r3" "company" "EQ" None None PNone (Examples.fl 4))
                    PNone true (Examples.fl 4)]))
           (Float.add
              (fold_left Float.add
                 (applied_weights
                    (take 1
                       [eval_entry
                          (Examples.rule "r1" "stars" "GTE" None None (PInt 10)
                             (Examples.fl 2))
                          (PInt 15) true (Examples.fl 2);
                        eval_entry
                          (Examples.rule "r3" "company" "EQ" None None PNone
                             (Examples.fl 4))
                          PNone true (Examples.fl 4)]))
                 Float.zero)
              (Examples.fl 4)).
Proof.
  apply (eq_null_target_matches_null_metric Examples.adapter
           [Examples.rule "r1" "stars" "GTE" None None (PInt 10) (Examples.fl 2);
            Examples.rule "r3" "company" "EQ" None None PNone (Examples.fl 4)]
           (Examples.fl 6) _ 1%nat
           (Examples.rule "r3" "company" "EQ" None None PNone (Examples.fl 4)));
    reflexivity.
Defined.

Lemma mapM_app {A B : Type} (f : A -> result B) (xs1 xs2 : list A) :
  mapM f (xs1 ++ xs2) =
  do ys1 <- mapM f xs1; do ys2 <- mapM f xs2; Ok (ys1 ++ ys2).
Proof.
  induction xs1 as [|x xs1 IH]; simpl.
  - destruct (mapM f xs2); reflexivity.
  - destruct (f x) as [y|e]; simpl; [|reflexivity].
    rewrite IH. destruct (mapM f xs1) as [ys1|e]; simpl; [|reflexivity].
    destruct (mapM f xs2); reflexivity.
Qed.

Lemma mapM_length {A B : Type} (f : A -> result B) (xs : list A) (ys : list B) :
  mapM f xs = Ok ys -> length ys = length xs.
Proof.
  revert ys. induction xs as [|x xs IH]; intros ys H; simpl in H.
  - now injection H as <-.
  - apply bind_ok in H as (y & _ & H). apply bind_ok in H as (ys' & Hys & H).
    injection H as <-. simpl. f_equal. auto.
Qed.

(** C5.  In [evaluate_rules], when [get_metric] raises for a rule, the rule
    still gets a log entry, with [matched] false, [weight_applied] 0.0, a
    null metric value, the text of the error and the name of its class; the
    loop goes on with the rules that follow, and the run ends as it would
    without that rule: the same score, the same other entries (or the same
    exception, if the evaluation of another rule's operator raises). *)
Theorem metric_failure_is_logged_and_skipped p pre rule post e :
  p (Rule.metric rule) (Rule.window_value rule) (Rule.window_unit rule) = Raise e ->
  exists entry,
    AtomicLogEntry.id entry = Rule.id rule
    /\ AtomicLogEntry.matched entry = false
    /\ AtomicLogEntry.weight_applied entry = Float.zero
    /\ AtomicLogEntry.metric_value entry = PNone
    /\ AtomicLogEntry.error entry = Some (exn_msg e)
    /\ AtomicLogEntry.exception_type entry = Some (exn_type e)
    /\ match evaluate_rules p (pre ++ post) with
       | Ok (score, log) =>
           evaluate_rules p (pre ++ rule :: post)
           = Ok (score, take (length pre) log ++ entry :: drop (length pre) log)
       | Raise x => evaluate_rules p (pre ++ rule :: post) = Raise x
       end.
Proof.
  intros Hp. exists (error_entry rule e).
  do 6 (split; [reflexivity|]).
  assert (Hout : rule_outcome p rule = Ok (error_entry rule e))
    by (unfold rule_outcome; now rewrite Hp).
  rewrite !evaluate_rules_outcomes, !mapM_app. cbn [mapM]. rewrite Hout.
  destruct (mapM (rule_outcome p) pre) as [es1|x] eqn:H1; simpl; [|reflexivity].
  destruct (mapM (rule_outcome p) post) as [es2|x] eqn:H2; simpl; [|reflexivity].
  apply mapM_length in H1. rewrite <- H1.
  rewrite take_app_length, drop_app_length.
  now rewrite !fold_left_app.
Qed.

Lemma metric_failure_is_logged_and_skipped_witness :
  exists entry,
    AtomicLogEntry.id entry = "r2"
    /\ AtomicLogEntry.matched entry = false
    /\ AtomicLogEntry.weight_applied entry = Float.zero
    /\ AtomicLogEntry.metric_value entry = PNone
    /\ AtomicLogEntry.error entry = Some "Unsupported metric: followers"
    /\ AtomicLogEntry.exception_type entry = Some "ValueError"
    /\ evaluate_rules Examples.adapter
         ([Examples.rule "r1" "stars" "GTE" None None (PInt 10) (Examples.fl 2)]
          ++ Examples.rule "r2" "followers" "GT" None None (PInt 1) (Examples.fl 5)
          :: [Examples.rule "r3" "verified" "EXISTS" None None PNone (Examples.fl 1)])
       = Ok (Examples.fl 3,
             [eval_entry (Examples.rule "r1" "stars" "GTE" None None (PInt 10) (Examples.fl 2))
                (PInt 15) true (Examples.fl 2)]
             ++ entry
             :: [eval_entry (Examples.rule "r3" "verified" "EXISTS" None None PNone (Examples.fl 1))
                   (PBool true) true (Examples.fl 1)]).
Proof.
  apply (metric_failure_is_logged_and_skipped Examples.adapter
           [Examples.rule "r1" "stars" "GTE" None None (PInt 10) (Examples.fl 2)]
           (Examples.rule "r2" "followers" "GT" None None (PInt 1) (Examples.fl 5))
           [Examples.rule "r3" "verified" "EXISTS" None None PNone (Examples.fl 1)]
           (Exn "ValueError" "Unsupported metric: followers")).
  reflexivity.
Defined.

Lemma is_none_false (v : pyval) : is_none v = false <-> v <> PNone.
Proof. destruct v; simpl; split; congruence. Qed.

Section Range.
Variable rule : Rule.t.
Hypothesis Hop : Rule.operator rule = "RANGE" \/ Rule.operator rule = "BETWEEN".

Lemma eval_operator_range (v : pyval) :
  eval_operator rule v =
  do l <- match Rule.value_low rule with
          | None => Ok true
          | Some low => if is_none v then Ok false else py_ge v low
          end;
  do h <- match Rule.value_high rule with
          | None => Ok true
          | Some high => if is_none v then Ok false else py_le v high
          end;
  Ok (l && h).
Proof. unfold eval_operator. destruct Hop as [-> | ->]; reflexivity. Qed.

End Range.

(** ** Binary64 numbers and their values *)


Lemma digits2_pos_bounds (m : positive) :
  2 ^ (Zpos (digits2_pos m) - 1) <= Zpos m < 2 ^ Zpos (digits2_pos m).
Proof.
  induction m as [m IH|m IH|]; cbn [digits2_pos]; [| |simpl; lia].
  - rewrite Pos2Z.inj_succ. change (Zpos m~1) with (2 * Zpos m + 1).
    generalize dependent (Zpos (digits2_pos m)). intros d IH.
    assert (0 <= d - 1 \/ d - 1 < 0) as [Hd|Hd] by lia.
    + replace (Z.succ d - 1) with (Z.succ (d - 1)) by lia.
      rewrite !Z.pow_succ_r by lia. lia.
    + rewrite (Z.pow_neg_r 2 (d - 1)) in IH by lia.
      assert (d = 0) as -> by (destruct (Z.eq_dec d 0); [assumption|];
        rewrite (Z.pow_neg_r 2 d) in IH by lia; lia).
      simpl in *. lia.
  - rewrite Pos2Z.inj_succ. change (Zpos m~0) with (2 * Zpos m).
    generalize dependent (Zpos (digits2_pos m)). intros d IH.
    assert (0 <= d - 1 \/ d - 1 < 0) as [Hd|Hd] by lia.
    + replace (Z.succ d - 1) with (Z.succ (d - 1)) by lia.
      rewrite !Z.pow_succ_r by lia. lia.
    + rewrite (Z.pow_neg_r 2 (d - 1)) in IH by lia.
      assert (d = 0) as -> by (destruct (Z.eq_dec d 0); [assumption|];
        rewrite (Z.pow_neg_r 2 d) in IH by lia; lia).
      simpl in *. lia.
Qed.

(** A binary64 number has an exponent from -1074 to 971, a mantissa below
    [2 ^ 53], and a mantissa of at least [2 ^ 52] above the smallest
    exponent. *)
Lemma is_binary64_finite s m e :
  Float.is_binary64 (S754_finite s m e) = true ->
  -1074 <= e <= 971 /\ Zpos m < 2 ^ 53 /\ (-1074 < e -> 2 ^ 52 <= Zpos m).
Proof.
  unfold Float.is_binary64, valid_binary, bounded, canonical_mantissa, fexp, emin,
    Float.prec, Float.emax.
  intros H. apply andb_true_iff in H as [H1 H2].
  apply Z.eqb_eq in H1. apply Z.leb_le in H2.
  pose proof (digits2_pos_bounds m) as [Hlo Hhi].
  assert (Hd : Zpos (digits2_pos m) <= 53) by lia.
  split; [lia|]. split.
  - apply Z.lt_le_trans with (1 := Hhi). apply Z.pow_le_mono_r; lia.
  - intros He. assert (Zpos (digits2_pos m) = 53) as Hd' by lia.
    rewrite Hd' in Hlo. exact Hlo.
Qed.












(** On an adapter with 15 stars: the range from 15 to 20 and the range with
    both bounds at 15 match, a lower bound of 16 and an upper bound of 14 do
    not, and a null metric matches no range with a bound. *)
Example range_scenarios :
  (do '(_, log) <-
     evaluate_rules Examples.adapter
       [Examples.rule "a" "stars" "RANGE" (Some (Examples.fl 15)) (Some (Examples.fl 20))
          PNone (Examples.fl 1);
        Examples.rule "b" "stars" "BETWEEN" (Some (Examples.fl 15)) (Some (Examples.fl 15))
          PNone (Examples.fl 1);
        Examples.rule "c" "stars" "RANGE" (Some (Examples.fl 16)) None
          PNone (Examples.fl 1);
        Examples.rule "d" "stars" "RANGE" None (Some (Examples.fl 14))
          PNone (Examples.fl 1);
        Examples.rule "e" "company" "RANGE" (Some (Examples.fl 0)) None
          PNone (Examples.fl 1);
        Examples.rule "f" "company" "RANGE" None None PNone (Examples.fl 1)];
   Ok (map AtomicLogEntry.matched log))
  = Ok [true; true; false; false; false; true].
Proof. vm_compute. reflexivity. Qed.

(** The part of the comparison that cannot raise: a metric value that does
    not coerce to a float, or a null [value_exact], gives no match; and
    with a threshold that coerces to a float the comparison returns. *)
Lemma comparison_returns_on_numeric_threshold rule v :
  Rule.operator rule = "LT" \/ Rule.operator rule = "LTE"
  \/ Rule.operator rule = "GT" \/ Rule.operator rule = "GTE" ->
  (try_float v = None -> eval_operator rule v = Ok false)
  /\ (Rule.value_exact rule = PNone -> eval_operator rule v = Ok false)
  /\ (forall thr, py_float (Rule.value_exact rule) = Ok thr ->
      exists b, eval_operator rule v = Ok b).
Proof.
  intros Hop. unfold eval_operator.
  destruct Hop as [-> | [-> | [-> | ->]]]; cbn [String.eqb Ascii.eqb Bool.eqb orb];
    (split; [intros ->; reflexivity|]); (split; [intros ->|intros thr ->]);
    destruct (try_float v); cbn [is_none bind]; eauto;
    destruct (is_none (Rule.value_exact rule)); eauto.
Qed.

(** C2.  The specification has it that for the operators [LT], [LTE],
    [GT] and [GTE] the comparison never raises, whatever the metric value
    and [value_exact].  The code guards the coercion of the metric value, not the coercion of
    the threshold: the cell [abc] is kept as the string ["abc"] by the
    loader, and with it [float(rule.value_exact)] raises [ValueError], which
    leaves [evaluate_rules] although the rule before it evaluated well. *)
Theorem comparison_raises_on_text_threshold :
  parse_value_exact (Some "abc") = PStr "abc"
  /\ eval_operator
       (Examples.rule "r5" "stars" "GT" None None (PStr "abc") (Examples.fl 1))
       (PInt 15)
     = Raise (builtin_error "ValueError")
  /\ evaluate_rules Examples.adapter
       [Examples.rule "r2" "verified" "EXISTS" None None PNone (Examples.fl 1);
        Examples.rule "r5" "stars" "GT" None None (PStr "abc") (Examples.fl 1)]
     = Raise (builtin_error "ValueError").
Proof. repeat split; vm_compute; reflexivity. Qed.

(* ===================================================================== *)
(** * Properties of the rule store *)
(* ===================================================================== *)

Lemma rule_of_csv_row_value_exact row rule :
  rule_of_csv_row row = Ok rule ->
  Rule.value_exact rule = parse_value_exact (Row.get row "value_exact").
Proof.
  unfold rule_of_csv_row. intros H. inv_bind H. now injection H as <-.
Qed.

Lemma rule_of_dynamic_row_value_exact row rule :
  rule_of_dynamic_row row = Ok rule ->
  Rule.value_exact rule = parse_value_exact (Row.get row "value_exact").
Proof.
  unfold rule_of_dynamic_row. intros H. inv_bind H. now injection H as <-.
Qed.

(** C8, as the code has it.  When atomic rules are loaded, by
    [load_rules_from_csv] or by [load_rules], the [value_exact] cell of
    every row is first stripped of the whitespace around it.  If nothing is
    left the value is null; if what is left is [TRUE] or [FALSE] in any
    case, it is that boolean; otherwise it is the number that [float]
    reads, when it reads one; otherwise it is the stripped string, as it
    is. *)
Theorem value_exact_is_parsed_from_the_stripped_cell (row : Row.t) :
  let raw := Str.strip (Row.get_or_empty row "value_exact") in
  let parsed := parse_value_exact (Row.get row "value_exact") in
  (forall rule, rule_of_csv_row row = Ok rule -> Rule.value_exact rule = parsed)
  /\ (forall rule, rule_of_dynamic_row row = Ok rule -> Rule.value_exact rule = parsed)
  /\ (raw = "" -> parsed = PNone)
  /\ (Str.upper raw = "TRUE" -> parsed = PBool true)
  /\ (Str.upper raw = "FALSE" -> parsed = PBool false)
  /\ (raw <> "" -> Str.upper raw <> "TRUE" -> Str.upper raw <> "FALSE" ->
      (forall x, Str.to_float raw = Ok x -> parsed = PFloat x)
      /\ (forall e, Str.to_float raw = Raise e -> parsed = PStr raw)).
Proof.
  intros raw parsed.
  split; [apply rule_of_csv_row_value_exact|].
  split; [apply rule_of_dynamic_row_value_exact|].
  subst parsed. unfold parse_value_exact.
  change (Str.strip match Row.get row "value_exact" with
                    | Some s => s | None => "" end) with raw.
  split; [|split; [|split]].
  - intros ->. reflexivity.
  - intros Hu. destruct (String.eqb_spec raw "") as [->|_]; [discriminate Hu|].
    now rewrite Hu.
  - intros Hu. destruct (String.eqb_spec raw "") as [->|_]; [discriminate Hu|].
    now rewrite Hu.
  - intros Hne Ht Hf.
    destruct (String.eqb_spec raw "") as [|_]; [contradiction|].
    destruct (String.eqb_spec (Str.upper raw) "TRUE") as [|_]; [contradiction|].
    destruct (String.eqb_spec (Str.upper raw) "FALSE") as [|_]; [contradiction|].
    simpl. split; [intros x -> | intros e ->]; reflexivity.
Qed.

(** Cells that are padded with a no-break space (U+00A0), spelled with a
    long s (U+017F) or written in Arabic-Indic digits: [strip], [upper] and
    [float] take them as Python does. *)
Example parse_value_exact_unicode :
  parse_value_exact (Some (Str.of_codes [160; 49; 48])) = PFloat (Examples.fl 10)
  /\ parse_value_exact (Some (Str.of_codes [160])) = PNone
  /\ parse_value_exact (Some (Str.of_codes [102; 97; 108; 383; 101])) = PBool false
  /\ parse_value_exact (Some (Str.of_codes [1633; 1634])) = PFloat (Examples.fl 12)
  /\ parse_value_exact (Some (Str.of_codes [31; 53; 31])) = PFloat (Examples.fl 5)
  /\ parse_value_exact (Some (Str.of_codes [170])) = PStr (Str.of_codes [170]).
Proof. repeat split; vm_compute; reflexivity. Qed.

(** The cells [ 10 ], [true], [abc] and an empty cell. *)
Example parse_value_exact_examples :
  parse_value_exact (Some " 10 ") = PFloat (Examples.fl 10)
  /\ parse_value_exact (Some "true") = PBool true
  /\ parse_value_exact (Some "False") = PBool false
  /\ parse_value_exact (Some "abc") = PStr "abc"
  /\ parse_value_exact (Some "") = PNone
  /\ parse_value_exact None = PNone.
Proof. repeat split; vm_compute; reflexivity. Qed.

(** C8, as the specification words it, fails on a padded cell: [ abc ] is
    not empty, is not the token [TRUE] or [FALSE], and [float] does not
    read it, yet the value kept is ["abc"], not the cell's string
    unchanged.  Likewise a cell of blanks becomes null and a padded
    [ true ] becomes a boolean. *)
Lemma padded_cell_is_not_retained_unchanged :
  Str.to_float " abc " = Raise (builtin_error "ValueError")
  /\ parse_value_exact (Some " abc ") = PStr "abc"
  /\ parse_value_exact (Some " abc ") <> PStr " abc "
  /\ parse_value_exact (Some "  ") = PNone
  /\ parse_value_exact (Some " true ") = PBool true.
Proof. repeat split; try (vm_compute; reflexivity). vm_compute. discriminate. Qed.

Lemma local_rows_none w fallback_path :
  local_rows w fallback_path = Ok None -> files w fallback_path = None.
Proof.
  unfold local_rows. destruct (files w fallback_path) as [f|]; [|reflexivity].
  destruct (file_text f) as [text|]; [|discriminate]. simpl.
  destruct (_csv_string_to_dicts w text); discriminate.
Qed.

Lemma dynamic_none_no_file w provider_name k fallback_path :
  _load_csv_rows_dynamic w provider_name k fallback_path = Ok None ->
  files w fallback_path = None.
Proof.
  unfold _load_csv_rows_dynamic. cbv zeta.
  destruct (_ || _); [apply local_rows_none|].
  destruct (fresh_cache_rows _ _ _ _); [discriminate|].
  destruct (sheet_rows _ _ _ _ _) as [[rows|]|]; simpl; try discriminate.
  destruct (stale_cache_rows _ _ _ _); [discriminate|].
  apply local_rows_none.
Qed.

(** C7.  When no tier of the resolver has rows for a provider and there is
    no local file, loading the atomic rules fails with [FileNotFoundError],
    while loading the business rules succeeds with an empty list; the same
    holds of the two loaders that only read the local file. *)
Theorem missing_table_fails_for_atomic_rules_only (w : World)
    (provider_name rules_dir : string) :
  (files w (rules_path provider_name rules_dir) = None ->
   exists msg,
     load_rules_from_csv w provider_name rules_dir
     = Raise (Exn "FileNotFoundError" msg))
  /\ (files w (br_path provider_name rules_dir) = None ->
      load_business_rules_from_csv w provider_name rules_dir = Ok [])
  /\ (_load_csv_rows_dynamic w provider_name KRules
        (rules_path provider_name rules_dir) = Ok None ->
      exists msg,
        load_rules w provider_name rules_dir = Raise (Exn "FileNotFoundError" msg))
  /\ (_load_csv_rows_dynamic w provider_name KBr
        (br_path provider_name rules_dir) = Ok None ->
      load_business_rules w provider_name rules_dir = Ok []).
Proof.
  assert (H1 : files w (rules_path provider_name rules_dir) = None ->
               exists msg, load_rules_from_csv w provider_name rules_dir
                           = Raise (Exn "FileNotFoundError" msg)).
  { intros H. unfold load_rules_from_csv. rewrite H. eauto. }
  assert (H2 : files w (br_path provider_name rules_dir) = None ->
               load_business_rules_from_csv w provider_name rules_dir = Ok []).
  { intros H. unfold load_business_rules_from_csv. now rewrite H. }
  split; [exact H1|]. split; [exact H2|]. split.
  - intros H. unfold load_rules. rewrite H.
    apply H1. eapply dynamic_none_no_file; eauto.
  - intros H. unfold load_business_rules. rewrite H.
    apply H2. eapply dynamic_none_no_file; eauto.
Qed.

Lemma missing_table_fails_for_atomic_rules_only_witness :
  (exists msg,
     load_rules Examples.empty_world "github" "/srv"
     = Raise (Exn "FileNotFoundError" msg))
  /\ load_business_rules Examples.empty_world "github" "/srv" = Ok [].
Proof.
  split.
  - apply (proj1 (proj2 (proj2
      (missing_table_fails_for_atomic_rules_only Examples.empty_world "github" "/srv")))).
    reflexivity.
  - apply (proj2 (proj2 (proj2
      (missing_table_fails_for_atomic_rules_only Examples.empty_world "github" "/srv")))).
    reflexivity.
Defined.

Lemma value_exact_is_parsed_from_the_stripped_cell_witness :
  parse_value_exact (Row.get {[ "value_exact" := Some " TRUE " ]} "value_exact")
  = PBool true.
Proof.
  apply (proj1 (proj2 (proj2 (proj2
    (value_exact_is_parsed_from_the_stripped_cell
       {[ "value_exact" := Some " TRUE " ]}))))).
  vm_compute. reflexivity.
Defined.

(* ===================================================================== *)
(** * Properties of the business rule evaluator *)
(* ===================================================================== *)

(** ** The order of the floats that are not NaN *)

Lemma ltb_float_code (x y : float) :
  Float.is_nan x = false -> Float.is_nan y = false ->
  (Float.ltb x y = true <-> lex3_lt (float_code x) (float_code y)).
Proof.
  unfold Float.ltb, SFltb, SFcompare.
  destruct x as [s1|s1| |s1 m1 e1], y as [s2|s2| |s2 m2 e2];
    try discriminate; intros _ _; simpl;
    try change (Pos.compare_cont Eq m1 m2) with (m1 ?= m2)%positive;
    try destruct s1; try destruct s2; simpl;
    try (destruct (Z.compare_spec e1 e2); simpl);
    try (destruct (Pos.compare_spec m1 m2); simpl);
    split; intros Hlt; try discriminate; try reflexivity; try lia.
Qed.

Lemma eqb_float_code (x y : float) :
  Float.is_nan x = false -> Float.is_nan y = false ->
  (Float.eqb x y = true <-> float_code x = float_code y).
Proof.
  unfold Float.eqb, SFeqb, SFcompare.
  destruct x as [s1|s1| |s1 m1 e1], y as [s2|s2| |s2 m2 e2];
    try discriminate; intros _ _; simpl;
    try change (Pos.compare_cont Eq m1 m2) with (m1 ?= m2)%positive;
    try destruct s1; try destruct s2; simpl;
    try (destruct (Z.compare_spec e1 e2); simpl);
    try (destruct (Pos.compare_spec m1 m2); simpl);
    split; intros Heq; try discriminate; try reflexivity;
    try (injection Heq; intros; subst; lia);
    try (f_equal; [f_equal|]; lia).
Qed.

(** ** The order of the sort keys *)

(** [key_lt] read as a lexicographic order; this holds with NaN too. *)
Lemma key_lt_lex (l1 l2 : Z) (w1 w2 : float) (p1 p2 : Z) :
  key_lt (l1, w1, p1) (l2, w2, p2) = true <->
  l1 < l2
  \/ (l1 = l2 /\ (Float.ltb w1 w2 = true
                  \/ (Float.eqb w1 w2 = true /\ p1 < p2))).
Proof.
  unfold key_lt, Float.ltb, Float.eqb, SFltb, SFeqb.
  destruct (Z.eqb_spec l1 l2), (Z.eqb_spec p1 p2), (Z.ltb_spec l1 l2),
    (Z.ltb_spec p1 p2), (SFcompare w1 w2) as [[]|]; simpl;
    split; intros Hk; try discriminate; try reflexivity; try lia;
    try (destruct Hk as [Hk|[_ [Hk|[Hk Hk']]]]; try discriminate; lia).
Qed.

Lemma key_lt_code (o1 o2 : BusinessRuleOption.t) :
  weight_is_number o1 -> weight_is_number o2 ->
  key_lt (sort_key o1) (sort_key o2) = true <->
  BusinessRuleOption.likert_value o1 < BusinessRuleOption.likert_value o2
  \/ (BusinessRuleOption.likert_value o1 = BusinessRuleOption.likert_value o2
      /\ (lex3_lt (float_code (BusinessRuleOption.weight o1))
                  (float_code (BusinessRuleOption.weight o2))
          \/ (float_code (BusinessRuleOption.weight o1)
              = float_code (BusinessRuleOption.weight o2)
              /\ priority_or_0 o2 < priority_or_0 o1))).
Proof.
  intros H1 H2. unfold sort_key. rewrite key_lt_lex.
  rewrite (ltb_float_code _ _ H1 H2), (eqb_float_code _ _ H1 H2).
  now rewrite <- (Z.opp_lt_mono (priority_or_0 o2) (priority_or_0 o1)).
Qed.

Lemma key_lt_asym (x y : BusinessRuleOption.t) :
  weight_is_number x -> weight_is_number y ->
  key_lt (sort_key x) (sort_key y) = true ->
  key_lt (sort_key y) (sort_key x) = false.
Proof.
  intros Hx Hy H. apply not_true_is_false. revert H.
  rewrite (key_lt_code x y Hx Hy), (key_lt_code y x Hy Hx).
  unfold lex3_lt.
  destruct (float_code (BusinessRuleOption.weight x)) as [[a1 a2] a3].
  destruct (float_code (BusinessRuleOption.weight y)) as [[b1 b2] b3].
  intros H1 H2.
  assert (forall u v : Z * Z * Z, u = v -> fst (fst u) = fst (fst v)
            /\ snd (fst u) = snd (fst v) /\ snd u = snd v) as Heq
    by (intros u v ->; auto).
  destruct H1 as [H1|[H1 [H1'|[H1' H1'']]]];
    destruct H2 as [H2|[H2 [H2'|[H2' H2'']]]];
    try apply Heq in H1'; try apply Heq in H2'; simpl in *; lia.
Qed.

Lemma key_lt_le_trans (x y z : BusinessRuleOption.t) :
  weight_is_number x -> weight_is_number y -> weight_is_number z ->
  key_lt (sort_key x) (sort_key y) = true ->
  key_lt (sort_key z) (sort_key y) = false ->
  key_lt (sort_key x) (sort_key z) = true.
Proof.
  intros Hx Hy Hz H1 H2. apply not_true_iff_false in H2. revert H1 H2.
  rewrite (key_lt_code x y Hx Hy), (key_lt_code z y Hz Hy),
    (key_lt_code x z Hx Hz).
  unfold lex3_lt.
  destruct (float_code (BusinessRuleOption.weight x)) as [[a1 a2] a3].
  destruct (float_code (BusinessRuleOption.weight y)) as [[b1 b2] b3].
  destruct (float_code (BusinessRuleOption.weight z)) as [[c1 c2] c3].
  intros H1 H2.
  assert (forall u1 u2 u3 v1 v2 v3 : Z,
            (u1, u2, u3) = (v1, v2, v3) <-> u1 = v1 /\ u2 = v2 /\ u3 = v3) as Heq
    by (intros; split; [intros [= -> -> ->]; auto | intros (-> & -> & ->); auto]).
  rewrite !Heq in *. lia.
Qed.

(** ** Stable sorting and the first best element *)

Section StableSort.
Context {A K : Type}.
Variable lt : K -> K -> bool.
Variable key : A -> K.
Variable ok : A -> Prop.

(** [lt] is a strict weak order on the keys of the elements in [ok]. *)
Hypothesis lt_asym : forall x y,
  ok x -> ok y -> lt (key x) (key y) = true -> lt (key y) (key x) = false.
Hypothesis lt_le_trans : forall x y z,
  ok x -> ok y -> ok z ->
  lt (key x) (key y) = true -> lt (key z) (key y) = false ->
  lt (key x) (key z) = true.

Lemma lt_irrefl x : ok x -> lt (key x) (key x) = false.
Proof.
  intros Hx. destruct (lt (key x) (key x)) eqn:E; [|reflexivity].
  now rewrite (lt_asym x x Hx Hx E) in E.
Qed.

Lemma insert_by_Forall (P : A -> Prop) x l :
  P x -> Forall P l -> Forall P (insert_by lt key x l).
Proof.
  intros Hx Hl. induction Hl as [|y l Hy Hl IH]; simpl.
  - auto.
  - destruct (lt (key x) (key y)); auto.
Qed.

Lemma insert_by_ascending x l :
  ok x -> Forall ok l -> ascending lt key l ->
  ascending lt key (insert_by lt key x l).
Proof.
  intros Hx Hok Hs. unfold ascending in *.
  induction Hs as [|y l Hs IH Hy]; simpl.
  - repeat constructor.
  - inversion Hok as [|? ? Hoky Hokl]; subst.
    destruct (lt (key x) (key y)) eqn:E.
    + constructor; [now constructor|].
      constructor; [now apply lt_asym|].
      rewrite Forall_forall in *. intros b Hb.
      destruct (lt (key b) (key x)) eqn:Eb; [|reflexivity].
      rewrite <- (Hy b Hb). symmetry.
      apply (lt_le_trans b x y); auto using lt_asym.
    + constructor; [auto|]. now apply insert_by_Forall.
Qed.

Lemma stable_sort_snoc l x :
  stable_sort lt key (l ++ [x]) = insert_by lt key x (stable_sort lt key l).
Proof. unfold stable_sort. now rewrite fold_left_app. Qed.

Lemma stable_sort_ascending l :
  Forall ok l ->
  Forall ok (stable_sort lt key l) /\ ascending lt key (stable_sort lt key l).
Proof.
  induction l as [|x l IH] using rev_ind; intros Hok.
  - split; constructor.
  - apply Forall_app in Hok as [Hl Hx]. inversion Hx; subst.
    destruct (IH Hl) as [IH1 IH2]. rewrite stable_sort_snoc. split.
    + now apply insert_by_Forall.
    + now apply insert_by_ascending.
Qed.

(** *** The sort of CPython is the stable sort on totally ordered keys *)

Lemma binary_insert_Permutation sorted x :
  Permutation (binary_insert lt key sorted x) (x :: sorted).
Proof.
  unfold binary_insert. rewrite <- Permutation_middle.
  now rewrite take_drop.
Qed.

Lemma binarysort_Permutation run rest :
  Permutation (binarysort lt key run rest) (run ++ rest).
Proof.
  unfold binarysort. revert run.
  induction rest as [|x rest IH]; intros run; simpl.
  - now rewrite app_nil_r.
  - rewrite IH, binary_insert_Permutation. simpl. apply Permutation_middle.
Qed.

Lemma list_sort_Permutation l : Permutation (list_sort lt key l) l.
Proof.
  unfold list_sort. destruct (count_run lt key l) as [n d].
  rewrite binarysort_Permutation.
  destruct d; [rewrite <- Permutation_rev|]; now rewrite take_drop.
Qed.

Lemma insert_by_place x l :
  insert_by lt key x l
  = take (insert_place lt key x l) l ++ x :: drop (insert_place lt key x l) l.
Proof.
  induction l as [|y l IH]; simpl; [reflexivity|].
  destruct (lt (key x) (key y)); simpl; [reflexivity|]. now rewrite IH.
Qed.

Lemma insert_place_le x l : (insert_place lt key x l <= length l)%nat.
Proof.
  induction l as [|y l IH]; simpl; [lia|].
  destruct (lt (key x) (key y)); simpl; lia.
Qed.

Lemma insert_place_before x l (j : nat) y :
  (j < insert_place lt key x l)%nat -> l !! j = Some y ->
  lt (key x) (key y) = false.
Proof.
  revert j. induction l as [|y0 l IH]; intros j; simpl; [lia|].
  destruct (lt (key x) (key y0)) eqn:E; [lia|].
  destruct j as [|j]; simpl.
  - intros _ [= <-]. exact E.
  - intros Hj. apply IH. lia.
Qed.

Lemma insert_place_after x l (j : nat) y :
  ok x -> Forall ok l -> ascending lt key l ->
  (insert_place lt key x l <= j)%nat -> l !! j = Some y ->
  lt (key x) (key y) = true.
Proof.
  intros Hx Hok Hs. revert j. unfold ascending in Hs.
  induction Hs as [|y0 l Hs IH Hy]; intros j; simpl; [discriminate|].
  inversion Hok as [|? ? Hoky Hokl]; subst.
  destruct (lt (key x) (key y0)) eqn:E.
  - intros _. destruct j as [|j]; simpl.
    + intros [= <-]. exact E.
    + intros Hj. apply list_elem_of_lookup_2 in Hj.
      apply (lt_le_trans x y0 y); auto.
      * rewrite Forall_forall in Hokl. now apply Hokl.
      * rewrite Forall_forall in Hy. now apply Hy.
  - destruct j as [|j]; simpl; [lia|]. intros Hj. apply (IH Hokl). lia.
Qed.

Lemma bisect_place (fuel : nat) x a (l r : nat) :
  ok x -> Forall ok a -> ascending lt key a ->
  (l <= insert_place lt key x a <= r)%nat -> (r <= length a)%nat ->
  (l < r)%nat -> (r - l <= fuel)%nat ->
  bisect fuel lt key x a l r = insert_place lt key x a.
Proof.
  intros Hx Hok Hs. revert l r.
  induction fuel as [|fuel IH]; intros l r Hpl Hr Hlr Hf; [lia|].
  cbn [bisect]. cbv zeta.
  assert (Hd : (Nat.div2 (r - l) < r - l)%nat) by (apply Nat.lt_div2; lia).
  set (p := (l + Nat.div2 (r - l))%nat) in *.
  assert (Hp : (l <= p < r)%nat).
  { unfold p. clear - Hd Hlr. revert Hd. generalize (Nat.div2 (r - l)). lia. }
  clearbody p. clear Hd.
  destruct (lookup_lt_is_Some_2 a p) as [y Hy]; [lia|]. rewrite Hy.
  destruct (lt (key x) (key y)) eqn:E.
  - assert (Hle : (insert_place lt key x a <= p)%nat).
    { destruct (Nat.le_gt_cases (insert_place lt key x a) p) as [H|H]; [exact H|].
      rewrite (insert_place_before x a p y H Hy) in E. discriminate. }
    destruct (Nat.ltb_spec l p); [apply IH; lia | lia].
  - assert (Hgt : (p < insert_place lt key x a)%nat).
    { destruct (Nat.le_gt_cases (insert_place lt key x a) p) as [H|H]; [|exact H].
      rewrite (insert_place_after x a p y Hx Hok Hs H Hy) in E. discriminate. }
    destruct (Nat.ltb_spec (S p) r); [apply IH; lia | lia].
Qed.

Lemma binary_insert_insert_by sorted x :
  ok x -> Forall ok sorted -> ascending lt key sorted ->
  binary_insert lt key sorted x = insert_by lt key x sorted.
Proof.
  intros Hx Hok Hs. unfold binary_insert. rewrite insert_by_place.
  destruct sorted as [|y sorted']; [reflexivity|].
  rewrite (bisect_place _ x (y :: sorted') O (length (y :: sorted')));
    auto; try (simpl; lia).
  split; [lia | apply insert_place_le].
Qed.

Lemma binarysort_stable run rest :
  Forall ok run -> Forall ok rest -> ascending lt key run ->
  binarysort lt key run rest
  = fold_left (fun sorted x => insert_by lt key x sorted) rest run.
Proof.
  unfold binarysort. revert run.
  induction rest as [|x rest IH]; intros run Hrun Hrest Hs; [reflexivity|].
  inversion Hrest as [|? ? Hx Hrest']; subst. simpl.
  rewrite binary_insert_insert_by by assumption.
  apply IH; [now apply insert_by_Forall | assumption | now apply insert_by_ascending].
Qed.

(** An element that is not smaller than the last of an ascending list goes
    to its end. *)
Lemma insert_by_end x l prev :
  ok x -> ok prev -> Forall ok l -> ascending lt key (l ++ [prev]) ->
  lt (key x) (key prev) = false ->
  insert_by lt key x (l ++ [prev]) = (l ++ [prev]) ++ [x].
Proof.
  intros Hx Hprev Hok Hs E.
  assert (Hall : forall y, In y (l ++ [prev]) -> lt (key x) (key y) = false).
  { intros y Hy. apply in_app_or in Hy as [Hy|[<-|[]]]; [|exact E].
    destruct (lt (key x) (key y)) eqn:Exy; [|reflexivity].
    assert (Hoky : ok y) by (rewrite List.Forall_forall in Hok; now apply Hok).
    assert (Hpy : lt (key prev) (key y) = false).
    { unfold ascending in Hs. clear - Hs Hy.
      induction l as [|z l IHl]; [destruct Hy|].
      simpl in Hs. inversion Hs as [|? ? Hs1 Hz]; subst.
      destruct Hy as [<-|Hy]; [|now apply IHl].
      rewrite List.Forall_forall in Hz. apply Hz.
      apply in_or_app. right. now left. }
    rewrite <- E. symmetry. now apply (lt_le_trans x y prev). }
  clear Hs. induction (l ++ [prev]) as [|y l' IHl]; [reflexivity|]. simpl.
  rewrite (Hall y) by now left. f_equal. apply IHl.
  intros z Hz. apply Hall. now right.
Qed.

Lemma stable_sort_run_ascending pre prev r :
  Forall ok pre -> ok prev -> Forall ok r ->
  stable_sort lt key (pre ++ [prev]) = pre ++ [prev] ->
  stable_sort lt key (pre ++ prev :: take (run_length lt key false prev r) r)
  = pre ++ prev :: take (run_length lt key false prev r) r.
Proof.
  intros Hpre Hprev Hr. revert pre prev Hpre Hprev.
  induction Hr as [|x r Hx Hr IH]; intros pre prev Hpre Hprev Hst;
    [exact Hst|].
  cbn [run_length]. destruct (lt (key x) (key prev)) eqn:E; cbn [Bool.eqb];
    [exact Hst|].
  cbn [take]. change (pre ++ prev :: x :: ?t) with (pre ++ [prev] ++ x :: t).
  rewrite app_assoc. apply IH.
  - apply Forall_app. split; [assumption | now constructor].
  - assumption.
  - rewrite stable_sort_snoc, Hst. apply insert_by_end; auto.
    rewrite <- Hst. apply stable_sort_ascending.
    apply Forall_app. split; [assumption | now constructor].
Qed.

Lemma stable_sort_run_descending pre prev r :
  stable_sort lt key (pre ++ [prev]) = rev (pre ++ [prev]) ->
  stable_sort lt key (pre ++ prev :: take (run_length lt key true prev r) r)
  = rev (pre ++ prev :: take (run_length lt key true prev r) r).
Proof.
  revert pre prev.
  induction r as [|x r IH]; intros pre prev Hst; [exact Hst|].
  cbn [run_length]. destruct (lt (key x) (key prev)) eqn:E; cbn [Bool.eqb];
    [|exact Hst].
  cbn [take]. change (pre ++ prev :: x :: ?t) with (pre ++ [prev] ++ x :: t).
  rewrite app_assoc. apply IH.
  rewrite stable_sort_snoc, Hst, !rev_app_distr. simpl. now rewrite E.
Qed.

(** On elements whose keys [lt] orders totally, the sort of CPython gives
    the list that the stable insertion sort gives. *)
Lemma list_sort_stable l :
  Forall ok l -> list_sort lt key l = stable_sort lt key l.
Proof.
  intros Hok. destruct l as [|x [|y r]]; [reflexivity | reflexivity |].
  unfold list_sort. cbn [count_run]. cbv zeta.
  set (d := lt (key y) (key x)).
  set (k := run_length lt key d y r).
  cbn [take drop].
  inversion Hok as [|? ? Hx Hok']; subst.
  inversion Hok' as [|? ? Hy Hr]; subst.
  assert (Hrun : (if d then rev (x :: y :: take k r) else x :: y :: take k r)
                 = stable_sort lt key (x :: y :: take k r)).
  { unfold k. destruct d eqn:Ed.
    - symmetry. apply (stable_sort_run_descending [x] y r).
      unfold stable_sort. simpl. fold d. now rewrite Ed.
    - symmetry. apply (stable_sort_run_ascending [x] y r); auto.
      unfold stable_sort. simpl. fold d. now rewrite Ed. }
  rewrite Hrun.
  assert (Hokrun : Forall ok (x :: y :: take k r)).
  { repeat constructor; auto. now apply Forall_take. }
  destruct (stable_sort_ascending _ Hokrun) as [H1 H2].
  rewrite binarysort_stable; auto using Forall_drop.
  change (x :: y :: r) with ([x; y] ++ r).
  rewrite <- (take_drop k r) at 3.
  unfold stable_sort. rewrite app_assoc, fold_left_app. reflexivity.
Qed.

Lemma last_insert_by x l :
  ok x -> Forall ok l -> ascending lt key l ->
  last (insert_by lt key x l) =
  match last l with
  | None => Some x
  | Some b => if lt (key x) (key b) then Some b else Some x
  end.
Proof.
  intros Hx Hok Hs. unfold ascending in Hs.
  induction Hs as [|y l Hs IH Hy]; simpl; [reflexivity|].
  inversion Hok as [|? ? Hoky Hokl]; subst.
  destruct (lt (key x) (key y)) eqn:E.
  - rewrite (last_cons x (y :: l)).
    destruct (last (y :: l)) as [b|] eqn:Hb; [|reflexivity].
    assert (Hin : b ∈ y :: l) by (eapply last_Some_elem_of; eauto).
    assert (Hokb : ok b).
    { rewrite Forall_forall in Hok. now apply Hok. }
    assert (Hby : lt (key b) (key y) = false).
    { apply elem_of_cons in Hin as [->|Hin]; [now apply lt_irrefl|].
      rewrite Forall_forall in Hy. now apply Hy. }
    now rewrite (lt_le_trans x y b Hx Hoky Hokb E Hby).
  - rewrite (last_cons y (insert_by lt key x l)), (IH Hokl), (last_cons y l).
    destruct (last l) as [b|].
    + destruct (lt (key x) (key b)); reflexivity.
    + now rewrite E.
Qed.

Lemma head_rev (l : list A) : head (rev l) = last l.
Proof.
  induction l as [|x l IH]; [reflexivity|].
  simpl rev. rewrite head_app, IH, last_cons. now destruct (last l).
Qed.

(** The head of the list sorted in decreasing order is the first best
    element of the list. *)
Lemma head_sort_reverse l :
  Forall ok l -> head (sort_reverse lt key l) = first_best lt key l.
Proof.
  intros Hok0. unfold sort_reverse.
  rewrite list_sort_stable
    by (rewrite List.Forall_forall in *; intros y Hy; apply Hok0; now apply in_rev).
  rewrite head_rev. revert Hok0.
  induction l as [|x l IH]; intros Hok; [reflexivity|].
  inversion Hok as [|? ? Hx Hl]; subst.
  simpl rev. rewrite stable_sort_snoc.
  assert (Hrev : Forall ok (rev l)).
  { rewrite List.Forall_forall in *. intros y Hy. apply Hl. now apply in_rev. }
  destruct (stable_sort_ascending (rev l) Hrev) as [H1 H2].
  rewrite (last_insert_by x _ Hx H1 H2), (IH Hl). reflexivity.
Qed.

Lemma first_best_In l b : first_best lt key l = Some b -> In b l.
Proof.
  revert b. induction l as [|x l IH]; intros b; simpl; [discriminate|].
  destruct (first_best lt key l) as [b'|].
  - destruct (lt (key x) (key b')); intros [= <-]; auto.
  - intros [= <-]; auto.
Qed.

Lemma first_best_nonempty l : l <> [] -> exists b, first_best lt key l = Some b.
Proof.
  destruct l as [|x l]; [congruence|]. intros _. simpl.
  destruct (first_best lt key l) as [b'|]; [|eauto].
  destruct (lt (key x) (key b')); eauto.
Qed.

(** No element of the list beats the first best one. *)
Lemma first_best_max l b :
  Forall ok l -> first_best lt key l = Some b ->
  forall o, In o l -> lt (key b) (key o) = false.
Proof.
  revert b. induction l as [|x l IH]; intros b Hok; simpl; [discriminate|].
  inversion Hok as [|? ? Hx Hl]; subst.
  destruct (first_best lt key l) as [b'|] eqn:Hb'.
  - assert (Hokb' : ok b').
    { rewrite List.Forall_forall in Hl. apply Hl. now apply first_best_In. }
    destruct (lt (key x) (key b')) eqn:E; intros [= <-] o [<-|Ho].
    + now apply lt_asym.
    + now apply (IH b').
    + now apply lt_irrefl.
    + destruct (lt (key x) (key o)) eqn:Eo; [|reflexivity].
      assert (Hoko : ok o) by (rewrite List.Forall_forall in Hl; now apply Hl).
      assert (Hbo : lt (key b') (key o) = false) by now apply (IH b').
      rewrite <- E. symmetry. now apply (lt_le_trans x o b').
  - intros [= <-] o [<-|Ho]; [now apply lt_irrefl|].
    destruct l; [destruct Ho|]. simpl in Hb'.
    destruct (first_best lt key l) as [b'|]; [|discriminate].
    destruct (lt (key a) (key b')); discriminate.
Qed.

(** Every element before the first best one is beaten by it. *)
Lemma first_best_earliest l b :
  first_best lt key l = Some b ->
  exists pre post,
    l = pre ++ b :: post
    /\ forall o, In o pre -> lt (key o) (key b) = true.
Proof.
  revert b. induction l as [|x l IH]; intros b; simpl; [discriminate|].
  destruct (first_best lt key l) as [b'|] eqn:Hb'.
  - destruct (lt (key x) (key b')) eqn:E; intros [= <-].
    + destruct (IH b' eq_refl) as (pre & post & -> & Hpre).
      exists (x :: pre), post. split; [reflexivity|].
      intros o [<-|Ho]; auto.
    + exists [], l. split; [reflexivity|]. intros o [].
  - intros [= <-]. exists [], l. split; [reflexivity|]. intros o [].
Qed.

Lemma insert_by_Permutation x l : Permutation (insert_by lt key x l) (x :: l).
Proof.
  induction l as [|y l IH]; simpl; [reflexivity|].
  destruct (lt (key x) (key y)); [reflexivity|].
  rewrite IH. apply perm_swap.
Qed.

Lemma stable_sort_Permutation l : Permutation (stable_sort lt key l) l.
Proof.
  induction l as [|x l IH] using rev_ind; [reflexivity|].
  rewrite stable_sort_snoc, insert_by_Permutation, IH.
  apply Permutation_cons_append.
Qed.

(** The sort keeps the elements, and leaves them in decreasing order. *)
Lemma sort_reverse_sorted l :
  Forall ok l ->
  Permutation (sort_reverse lt key l) l
  /\ ascending lt key (rev (sort_reverse lt key l)).
Proof.
  intros Hok. unfold sort_reverse.
  assert (Hrev : Forall ok (rev l)).
  { rewrite List.Forall_forall in *. intros y Hy. apply Hok. now apply in_rev. }
  rewrite list_sort_stable by exact Hrev. split.
  - rewrite <- Permutation_rev, stable_sort_Permutation.
    symmetry. apply Permutation_rev.
  - rewrite rev_involutive. now apply stable_sort_ascending.
Qed.
End StableSort.

(** ** Groups *)

Lemma setdefault_append_keys groups k opt :
  map fst (setdefault_append groups k opt) =
  if bool_decide (k ∈ map fst groups) then map fst groups
  else map fst groups ++ [k].
Proof.
  induction groups as [|[k' opts] groups IH]; cbn [setdefault_append map fst].
  - rewrite bool_decide_eq_false_2; [reflexivity|]. apply not_elem_of_nil.
  - destruct (String.eqb_spec k' k) as [->|Hne]; cbn [map fst].
    + rewrite bool_decide_eq_true_2; [reflexivity|]. apply elem_of_cons. auto.
    + rewrite IH. case_bool_decide as E.
      * rewrite bool_decide_eq_true_2; [reflexivity|]. apply elem_of_cons. auto.
      * rewrite bool_decide_eq_false_2; [reflexivity|].
        intros [?|?]%elem_of_cons; congruence.
Qed.

Lemma setdefault_append_In groups k opt g opts :
  NoDup (map fst groups) ->
  In (g, opts) (setdefault_append groups k opt) ->
  (g = k /\ ~ In k (map fst groups) /\ opts = [opt])
  \/ (g = k /\ exists opts', In (g, opts') groups /\ opts = opts' ++ [opt])
  \/ (g <> k /\ In (g, opts) groups).
Proof.
  induction groups as [|[k' opts'] groups IH]; simpl; intros Hnd Hin.
  - destruct Hin as [[= <- <-]|[]]. left. tauto.
  - apply NoDup_cons in Hnd as [Hk' Hnd].
    rewrite list_elem_of_In in Hk'.
    destruct (String.eqb_spec k' k) as [->|Hne].
    + destruct Hin as [[= <- <-]|Hin].
      * right. left. eauto.
      * assert (g <> k).
        { intros ->. apply Hk'. apply in_map_iff. now exists (k, opts). }
        right. right. auto.
    + destruct Hin as [[= <- <-]|Hin].
      * right. right. auto.
      * destruct (IH Hnd Hin) as [(-> & Hn & ->)|[(-> & o' & Ho' & ->)|(Hg & Ho)]].
        -- left. repeat split; auto. intros [?|?]; congruence.
        -- right. left. eauto.
        -- right. right. auto.
Qed.

Lemma filter_nil_notin g (l : list BusinessRuleOption.t) :
  (forall o, In o l -> BusinessRuleOption.group_id o <> g) ->
  List.filter (in_group g) l = [].
Proof.
  induction l as [|o l IH]; intros H; simpl; [reflexivity|].
  unfold in_group at 1.
  destruct (String.eqb_spec (BusinessRuleOption.group_id o) g) as [E|_].
  - exfalso. apply (H o); auto. now left.
  - apply IH. intros o' Ho'. apply H. now right.
Qed.

(** The groups are the distinct group ids of the input, and each holds the
    options of the input that carry its id, in the order of the input. *)
Lemma group_options_spec br_options :
  NoDup (map fst (group_options br_options))
  /\ (forall o, In o br_options ->
       In (BusinessRuleOption.group_id o) (map fst (group_options br_options)))
  /\ (forall g opts, In (g, opts) (group_options br_options) ->
       opts = List.filter (in_group g) br_options /\ opts <> []).
Proof.
  unfold group_options.
  induction br_options as [|opt l IH] using rev_ind; simpl.
  - split; [constructor|]. split; [intros o []|intros g opts []].
  - rewrite fold_left_app. simpl. destruct IH as (Hnd & Hkeys & IH).
    set (groups := fold_left _ l []) in *.
    set (k := BusinessRuleOption.group_id opt).
    assert (Hk : map fst (setdefault_append groups k opt) =
                 if bool_decide (k ∈ map fst groups) then map fst groups
                 else map fst groups ++ [k]) by apply setdefault_append_keys.
    split; [|split].
    + rewrite Hk. case_bool_decide as Hin; [exact Hnd|].
      apply NoDup_app. split; [exact Hnd|]. split.
      * intros x Hx [->|[]%elem_of_nil]%elem_of_cons. contradiction.
      * apply NoDup_singleton.
    + intros o Ho. rewrite Hk. apply in_app_or in Ho as [Ho|[<-|[]]].
      * case_bool_decide; [auto|]. apply in_or_app. left. auto.
      * fold k. case_bool_decide as E; [now apply list_elem_of_In|].
        apply in_or_app. right. now left.
    + intros g opts Hin. rewrite List.filter_app. simpl. unfold in_group at 2.
      fold k.
      apply setdefault_append_In in Hin as
          [(-> & Hn & ->)|[(-> & o' & Ho' & ->)|(Hg & Ho)]]; [| | |exact Hnd].
      * rewrite String.eqb_refl. split; [|discriminate].
        rewrite filter_nil_notin; [reflexivity|].
        intros o Ho E. apply Hn. rewrite <- E. now apply Hkeys.
      * rewrite String.eqb_refl. destruct (IH k o' Ho') as [-> _].
        split; [reflexivity|]. now destruct (List.filter (in_group k) l).
      * destruct (String.eqb_spec k g) as [E|_]; [congruence|].
        rewrite app_nil_r. now apply IH.
Qed.

(** The business log has one entry per group, in the order of the groups. *)
Lemma evaluate_business_rules_log atomic_log br_options :
  snd (evaluate_business_rules atomic_log br_options) =
  map (fun group => group_entry (matched_atomic_ids atomic_log) (fst group) (snd group))
      (group_options br_options).
Proof.
  unfold evaluate_business_rules. destruct br_options as [|o l]; [reflexivity|].
  set (ids := matched_atomic_ids atomic_log).
  generalize (group_options (o :: l)). intros groups.
  enough (H : forall st,
    snd (fold_left (evaluate_group ids) groups st) =
    snd st ++ map (fun group => group_entry ids (fst group) (snd group)) groups)
    by (now rewrite H).
  induction groups as [|[g opts] groups IH]; intros [score log]; simpl.
  - now rewrite app_nil_r.
  - rewrite IH. simpl. now rewrite <- app_assoc.
Qed.

(** ** The winner of a group *)

Lemma triple_eq (u1 u2 u3 v1 v2 v3 : Z) :
  (u1, u2, u3) = (v1, v2, v3) <-> u1 = v1 /\ u2 = v2 /\ u3 = v3.
Proof. split; [intros [= -> -> ->]; auto | intros (-> & -> & ->); auto]. Qed.

(** An option that does not lose against another ranks at least as high. *)
Lemma not_key_lt_ranks (c o : BusinessRuleOption.t) :
  weight_is_number c -> weight_is_number o ->
  key_lt (sort_key c) (sort_key o) = false -> ranks_at_least c o.
Proof.
  intros Hc Ho H. apply not_true_iff_false in H. revert H.
  rewrite (key_lt_code c o Hc Ho). unfold ranks_at_least.
  rewrite (ltb_float_code _ _ Ho Hc), (eqb_float_code _ _ Ho Hc).
  unfold lex3_lt.
  destruct (float_code (BusinessRuleOption.weight c)) as [[a1 a2] a3].
  destruct (float_code (BusinessRuleOption.weight o)) as [[b1 b2] b3].
  rewrite !triple_eq. lia.
Qed.

(** An option that loses against another is not tied with it. *)
Lemma key_lt_not_tied (o c : BusinessRuleOption.t) :
  key_lt (sort_key o) (sort_key c) = true -> ~ tied o c.
Proof.
  unfold sort_key, tied. rewrite key_lt_lex.
  unfold Float.ltb, Float.eqb, SFltb, SFeqb.
  destruct (SFcompare _ _) as [[]|]; intros H (H1 & H2 & H3);
    try discriminate; destruct H as [H|[_ [H|[_ H]]]]; try discriminate; lia.
Qed.

Lemma chosen_option_first_best ids options :
  Forall weight_is_number (List.filter (option_satisfied ids) options) ->
  chosen_option ids options =
  first_best key_lt sort_key (List.filter (option_satisfied ids) options).
Proof.
  intros Hok. unfold chosen_option, sorted_satisfied.
  now apply (head_sort_reverse key_lt sort_key weight_is_number
               key_lt_asym key_lt_le_trans).
Qed.

Lemma group_entry_in_log atomic_log br_options g options :
  In (g, options) (group_options br_options) ->
  In (group_entry (matched_atomic_ids atomic_log) g options)
     (snd (evaluate_business_rules atomic_log br_options)).
Proof.
  intros Hin. rewrite evaluate_business_rules_log. apply in_map_iff.
  now exists (g, options).
Qed.

(** C1, as the code has it.  In [evaluate_business_rules], every group with
    a satisfied option (none of them with a NaN weight) has a winner, which
    is a satisfied option of the group that ranks at least as high as every
    other one in the order: higher likert value first, then higher weight,
    then LOWER priority number (a missing priority counting as 0).  The
    group is the options of the input with its id, and the winner is what
    the entry of the group has in [chosen]. *)
Theorem winner_has_best_likert_weight_and_lowest_priority
    atomic_log br_options g options :
  In (g, options) (group_options br_options) ->
  Forall weight_is_number
    (List.filter (option_satisfied (matched_atomic_ids atomic_log)) options) ->
  List.filter (option_satisfied (matched_atomic_ids atomic_log)) options <> [] ->
  options = List.filter (in_group g) br_options
  /\ exists c,
      chosen_option (matched_atomic_ids atomic_log) options = Some c
      /\ In c (List.filter (option_satisfied (matched_atomic_ids atomic_log)) options)
      /\ (forall o,
            In o (List.filter (option_satisfied (matched_atomic_ids atomic_log)) options) ->
            ranks_at_least c o)
      /\ exists entry,
          In entry (snd (evaluate_business_rules atomic_log br_options))
          /\ BusinessLogEntry.group_id entry = g
          /\ BusinessLogEntry.chosen entry = Some (chosen_info c).
Proof.
  set (ids := matched_atomic_ids atomic_log).
  intros Hin Hok Hne.
  split; [now apply (proj2 (proj2 (group_options_spec br_options)))|].
  destruct (first_best_nonempty key_lt sort_key _ Hne) as [c Hc].
  exists c. rewrite (chosen_option_first_best ids options Hok).
  split; [exact Hc|].
  assert (Hinc : In c (List.filter (option_satisfied ids) options))
    by (eapply first_best_In; eauto).
  split; [exact Hinc|]. split.
  - intros o Ho. pose proof Hok as Hok'. rewrite List.Forall_forall in Hok'.
    apply not_key_lt_ranks; auto.
    now apply (first_best_max key_lt sort_key weight_is_number
                 key_lt_asym key_lt_le_trans
                 (List.filter (option_satisfied ids) options) c).
  - exists (group_entry ids g options).
    split; [now apply group_entry_in_log|]. split; [reflexivity|].
    simpl. now rewrite (chosen_option_first_best ids options Hok), Hc.
Qed.

(** C10, as the code has it.  In [evaluate_business_rules], in a group
    whose satisfied options have no NaN weight, the winner that the entry of
    the group shows is the earliest of the satisfied options that are tied
    with it on likert value, weight and priority: no satisfied option
    before the winner, in the order of the input, is tied with it, and no
    satisfied option ranks higher.  A missing priority counts as 0: an
    earlier option without priority that has the likert value and the
    weight of the winner lost to a negative priority number. *)
Theorem full_tie_goes_to_the_earliest_option
    atomic_log br_options g options :
  In (g, options) (group_options br_options) ->
  Forall weight_is_number
    (List.filter (option_satisfied (matched_atomic_ids atomic_log)) options) ->
  List.filter (option_satisfied (matched_atomic_ids atomic_log)) options <> [] ->
  options = List.filter (in_group g) br_options
  /\ exists before c after entry,
      List.filter (option_satisfied (matched_atomic_ids atomic_log)) options
      = before ++ c :: after
      /\ In entry (snd (evaluate_business_rules atomic_log br_options))
      /\ BusinessLogEntry.group_id entry = g
      /\ BusinessLogEntry.chosen entry = Some (chosen_info c)
      /\ (forall o, In o before -> ~ tied o c)
      /\ (forall o, In o before \/ In o after -> ranks_at_least c o)
      /\ (forall o, In o before ->
            BusinessRuleOption.priority o = None ->
            BusinessRuleOption.likert_value o = BusinessRuleOption.likert_value c ->
            Float.eqb (BusinessRuleOption.weight o) (BusinessRuleOption.weight c) = true ->
            exists p, BusinessRuleOption.priority c = Some p /\ p < 0).
Proof.
  set (ids := matched_atomic_ids atomic_log).
  intros Hin Hok Hne.
  split; [now apply (proj2 (proj2 (group_options_spec br_options)))|].
  destruct (first_best_nonempty key_lt sort_key _ Hne) as [c Hc].
  destruct (first_best_earliest key_lt sort_key _ _ Hc)
    as (before & after & Hsplit & Hbefore).
  exists before, c, after, (group_entry ids g options).
  split; [exact Hsplit|].
  split; [now apply group_entry_in_log|]. split; [reflexivity|].
  split; [simpl; now rewrite (chosen_option_first_best ids options Hok), Hc|].
  assert (Hmax : forall o, In o (List.filter (option_satisfied ids) options) ->
                           ranks_at_least c o).
  { intros o Ho. pose proof Hok as Hok'. rewrite List.Forall_forall in Hok'.
    apply not_key_lt_ranks; auto.
    - apply Hok'. eapply first_best_In; eauto.
    - now apply (first_best_max key_lt sort_key weight_is_number
                   key_lt_asym key_lt_le_trans
                   (List.filter (option_satisfied ids) options) c). }
  assert (Hrank : forall o, In o before \/ In o after -> ranks_at_least c o).
  { intros o Ho. apply Hmax. rewrite Hsplit. apply in_or_app.
    destruct Ho as [Ho|Ho]; [now left | right; now right]. }
  assert (Htied : forall o, In o before -> ~ tied o c).
  { intros o Ho. now apply key_lt_not_tied, Hbefore. }
  split; [exact Htied|]. split; [exact Hrank|].
  intros o Ho Hp Hl Hw.
  specialize (Htied o Ho). specialize (Hrank o (or_introl Ho)).
  unfold tied in Htied. unfold ranks_at_least in Hrank.
  assert (Hlt : Float.ltb (BusinessRuleOption.weight o)
                  (BusinessRuleOption.weight c) = false).
  { revert Hw. unfold Float.eqb, Float.ltb, SFeqb, SFltb.
    now destruct (SFcompare _ _) as [[]|]. }
  rewrite Hlt in Hrank.
  assert (Hpo : priority_or_0 o = 0) by (unfold priority_or_0; now rewrite Hp).
  assert (Hpc : priority_or_0 c < 0).
  { destruct Hrank as [H|[_ [H|[_ H]]]]; [lia | discriminate |].
    destruct (Z.eq_dec (priority_or_0 o) (priority_or_0 c)) as [E|E]; [|lia].
    exfalso. apply Htied. auto. }
  unfold priority_or_0 in Hpc.
  destruct (BusinessRuleOption.priority c) as [p|]; [eauto | lia].
Qed.

Lemma winner_has_best_likert_weight_and_lowest_priority_witness :
  [Examples.option_B; Examples.option_A; Examples.option_C; Examples.option_F]
  = List.filter (in_group "g1") Examples.br_options
  /\ exists c,
      chosen_option (matched_atomic_ids Examples.atomic_log)
        [Examples.option_B; Examples.option_A; Examples.option_C; Examples.option_F]
      = Some c
      /\ In c (List.filter (option_satisfied (matched_atomic_ids Examples.atomic_log))
                 [Examples.option_B; Examples.option_A; Examples.option_C;
                  Examples.option_F])
      /\ (forall o,
            In o (List.filter (option_satisfied (matched_atomic_ids Examples.atomic_log))
                    [Examples.option_B; Examples.option_A; Examples.option_C;
                     Examples.option_F]) ->
            ranks_at_least c o)
      /\ exists entry,
          In entry (snd (evaluate_business_rules Examples.atomic_log Examples.br_options))
          /\ BusinessLogEntry.group_id entry = "g1"
          /\ BusinessLogEntry.chosen entry = Some (chosen_info c).
Proof.
  apply (winner_has_best_likert_weight_and_lowest_priority
           Examples.atomic_log Examples.br_options "g1"
           [Examples.option_B; Examples.option_A; Examples.option_C;
            Examples.option_F]).
  - vm_compute. left. reflexivity.
  - vm_compute. repeat constructor.
  - vm_compute. discriminate.
Defined.

Lemma full_tie_goes_to_the_earliest_option_witness :
  [Examples.option_B; Examples.option_A; Examples.option_C; Examples.option_F]
  = List.filter (in_group "g1") Examples.br_options
  /\ exists before c after entry,
      List.filter (option_satisfied (matched_atomic_ids Examples.atomic_log))
        [Examples.option_B; Examples.option_A; Examples.option_C; Examples.option_F]
      = before ++ c :: after
      /\ In entry (snd (evaluate_business_rules Examples.atomic_log Examples.br_options))
      /\ BusinessLogEntry.group_id entry = "g1"
      /\ BusinessLogEntry.chosen entry = Some (chosen_info c)
      /\ (forall o, In o before -> ~ tied o c)
      /\ (forall o, In o before \/ In o after -> ranks_at_least c o)
      /\ (forall o, In o before ->
            BusinessRuleOption.priority o = None ->
            BusinessRuleOption.likert_value o = BusinessRuleOption.likert_value c ->
            Float.eqb (BusinessRuleOption.weight o) (BusinessRuleOption.weight c) = true ->
            exists p, BusinessRuleOption.priority c = Some p /\ p < 0).
Proof.
  apply (full_tie_goes_to_the_earliest_option
           Examples.atomic_log Examples.br_options "g1"
           [Examples.option_B; Examples.option_A; Examples.option_C;
            Examples.option_F]).
  - vm_compute. left. reflexivity.
  - vm_compute. repeat constructor.
  - vm_compute. discriminate.
Defined.

(** C10, as the specification words it, fails with a NaN weight: the seven
    options of [SortExamples.options] are satisfied, [option_A] and
    [option_B] are tied on likert value, weight and priority, [option_A]
    comes first, and the winner is [option_B]. *)
Lemma nan_weight_gives_the_tie_to_a_later_option :
  forallb (option_satisfied (matched_atomic_ids [])) SortExamples.options = true
  /\ tied SortExamples.option_A SortExamples.option_B
  /\ head SortExamples.options = Some SortExamples.option_A
  /\ map BusinessLogEntry.chosen
       (snd (evaluate_business_rules [] SortExamples.options))
     = [Some (chosen_info SortExamples.option_B)]
  /\ chosen_info SortExamples.option_B <> chosen_info SortExamples.option_A.
Proof.
  split; [vm_compute; reflexivity|].
  split; [repeat split; vm_compute; reflexivity|].
  split; [reflexivity|].
  split; [vm_compute; reflexivity|].
  vm_compute. discriminate.
Qed.

(** C1, as the specification words it, fails: [option_A] and [option_B]
    are both satisfied and tied on likert value and weight, [option_B] has
    the higher priority (2 against 1), and the winner is [option_A],
    whichever comes first. *)
Lemma tie_on_weight_goes_to_the_lower_priority :
  option_satisfied (matched_atomic_ids Examples.atomic_log) Examples.option_A = true
  /\ option_satisfied (matched_atomic_ids Examples.atomic_log) Examples.option_B = true
  /\ BusinessRuleOption.likert_value Examples.option_A
  = BusinessRuleOption.likert_value Examples.option_B
  /\ Float.eqb (BusinessRuleOption.weight Examples.option_A)
               (BusinessRuleOption.weight Examples.option_B) = true
  /\ BusinessRuleOption.priority Examples.option_A = Some 1
  /\ BusinessRuleOption.priority Examples.option_B = Some 2
  /\ map BusinessLogEntry.chosen
       (snd (evaluate_business_rules Examples.atomic_log
               [Examples.option_A; Examples.option_B]))
     = [Some (chosen_info Examples.option_A)]
  /\ map BusinessLogEntry.chosen
       (snd (evaluate_business_rules Examples.atomic_log
               [Examples.option_B; Examples.option_A]))
     = [Some (chosen_info Examples.option_A)]
  /\ chosen_info Examples.option_A <> chosen_info Examples.option_B.
Proof. repeat split; try (vm_compute; reflexivity). vm_compute. discriminate. Qed.

(** The scenarios of the specification: a likert tie goes to the higher
    weight; an option whose [ALL_OF] is only partly matched is not
    satisfied, and its group has no winner and adds nothing. *)
Example business_scenarios :
  map BusinessLogEntry.chosen
    (snd (evaluate_business_rules Examples.atomic_log
            [Examples.business_option "g" "A" 3 (Examples.fl 5) None [] [];
             Examples.business_option "g" "B" 3 (Examples.fl 8) None [] []]))
  = [Some (chosen_info (Examples.business_option "g" "B" 3 (Examples.fl 8) None [] []))]
  /\ evaluate_business_rules Examples.atomic_log [Examples.option_F]
     = (Float.zero, [BusinessLogEntry.mk "g1" "g1" "cat" None []])
  /\ fst (evaluate_business_rules Examples.atomic_log
            [Examples.business_option "g1" "one" 1 (Examples.fl 1) None [] [];
             Examples.business_option "g1" "five" 5 (Examples.fl 10) None [] ["r1"]])
     = Examples.fl 10.
Proof. repeat split; vm_compute; reflexivity. Qed.

(** A missing priority is priority 0: an option without priority ties
    with one of priority 0, and wins against one of priority 1 from
    behind. *)
Example missing_priority_is_zero :
  tied Examples.option_D
       (Examples.business_option "g1" "Z" 3 (Examples.fl 5) (Some 0) [] [])
  /\ chosen_option (matched_atomic_ids Examples.atomic_log)
       [Examples.business_option "g1" "Z" 3 (Examples.fl 5) (Some 0) [] [];
        Examples.option_D]
     = Some (Examples.business_option "g1" "Z" 3 (Examples.fl 5) (Some 0) [] [])
  /\ chosen_option (matched_atomic_ids Examples.atomic_log)
       [Examples.option_A; Examples.option_D]
     = Some Examples.option_D.
Proof. repeat split; vm_compute; reflexivity. Qed.

(* ===================================================================== *)
(** * The total score and the order of the rules *)
(* ===================================================================== *)

(** ** The rounding of an addition *)

Lemma iter_pos_shr_1 (p : positive) (m j : Z) (mrs : shr_record) :
  0 <= j -> shifted m j mrs -> shifted m (j + Zpos p) (SpecFloat.iter_pos shr_1 p mrs).
Proof.
  assert (Hstep : forall j mrs, 0 <= j -> shifted m j mrs ->
                                shifted m (j + 1) (shr_1 mrs)).
  { clear. intros j [q r s] Hj (rem & Hm & Hrem & Hq & Hloc).
    unfold shifted. cbn [shr_m] in *.
    assert (Hp : 0 < 2 ^ j) by (apply Z.pow_pos_nonneg; lia).
    assert (E : 2 ^ (j + 1) = 2 * 2 ^ j) by (rewrite Z.pow_add_r, Z.pow_1_r; lia).
    rewrite E. clear E. revert Hm Hrem Hp. generalize (2 ^ j). intros P Hm Hrem Hp.
    destruct q as [|[q|q|]|q]; try lia;
      destruct r, s; cbn in Hloc |- *;
      first [ exists rem; cbn; repeat split; lia
            | exists (rem + P); cbn; repeat split; lia ]. }
  revert m j mrs Hstep.
  induction p as [p IH|p IH|]; intros m j mrs Hstep Hj H; cbn [SpecFloat.iter_pos].
  - replace (j + Zpos p~1) with (j + 1 + Zpos p + Zpos p) by lia.
    apply IH; [assumption | lia |]. apply IH; [assumption | lia |].
    now apply Hstep.
  - replace (j + Zpos p~0) with (j + Zpos p + Zpos p) by lia.
    apply IH; [assumption | lia |]. now apply IH.
  - now apply Hstep.
Qed.

(** Rounding to nearest after the shifts is within half of [2 ^ j]. *)
Lemma round_nearest_even_shifted (m j : Z) (mrs : shr_record) :
  0 <= j -> shifted m j mrs ->
  let m' := round_nearest_even (shr_m mrs) (loc_of_shr_record mrs) in
  2 * Z.abs (m' * 2 ^ j - m) <= 2 ^ j
  /\ shr_m mrs <= m' <= shr_m mrs + 1.
Proof.
  intros Hj (rem & Hm & Hrem & Hq & Hloc). cbv zeta.
  assert (Hp : 0 < 2 ^ j) by (apply Z.pow_pos_nonneg; lia).
  destruct (loc_of_shr_record mrs) as [|[]]; cbn [round_nearest_even];
    try destruct (Z.even (shr_m mrs)); split; try lia; nia.
Qed.

Lemma Zdigits2_53 (m : Z) : 2 ^ 52 <= m < 2 ^ 53 -> Zdigits2 m = 53.
Proof.
  intros H. destruct m as [|p|p]; try lia. cbn [Zdigits2].
  pose proof (digits2_pos_bounds p) as [Hlo Hhi].
  set (d := Zpos (digits2_pos p)) in *.
  assert (Hd : 0 < d) by (unfold d; lia).
  destruct (Z.lt_trichotomy d 53) as [Hlt|[Heq|Hgt]]; [|exact Heq|].
  - assert (2 ^ d <= 2 ^ 52) by (apply Z.pow_le_mono_r; lia). lia.
  - assert (2 ^ 53 <= 2 ^ (d - 1)) by (apply Z.pow_le_mono_r; lia). lia.
Qed.

Lemma shr_fexp_noop (m e : Z) :
  fexp Float.prec Float.emax (Zdigits2 m + e) <= e ->
  shr_fexp Float.prec Float.emax m e loc_Exact
  = ({| shr_m := m; shr_r := false; shr_s := false |}, e).
Proof.
  intros H. unfold shr_fexp, shr. cbn [shr_record_of_loc].
  destruct (fexp Float.prec Float.emax (Zdigits2 m + e) - e) eqn:E;
    try reflexivity. lia.
Qed.

Lemma binary_round_aux_spec (sx : bool) (m : positive) (e : Z) :
  -1074 <= e ->
  Float.is_finite (binary_round_aux Float.prec Float.emax sx (Zpos m) e loc_Exact) = true ->
  exists m' e',
    binary_round_aux Float.prec Float.emax sx (Zpos m) e loc_Exact
    = S754_finite sx m' e'
    /\ -1074 <= e'
    /\ 2 ^ 53 * Z.abs (Zpos m' * 2 ^ (e' + 1074) - Zpos m * 2 ^ (e + 1074))
       <= Zpos m * 2 ^ (e + 1074).
Proof.
  intros He.
  remember (binary_round_aux Float.prec Float.emax sx (Zpos m) e loc_Exact) as z eqn:Hz.
  unfold binary_round_aux in Hz.
  pose proof (digits2_pos_bounds m) as [Hlo Hhi].
  assert (Hpe : 0 < 2 ^ (e + 1074)) by (apply Z.pow_pos_nonneg; lia).
  destruct (Z.le_gt_cases (Zpos (digits2_pos m)) 53) as [Hd|Hd].
  - (* no shift *)
    assert (Hf : fexp Float.prec Float.emax (Zdigits2 (Zpos m) + e) <= e).
    { unfold fexp, emin, Float.prec, Float.emax. cbn [Zdigits2]. lia. }
    rewrite (shr_fexp_noop _ _ Hf) in Hz.
    cbn [shr_m loc_of_shr_record round_nearest_even] in Hz.
    rewrite (shr_fexp_noop _ _ Hf) in Hz. cbn [shr_m] in Hz.
    destruct (e <=? Float.emax - Float.prec); subst z; [|discriminate]. intros _.
    exists m, e. split; [reflexivity|]. split; [lia|].
    rewrite Z.sub_diag. simpl Z.abs. lia.
  - (* a shift by the digits above 53 *)
    set (k := Zpos (digits2_pos m) - 53) in *.
    assert (Hk : 0 < k) by (unfold k; lia).
    assert (Hf : fexp Float.prec Float.emax (Zdigits2 (Zpos m) + e) - e = k).
    { unfold fexp, emin, Float.prec, Float.emax, k. cbn [Zdigits2]. lia. }
    unfold shr_fexp at 1 in Hz. rewrite Hf in Hz. unfold shr at 1 in Hz.
    cbn [shr_record_of_loc] in Hz.
    destruct k as [|p|p] eqn:Ek; try lia.
    assert (Hsh : shifted (Zpos m) (0 + Zpos p)
                    (SpecFloat.iter_pos shr_1 p
                       {| shr_m := Zpos m; shr_r := false; shr_s := false |})).
    { apply iter_pos_shr_1; [lia|]. exists 0. cbn. lia. }
    rewrite Z.add_0_l in Hsh.
    destruct (round_nearest_even_shifted _ _ _ (Pos2Z.is_nonneg p) Hsh) as [Hround Hm1].
    cbv zeta in Hround, Hm1.
    destruct Hsh as (rem & Hm & Hrem & Hq & _).
    set (mrs := SpecFloat.iter_pos shr_1 p _) in *.
    set (m1 := round_nearest_even (shr_m mrs) (loc_of_shr_record mrs)) in *.
    assert (Hpk : 0 < 2 ^ Zpos p) by (apply Z.pow_pos_nonneg; lia).
    assert (Hd1 : Zpos (digits2_pos m) - 1 = 52 + Zpos p) by lia.
    assert (Hd2 : Zpos (digits2_pos m) = 53 + Zpos p) by lia.
    rewrite Hd1 in Hlo. rewrite Hd2 in Hhi.
    rewrite Z.pow_add_r in Hlo, Hhi by lia.
    assert (Hq1 : 2 ^ 52 <= shr_m mrs < 2 ^ 53) by nia.
    assert (Hm1' : 2 ^ 52 <= m1 <= 2 ^ 53) by lia.
    assert (Hbound : 2 ^ 53 * Z.abs (m1 * 2 ^ Zpos p - Zpos m) <= Zpos m).
    { change (2 ^ 53) with (2 * 2 ^ 52). nia. }
    destruct (Z.eq_dec m1 (2 ^ 53)) as [E|E].
    + (* the rounding carried into a 54th bit *)
      rewrite E in Hz.
      change (shr_fexp Float.prec Float.emax (2 ^ 53) (e + Zpos p) loc_Exact)
        with (shr {| shr_m := 2 ^ 53; shr_r := false; shr_s := false |} (e + Zpos p)
                (fexp Float.prec Float.emax (54 + (e + Zpos p)) - (e + Zpos p)))
        in Hz.
      assert (Hf2 : fexp Float.prec Float.emax (54 + (e + Zpos p)) - (e + Zpos p) = 1).
      { unfold fexp, emin, Float.prec, Float.emax. lia. }
      rewrite Hf2 in Hz. cbn [shr SpecFloat.iter_pos] in Hz.
      change (shr_m (shr_1 {| shr_m := 2 ^ 53; shr_r := false; shr_s := false |}))
        with (Zpos (2 ^ 52)%positive) in Hz.
      cbv iota beta in Hz.
      destruct (e + Zpos p + 1 <=? Float.emax - Float.prec); subst z; [|discriminate].
      intros _.
      exists (2 ^ 52)%positive, (e + Zpos p + 1). split; [reflexivity|].
      split; [lia|].
      replace (e + Zpos p + 1 + 1074) with (e + 1074 + Zpos p + 1) by lia.
      rewrite !Z.pow_add_r, Z.pow_1_r by lia.
      rewrite E in Hbound.
      change (Zpos (2 ^ 52)%positive) with (2 ^ 52).
      change (2 ^ 53) with (2 ^ 52 * 2) in Hbound |- *. nia.
    + assert (Hd53 : Zdigits2 m1 = 53) by (apply Zdigits2_53; lia).
      assert (Hf2 : fexp Float.prec Float.emax (Zdigits2 m1 + (e + Zpos p))
                    <= e + Zpos p).
      { rewrite Hd53. unfold fexp, emin, Float.prec, Float.emax. lia. }
      rewrite (shr_fexp_noop _ _ Hf2) in Hz. cbn [shr_m] in Hz.
      destruct m1 as [|m1p|m1p] eqn:Em1; try lia.
      destruct (e + Zpos p <=? Float.emax - Float.prec); subst z; [|discriminate].
      intros _. exists m1p, (e + Zpos p). split; [reflexivity|].
      split; [lia|].
      replace (e + Zpos p + 1074) with (e + 1074 + Zpos p) by lia.
      rewrite Z.pow_add_r by lia. nia.
Qed.

Lemma pos_iter_xO (m d : positive) : Zpos (Pos.iter xO m d) = Zpos m * 2 ^ Zpos d.
Proof.
  induction d as [|d IH] using Pos.peano_ind.
  - simpl. lia.
  - rewrite Pos.iter_succ, Pos2Z.inj_succ, Z.pow_succ_r by lia.
    change (Zpos (Pos.iter xO m d)~0) with (2 * Zpos (Pos.iter xO m d)). lia.
Qed.

Lemma shl_align_value (mx : positive) (ex ex' : Z) :
  -1074 <= ex -> -1074 <= ex' ->
  -1074 <= snd (shl_align mx ex ex')
  /\ Zpos (fst (shl_align mx ex ex')) * 2 ^ (snd (shl_align mx ex ex') + 1074)
     = Zpos mx * 2 ^ (ex + 1074).
Proof.
  intros He He'. unfold shl_align.
  destruct (ex' - ex) as [|d|d] eqn:E; cbn [fst snd]; try (split; [lia | reflexivity]).
  split; [lia|]. rewrite pos_iter_xO.
  replace (ex + 1074) with (Zpos d + (ex' + 1074)) by lia.
  rewrite (Z.pow_add_r 2 (Zpos d) (ex' + 1074)) by lia. ring.
Qed.

Lemma shl_align_fst (mx : positive) (ex ez : Z) :
  ez <= ex -> Zpos (fst (shl_align mx ex ez)) = Zpos mx * 2 ^ (ex - ez).
Proof.
  intros He. unfold shl_align.
  destruct (ez - ex) as [|d|d] eqn:E; cbn [fst]; try lia.
  - replace (ex - ez) with 0 by lia. lia.
  - rewrite pos_iter_xO. now replace (ex - ez) with (Zpos d) by lia.
Qed.

Lemma binary_round_spec (sx : bool) (m : positive) (e : Z) :
  -1074 <= e ->
  Float.is_finite (binary_round Float.prec Float.emax sx m e) = true ->
  exists m' e',
    binary_round Float.prec Float.emax sx m e = S754_finite sx m' e'
    /\ -1074 <= e'
    /\ 2 ^ 53 * Z.abs (Zpos m' * 2 ^ (e' + 1074) - Zpos m * 2 ^ (e + 1074))
       <= Zpos m * 2 ^ (e + 1074).
Proof.
  intros He. unfold binary_round.
  assert (Hf : -1074 <= fexp Float.prec Float.emax (Zpos (digits2_pos m) + e))
    by (unfold fexp, emin, Float.prec, Float.emax; lia).
  destruct (shl_align_value m e _ He Hf) as [He' Hv].
  destruct (shl_align m e (fexp Float.prec Float.emax (Zpos (digits2_pos m) + e)))
    as [mz ez]. cbn [fst snd] in He', Hv.
  rewrite <- Hv. now apply binary_round_aux_spec.
Qed.

Lemma add_finite (x y : float) :
  Float.is_finite (Float.add x y) = true ->
  Float.is_finite x = true /\ Float.is_finite y = true.
Proof.
  destruct x as [sx|sx| |sx mx ex], y as [sy|sy| |sy my ey];
    try (intros _; split; reflexivity);
    try (destruct sx; discriminate); try (destruct sx, sy; discriminate);
    try discriminate.
Qed.

(** The sum of two scalable floats, when it is finite, is scalable and
    within the relative error [2 ^ -53] of the exact sum. *)
Lemma add_rounding (x y : float) :
  scalable x -> scalable y -> Float.is_finite (Float.add x y) = true ->
  exists ux uy u,
    scaled x = Some ux /\ scaled y = Some uy
    /\ scaled (Float.add x y) = Some u
    /\ scalable (Float.add x y)
    /\ 2 ^ 53 * Z.abs (u - (ux + uy)) <= Z.abs (ux + uy).
Proof.
  unfold scale_exp.
  destruct x as [sx|sx| |sx mx ex], y as [sy|sy| |sy my ey];
    try (intros []; fail); try (intros _ []; fail).
  - intros _ _ _. exists 0, 0, 0.
    destruct sx, sy; cbn; repeat split; lia.
  - intros _ Hy _. eexists 0, _, _. cbn [Float.add SFadd scaled scalable].
    repeat split; try reflexivity; [exact Hy|].
    rewrite Z.add_0_l, Z.sub_diag. cbn. lia.
  - intros Hx _ _. eexists _, 0, _. cbn [Float.add SFadd scaled scalable].
    repeat split; try reflexivity; [exact Hx|].
    rewrite Z.add_0_r, Z.sub_diag. cbn. lia.
  - cbn [scalable scaled]. unfold scale_exp. intros Hx Hy.
    unfold Float.add, SFadd. cbv zeta.
    set (ez := Z.min ex ey).
    rewrite (shl_align_fst mx ex ez), (shl_align_fst my ey ez) by (unfold ez; lia).
    set (vx := if sx then Zneg mx else Zpos mx).
    set (vy := if sy then Zneg my else Zpos my).
    assert (Hvx : cond_Zopp sx (Zpos mx * 2 ^ (ex - ez)) = vx * 2 ^ (ex - ez))
      by (unfold vx; destruct sx; cbn [cond_Zopp]; lia).
    assert (Hvy : cond_Zopp sy (Zpos my * 2 ^ (ey - ez)) = vy * 2 ^ (ey - ez))
      by (unfold vy; destruct sy; cbn [cond_Zopp]; lia).
    rewrite Hvx, Hvy.
    assert (Hez : -1074 <= ez) by (unfold ez; lia).
    assert (Hsum : vx * 2 ^ (ex - -1074) + vy * 2 ^ (ey - -1074)
                   = (vx * 2 ^ (ex - ez) + vy * 2 ^ (ey - ez)) * 2 ^ (ez + 1074)).
    { replace (ex - -1074) with ((ex - ez) + (ez + 1074)) by lia.
      replace (ey - -1074) with ((ey - ez) + (ez + 1074)) by lia.
      rewrite (Z.pow_add_r 2 (ex - ez)), (Z.pow_add_r 2 (ey - ez))
        by (unfold ez; lia).
      ring. }
    intros Hfin. exists (vx * 2 ^ (ex - -1074)), (vy * 2 ^ (ey - -1074)).
    rewrite Hsum. clear Hsum Hvx Hvy. revert Hfin.
    generalize (vx * 2 ^ (ex - ez) + vy * 2 ^ (ey - ez)). intros msum.
    assert (Hp : 0 < 2 ^ (ez + 1074)) by (apply Z.pow_pos_nonneg; lia).
    destruct msum as [|p|p]; cbn [binary_normalize].
    + intros _. exists 0. cbn. repeat split; lia.
    + intros Hfin.
      destruct (binary_round_spec false p ez Hez Hfin) as (m' & e' & -> & He' & Hb).
      exists (Zpos m' * 2 ^ (e' - -1074)). cbn [scaled scalable]. unfold scale_exp.
      repeat split; [exact He'|].
      replace (e' - -1074) with (e' + 1074) by lia.
      rewrite (Z.abs_eq (Zpos p * _)) by lia. exact Hb.
    + intros Hfin.
      destruct (binary_round_spec true p ez Hez Hfin) as (m' & e' & -> & He' & Hb).
      exists (Zneg m' * 2 ^ (e' - -1074)). cbn [scaled scalable]. unfold scale_exp.
      repeat split; [exact He'|].
      replace (e' - -1074) with (e' + 1074) by lia.
      change (Zneg m') with (- Zpos m'). change (Zneg p) with (- Zpos p).
      replace (- Zpos m' * 2 ^ (e' + 1074) - - Zpos p * 2 ^ (ez + 1074))
        with (- (Zpos m' * 2 ^ (e' + 1074) - Zpos p * 2 ^ (ez + 1074))) by ring.
      replace (- Zpos p * 2 ^ (ez + 1074)) with (- (Zpos p * 2 ^ (ez + 1074))) by ring.
      rewrite !Z.abs_opp, (Z.abs_eq (Zpos p * _)) by lia. exact Hb.
Qed.

Lemma exact_sum_app (ws : list float) (w : float) :
  exact_sum (ws ++ [w])
  = match exact_sum ws, scaled w with
    | Some a, Some b => Some (a + b)
    | _, _ => None
    end.
Proof.
  induction ws as [|x ws IH]; simpl.
  - destruct (scaled w); [f_equal; lia | reflexivity].
  - rewrite IH. destruct (scaled x), (exact_sum ws), (scaled w); try reflexivity.
    f_equal. lia.
Qed.

Lemma abs_sum_app (ws : list float) (w : float) :
  abs_sum (ws ++ [w]) = abs_sum ws + Z.abs (default 0 (scaled w)).
Proof. induction ws as [|x ws IH]; simpl; [lia | rewrite IH; lia]. Qed.

Lemma abs_sum_nonneg (ws : list float) : 0 <= abs_sum ws.
Proof. induction ws as [|x ws IH]; simpl; lia. Qed.

Lemma exact_sum_abs (ws : list float) (S : Z) :
  exact_sum ws = Some S -> Z.abs S <= abs_sum ws.
Proof.
  revert S. induction ws as [|x ws IH]; intros S; simpl.
  - intros [= <-]. lia.
  - destruct (scaled x) as [a|]; [|discriminate].
    destruct (exact_sum ws) as [b|]; [|discriminate].
    intros [= <-]. specialize (IH b eq_refl). simpl. lia.
Qed.

Lemma abs_sum_Permutation (ws ws' : list float) :
  Permutation ws ws' -> abs_sum ws = abs_sum ws'.
Proof. induction 1; simpl; lia. Qed.

(** One more addition in the bound on the error of a sum. *)
Lemma tolerance_step (U P Q A a S u u' : Z) :
  0 < U -> 0 < P -> P <= Q -> 0 <= A ->
  Z.abs S <= A ->
  P * Z.abs (u - S) <= (Q - P) * A ->
  U * Z.abs (u' - (u + a)) <= Z.abs (u + a) ->
  U * P * Z.abs (u' - (S + a)) <= ((U + 1) * Q - U * P) * (A + Z.abs a).
Proof.
  intros HU HP HPQ HA HS IH Hstep.
  set (E0 := Z.abs (u - S)) in *. set (d0 := Z.abs (u' - (u + a))) in *.
  assert (H1 : Z.abs (u' - (S + a)) <= d0 + E0) by (unfold d0, E0; lia).
  assert (H2 : Z.abs (u + a) <= A + Z.abs a + E0) by (unfold E0; lia).
  assert (HE : 0 <= E0) by (unfold E0; lia).
  assert (Hd : 0 <= d0) by (unfold d0; lia).
  clearbody E0 d0.
  assert (HUP : 0 <= U * P) by (apply Z.mul_nonneg_nonneg; lia).
  assert (H6 : U * P * Z.abs (u' - (S + a)) <= U * P * (d0 + E0))
    by (apply Z.mul_le_mono_nonneg_l; assumption).
  assert (H3 : P * (U * d0) <= P * (A + Z.abs a + E0))
    by (apply Z.mul_le_mono_nonneg_l; lia).
  assert (H4 : (U + 1) * (P * E0) <= (U + 1) * ((Q - P) * A))
    by (apply Z.mul_le_mono_nonneg_l; lia).
  assert (H5 : (Q - P) * A <= (Q - P) * (A + Z.abs a))
    by (apply Z.mul_le_mono_nonneg_l; lia).
  assert (H7 : (U + 1) * ((Q - P) * A) <= (U + 1) * ((Q - P) * (A + Z.abs a)))
    by (apply Z.mul_le_mono_nonneg_l; lia).
  replace (U * P * (d0 + E0)) with (P * (U * d0) + U * (P * E0)) in H6 by ring.
  replace (((U + 1) * Q - U * P) * (A + Z.abs a))
    with (P * (A + Z.abs a) + (U + 1) * ((Q - P) * (A + Z.abs a))) by ring.
  replace ((U + 1) * (P * E0)) with (P * E0 + U * (P * E0)) in H4 by ring.
  replace (P * (A + Z.abs a + E0)) with (P * (A + Z.abs a) + P * E0) in H3 by ring.
  lia.
Qed.

(** The floating-point sum of scalable floats from 0.0, when it is finite,
    differs from the exact sum by at most [(1 + 2 ^ -53) ^ n - 1] times the
    sum of the absolute values. *)
Lemma sum_rounding (ws : list float) :
  Forall scalable ws ->
  Float.is_finite (fold_left Float.add ws Float.zero) = true ->
  exists u S,
    scaled (fold_left Float.add ws Float.zero) = Some u
    /\ scalable (fold_left Float.add ws Float.zero)
    /\ exact_sum ws = Some S
    /\ (2 ^ 53) ^ Z.of_nat (length ws) * Z.abs (u - S)
       <= ((2 ^ 53 + 1) ^ Z.of_nat (length ws) - (2 ^ 53) ^ Z.of_nat (length ws))
          * abs_sum ws.
Proof.
  induction ws as [|w ws IH] using rev_ind; intros Hok Hfin.
  - exists 0, 0. cbn. repeat split; lia.
  - apply Forall_app in Hok as [Hws Hw]. inversion Hw as [|? ? Hw' _]; subst.
    rewrite fold_left_app in Hfin |- *. cbn [fold_left] in Hfin |- *.
    destruct (add_finite _ _ Hfin) as [Hfs _].
    destruct (IH Hws Hfs) as (u & S & Hu & Hsc & HS & Hb).
    destruct (add_rounding _ _ Hsc Hw' Hfin) as (ux & a & u' & Hux & Ha & Hu' & Hsc' & Hstep).
    rewrite Hu in Hux. injection Hux as <-.
    exists u', (S + a). rewrite exact_sum_app, HS, Ha, abs_sum_app, Ha.
    cbn [default]. split; [exact Hu'|]. split; [exact Hsc'|]. split; [reflexivity|].
    rewrite length_app. cbn [length]. rewrite Nat.add_1_r, Nat2Z.inj_succ.
    rewrite !Z.pow_succ_r by lia.
    apply (tolerance_step _ _ _ _ a S u u');
      auto using abs_sum_nonneg, exact_sum_abs.
    + lia.
    + apply Z.pow_pos_nonneg; lia.
    + apply Z.pow_le_mono_l. lia.
Qed.

Lemma finite_weight_scalable (x : float) :
  Float.is_finite x = true -> Float.is_binary64 x = true -> scalable x.
Proof.
  destruct x as [s|s| |s m e]; try discriminate; intros _ H; cbn; [exact I|].
  apply is_binary64_finite in H. unfold scale_exp. lia.
Qed.

Lemma rule_outcome_weight p rule entry :
  rule_outcome p rule = Ok entry ->
  AtomicLogEntry.weight_applied entry = Rule.weight rule
  \/ AtomicLogEntry.weight_applied entry = Float.zero.
Proof.
  unfold rule_outcome. destruct (p _ _ _) as [v|e].
  - intros H. apply bind_ok in H as ([] & _ & H); injection H as <-; auto.
  - intros [= <-]. now right.
Qed.

Lemma applied_weights_scalable p rules log :
  Forall finite_weight rules ->
  mapM (rule_outcome p) rules = Ok log ->
  Forall scalable (applied_weights log).
Proof.
  intros Hok. revert log. induction Hok as [|rule rules [Hf Hb] Hok IH]; intros log H.
  - injection H as <-. constructor.
  - simpl in H. apply bind_ok in H as (entry & He & H).
    apply bind_ok in H as (log' & Hl & H). injection H as <-.
    unfold applied_weights. simpl.
    destruct (negb _); simpl; [|now apply IH].
    constructor; [|now apply IH].
    destruct (rule_outcome_weight _ _ _ He) as [-> | ->];
      [now apply finite_weight_scalable | exact I].
Qed.

Lemma mapM_Permutation {A B : Type} (f : A -> result B) (xs xs' : list A) :
  Permutation xs xs' ->
  forall ys, mapM f xs = Ok ys ->
  exists ys', mapM f xs' = Ok ys' /\ Permutation ys ys'.
Proof.
  induction 1 as [|x l l' Hp IH|x y l|l l' l'' Hp1 IH1 Hp2 IH2]; intros ys Hm.
  - exists ys. split; [exact Hm | reflexivity].
  - simpl in *. apply bind_ok in Hm as (z & Hz & Hm).
    apply bind_ok in Hm as (zs & Hzs & Hm). injection Hm as <-.
    destruct (IH zs Hzs) as (zs' & -> & Hperm). rewrite Hz. simpl.
    exists (z :: zs'). split; [reflexivity | now constructor].
  - simpl in *. apply bind_ok in Hm as (z1 & Hz1 & Hm).
    apply bind_ok in Hm as (zs1 & Hm' & Hm). injection Hm as <-.
    apply bind_ok in Hm' as (z2 & Hz2 & Hm').
    apply bind_ok in Hm' as (zs & Hzs & Hm'). injection Hm' as <-.
    rewrite Hz2, Hz1, Hzs. simpl.
    exists (z2 :: z1 :: zs). split; [reflexivity | apply perm_swap].
  - destruct (IH1 ys Hm) as (ys' & Hm' & Hperm1).
    destruct (IH2 ys' Hm') as (ys'' & Hm'' & Hperm2).
    exists ys''. split; [exact Hm'' | now transitivity ys'].
Qed.

Lemma applied_weights_Permutation log log' :
  Permutation log log' ->
  Permutation (applied_weights log) (applied_weights log').
Proof.
  unfold applied_weights.
  induction 1 as [|e l l' Hp IH|e1 e2 l|l l' l'' Hp1 IH1 Hp2 IH2]; simpl.
  - constructor.
  - destruct (negb _); simpl; [now constructor | exact IH].
  - destruct (negb _), (negb _); simpl; try reflexivity. apply perm_swap.
  - now transitivity
      (map AtomicLogEntry.weight_applied
         (List.filter
            (fun e => negb (bool_decide (is_Some (AtomicLogEntry.error e)))) l')).
Qed.

Lemma exact_sum_Permutation ws ws' :
  Permutation ws ws' -> exact_sum ws = exact_sum ws'.
Proof.
  induction 1 as [|w l l' Hp IH|w1 w2 l|l l' l'' Hp1 IH1 Hp2 IH2]; simpl.
  - reflexivity.
  - now rewrite IH.
  - destruct (scaled w1), (scaled w2), (exact_sum l); try reflexivity.
    f_equal. lia.
  - congruence.
Qed.

(** C6, as the code has it.  With a deterministic adapter and weights that
    are finite binary64 numbers, a permutation of the rules raises if and
    only if the original order does; otherwise it permutes the log, and
    when no addition overflows (both totals are finite) the two totals
    agree within the rounding of the additions: they differ by at most
    [2 * ((1 + 2 ^ -53) ^ n - 1)] times the sum of the absolute values of
    the applied weights, [n] being the number of additions. *)
Theorem permuted_rules_total_within_tolerance p rules rules' :
  Permutation rules rules' ->
  Forall finite_weight rules ->
  match evaluate_rules p rules, evaluate_rules p rules' with
  | Ok (score, log), Ok (score', log') =>
      Permutation log log'
      /\ (Float.is_finite score = true -> Float.is_finite score' = true ->
          within_tolerance (length (applied_weights log)) (applied_weights log)
            score score')
  | Raise _, Raise _ => True
  | _, _ => False
  end.
Proof.
  intros Hperm Hok. rewrite !evaluate_rules_outcomes.
  destruct (mapM (rule_outcome p) rules) as [log|e] eqn:H1.
  - destruct (mapM_Permutation _ _ _ Hperm log H1) as (log' & H2 & Hlog).
    rewrite H2. simpl. rewrite !fold_accumulate.
    split; [exact Hlog|]. intros Hfin Hfin'.
    assert (Hok' : Forall finite_weight rules').
    { rewrite List.Forall_forall in *. intros r Hr. apply Hok.
      eapply Permutation_in; [symmetry; exact Hperm | exact Hr]. }
    assert (Hw := applied_weights_Permutation _ _ Hlog).
    destruct (sum_rounding _ (applied_weights_scalable _ _ _ Hok H1) Hfin)
      as (u & S & Hu & _ & HS & Hb).
    destruct (sum_rounding _ (applied_weights_scalable _ _ _ Hok' H2) Hfin')
      as (u' & S' & Hu' & _ & HS' & Hb').
    rewrite <- (exact_sum_Permutation _ _ Hw), HS in HS'. injection HS' as <-.
    rewrite <- (abs_sum_Permutation _ _ Hw), <- (Permutation_length Hw) in Hb'.
    exists u, u'. split; [exact Hu|]. split; [exact Hu'|].
    set (P := (2 ^ 53) ^ Z.of_nat (length (applied_weights log))) in *.
    assert (HP : 0 <= P) by (apply Z.pow_nonneg; lia).
    assert (H : P * Z.abs (u - u') <= P * (Z.abs (u - S) + Z.abs (u' - S)))
      by (apply Z.mul_le_mono_nonneg_l; lia).
    rewrite Z.mul_add_distr_l in H. lia.
  - destruct (mapM (rule_outcome p) rules') as [log'|e'] eqn:H2; simpl; [|exact I].
    symmetry in Hperm.
    destruct (mapM_Permutation _ _ _ Hperm log' H2) as (log & Hlog & _).
    congruence.
Qed.

Lemma permuted_rules_total_within_tolerance_witness :
  match evaluate_rules Examples.adapter
          [Examples.big_1; Examples.small_2; Examples.big_3],
        evaluate_rules Examples.adapter
          [Examples.big_1; Examples.big_3; Examples.small_2] with
  | Ok (score, log), Ok (score', log') =>
      Permutation log log'
      /\ (Float.is_finite score = true -> Float.is_finite score' = true ->
          within_tolerance (length (applied_weights log)) (applied_weights log)
            score score')
  | Raise _, Raise _ => True
  | _, _ => False
  end.
Proof.
  apply (permuted_rules_total_within_tolerance Examples.adapter
           [Examples.big_1; Examples.small_2; Examples.big_3]
           [Examples.big_1; Examples.big_3; Examples.small_2]).
  - apply perm_skip, perm_swap.
  - repeat (apply List.Forall_cons; [split; vm_compute; reflexivity|]).
    apply List.Forall_nil.
Defined.

(** C6, as the specification words it, fails when an addition overflows:
    the weights [1e308], [1e308], [-1e308] (as [float] reads these cells)
    give an infinite total in this order and the total [1e308] when the
    second and third rule are exchanged, which no tolerance covers.  Without
    overflow the totals still depend on the order, within the tolerance:
    the weights [1e16], [1], [-1e16] give 0.0 in this order and 1.0 in the
    other. *)
Lemma total_depends_on_the_order_of_the_rules :
  Str.to_float "1e308" = Ok (Rule.weight Examples.huge_1)
  /\ Str.to_float "-1e308" = Ok (Rule.weight Examples.huge_3)
  /\ Permutation [Examples.huge_1; Examples.huge_2; Examples.huge_3]
                 [Examples.huge_1; Examples.huge_3; Examples.huge_2]
  /\ total_score Examples.adapter [Examples.huge_1; Examples.huge_2; Examples.huge_3]
     = Some (Float.inf false)
  /\ total_score Examples.adapter [Examples.huge_1; Examples.huge_3; Examples.huge_2]
     = Some (Float.of_decimal false 1 308)
  /\ total_score Examples.adapter [Examples.big_1; Examples.small_2; Examples.big_3]
     = Some Float.zero
  /\ total_score Examples.adapter [Examples.big_1; Examples.big_3; Examples.small_2]
     = Some Float.one.
Proof.
  repeat split; try (vm_compute; reflexivity). apply perm_skip, perm_swap.
Qed.

(* ===================================================================== *)
(** * Further properties of the atomic rule evaluator *)
(* ===================================================================== *)

Lemma mapM_map_eq {A B C : Type} (f : A -> result B) (g : B -> C) (h : A -> C)
    (xs : list A) (ys : list B) :
  (forall x y, f x = Ok y -> g y = h x) ->
  mapM f xs = Ok ys -> map g ys = map h xs.
Proof.
  intros Hgh. revert ys. induction xs as [|x xs IH]; intros ys H; simpl in H.
  - now injection H as <-.
  - apply bind_ok in H as (y & Hy & H). apply bind_ok in H as (ys' & Hys & H).
    injection H as <-. simpl. f_equal; auto.
Qed.

Lemma rule_outcome_identity p rule entry :
  rule_outcome p rule = Ok entry ->
  AtomicLogEntry.id entry = Rule.id rule
  /\ AtomicLogEntry.category entry = Rule.category rule
  /\ AtomicLogEntry.label entry = Rule.label rule
  /\ AtomicLogEntry.metric entry = Rule.metric rule.
Proof.
  unfold rule_outcome. destruct (p _ _ _) as [v|e].
  - intros H. apply bind_ok in H as (m & _ & H). injection H as <-. now simpl.
  - intros [= <-]. now simpl.
Qed.

(** X1.  When [evaluate_rules] returns, its log has one entry per rule, in
    the order of the rules, and each entry carries the id, category, label
    and metric of its rule. *)
Theorem log_follows_the_rules p rules score log :
  evaluate_rules p rules = Ok (score, log) ->
  length log = length rules
  /\ map AtomicLogEntry.id log = map Rule.id rules
  /\ map AtomicLogEntry.category log = map Rule.category rules
  /\ map AtomicLogEntry.label log = map Rule.label rules
  /\ map AtomicLogEntry.metric log = map Rule.metric rules.
Proof.
  rewrite evaluate_rules_outcomes. intros H.
  apply bind_ok in H as (entries & Hm & H). injection H as _ <-.
  split; [now apply mapM_length in Hm|].
  repeat split; eapply mapM_map_eq; eauto; intros x y Hxy;
    apply rule_outcome_identity in Hxy; tauto.
Qed.

Lemma log_follows_the_rules_witness :
  length [error_entry (Examples.rule "r9" "followers" "GT" None None (PInt 1) (Examples.fl 5))
            (Exn "ValueError" "Unsupported metric: followers")] = 1%nat
  /\ map AtomicLogEntry.id
       [error_entry (Examples.rule "r9" "followers" "GT" None None (PInt 1) (Examples.fl 5))
          (Exn "ValueError" "Unsupported metric: followers")] = ["r9"]
  /\ map AtomicLogEntry.category
       [error_entry (Examples.rule "r9" "followers" "GT" None None (PInt 1) (Examples.fl 5))
          (Exn "ValueError" "Unsupported metric: followers")] = ["cat"]
  /\ map AtomicLogEntry.label
       [error_entry (Examples.rule "r9" "followers" "GT" None None (PInt 1) (Examples.fl 5))
          (Exn "ValueError" "Unsupported metric: followers")] = ["r9"]
  /\ map AtomicLogEntry.metric
       [error_entry (Examples.rule "r9" "followers" "GT" None None (PInt 1) (Examples.fl 5))
          (Exn "ValueError" "Unsupported metric: followers")] = ["followers"].
Proof.
  apply (log_follows_the_rules Examples.adapter
           [Examples.rule "r9" "followers" "GT" None None (PInt 1) (Examples.fl 5)]
           Float.zero).
  reflexivity.
Defined.

(** X2.  When [evaluate_rules] returns, every rule's entry has either
    [matched] true and [weight_applied] equal to the rule's weight, or
    [matched] false and [weight_applied] 0.0: never a part of the weight. *)
Theorem weight_applied_is_all_or_nothing p rules score log (i : nat) rule :
  evaluate_rules p rules = Ok (score, log) ->
  rules !! i = Some rule ->
  exists entry,
    log !! i = Some entry
    /\ ((AtomicLogEntry.matched entry = true
         /\ AtomicLogEntry.weight_applied entry = Rule.weight rule
         /\ AtomicLogEntry.error entry = None)
        \/ (AtomicLogEntry.matched entry = false
            /\ AtomicLogEntry.weight_applied entry = Float.zero)).
Proof.
  intros Hev Hi.
  destruct (evaluate_rules_entry _ _ _ _ _ _ Hev Hi) as (entry & Hl & Ho).
  exists entry. split; [exact Hl|].
  unfold rule_outcome in Ho. destruct (p _ _ _) as [v|e].
  - apply bind_ok in Ho as ([] & _ & Ho); injection Ho as <-; simpl; auto.
  - injection Ho as <-. simpl. auto.
Qed.

Lemma weight_applied_is_all_or_nothing_witness :
  exists entry,
    [eval_entry (Examples.rule "r1" "stars" "GTE" None None (PInt 10) (Examples.fl 2))
       (PInt 15) true (Examples.fl 2)] !! 0%nat = Some entry
    /\ ((AtomicLogEntry.matched entry = true
         /\ AtomicLogEntry.weight_applied entry = Examples.fl 2
         /\ AtomicLogEntry.error entry = None)
        \/ (AtomicLogEntry.matched entry = false
            /\ AtomicLogEntry.weight_applied entry = Float.zero)).
Proof.
  apply (weight_applied_is_all_or_nothing Examples.adapter
           [Examples.rule "r1" "stars" "GTE" None None (PInt 10) (Examples.fl 2)]
           (Examples.fl 2) _ 0%nat
           (Examples.rule "r1" "stars" "GTE" None None (PInt 10) (Examples.fl 2)));
    reflexivity.
Defined.

Lemma eval_operator_unknown rule v :
  ~ In (Rule.operator rule) known_operators -> eval_operator rule v = Ok false.
Proof.
  intros Hn. unfold eval_operator.
  repeat match goal with
    | |- context [String.eqb (Rule.operator rule) ?s] =>
        destruct (String.eqb_spec (Rule.operator rule) s) as [E|_];
        [exfalso; apply Hn; rewrite E; unfold known_operators; simpl; tauto|]
    end.
  reflexivity.
Qed.

(** X3.  A rule whose operator is not one of the ten that [evaluate_rules]
    spells out (in upper case: the test is case-sensitive) never matches and
    never raises in the comparison, whatever the adapter returns: it is
    logged with [matched] false and [weight_applied] 0.0. *)
Theorem unknown_operator_never_matches p rule :
  ~ In (Rule.operator rule) known_operators ->
  exists entry,
    rule_outcome p rule = Ok entry
    /\ AtomicLogEntry.matched entry = false
    /\ AtomicLogEntry.weight_applied entry = Float.zero.
Proof.
  intros Hn. unfold rule_outcome. destruct (p _ _ _) as [v|e].
  - rewrite (eval_operator_unknown rule v Hn). simpl. eauto.
  - eauto.
Qed.

Lemma unknown_operator_never_matches_witness :
  exists entry,
    rule_outcome Examples.adapter
      (Examples.rule "r2" "verified" "exists" None None PNone (Examples.fl 1))
    = Ok entry
    /\ AtomicLogEntry.matched entry = false
    /\ AtomicLogEntry.weight_applied entry = Float.zero.
Proof.
  apply (unknown_operator_never_matches Examples.adapter
           (Examples.rule "r2" "verified" "exists" None None PNone (Examples.fl 1))).
  vm_compute. intuition discriminate.
Defined.

Lemma to_float_error s e :
  Str.to_float s = Raise e -> e = builtin_error "ValueError".
Proof.
  unfold Str.to_float. destruct (Str.to_ascii _) as [a|]; [|congruence].
  destruct (Str.sign _) as [neg l].
  repeat match goal with
    | |- context [if ?c then _ else _] => destruct c
    | |- context [match ?c with _ => _ end] => destruct c
    end; congruence.
Qed.

Lemma to_int_error s e :
  Str.to_int s = Raise e -> e = builtin_error "ValueError".
Proof.
  unfold Str.to_int. destruct (Str.to_ascii _) as [a|]; [|congruence].
  destruct (Str.sign _) as [neg l].
  repeat match goal with
    | |- context [if ?c then _ else _] => destruct c
    | |- context [match ?c with _ => _ end] => destruct c
    end; congruence.
Qed.

(** X4.  With operator [EQ] or [NE] and a [value_exact] that is a string
    spelling [TRUE] or [FALSE] (any case, blanks around it), the metric
    value is compared with the boolean, not with the string: [EQ] gives
    [metric == b] and [NE] its negation, so a metric that is itself a
    string, even the same one, never equals the target. *)
Theorem boolean_text_target_is_compared_as_boolean rule t (b : bool) v :
  Rule.value_exact rule = PStr t ->
  Str.upper (Str.strip t) = (if b then "TRUE" else "FALSE") ->
  (Rule.operator rule = "EQ" ->
   eval_operator rule v = Ok (py_eq v (PBool b))
   /\ forall s, eval_operator rule (PStr s) = Ok false)
  /\ (Rule.operator rule = "NE" ->
      eval_operator rule v = Ok (negb (py_eq v (PBool b)))
      /\ forall s, eval_operator rule (PStr s) = Ok true).
Proof.
  intros Hex Hup.
  assert (Hc : coerce_bool_string (Rule.value_exact rule) = PBool b).
  { rewrite Hex. unfold coerce_bool_string. rewrite Hup. now destruct b. }
  split; intros Hop; unfold eval_operator; rewrite Hop, Hc; simpl; auto.
Qed.

Lemma boolean_text_target_is_compared_as_boolean_witness :
  eval_operator (Examples.rule "r6" "verified" "EQ" None None (PStr " true ") (Examples.fl 1))
    (PInt 1)
  = Ok (py_eq (PInt 1) (PBool true))
  /\ forall s,
      eval_operator
        (Examples.rule "r6" "verified" "EQ" None None (PStr " true ") (Examples.fl 1))
        (PStr s)
      = Ok false.
Proof.
  apply (proj1 (boolean_text_target_is_compared_as_boolean
                  (Examples.rule "r6" "verified" "EQ" None None (PStr " true ")
                     (Examples.fl 1))
                  " true " true (PInt 1) eq_refl eq_refl)).
  reflexivity.
Defined.

Lemma py_float_numeric_threshold v :
  numeric_threshold v ->
  v = PNone \/ exists thr, py_float v = Ok thr.
Proof.
  destruct v as [|b|n|x|s|items]; simpl; try contradiction; intros _; eauto.
Qed.

Lemma py_ge_le_number v x :
  as_number v <> None -> (exists b, py_ge v x = Ok b) /\ (exists b, py_le v x = Ok b).
Proof.
  unfold py_ge, py_le. destruct (as_number v); [eauto | congruence].
Qed.

Lemma eval_operator_cannot_raise p rule v :
  cannot_raise p rule ->
  p (Rule.metric rule) (Rule.window_value rule) (Rule.window_unit rule) = Ok v ->
  exists b, eval_operator rule v = Ok b.
Proof.
  intros [Hcmp Hrange] Hp.
  destruct (in_dec string_dec (Rule.operator rule) comparison_operators) as [Hc|Hc].
  - specialize (Hcmp Hc). apply py_float_numeric_threshold in Hcmp.
    destruct (comparison_returns_on_numeric_threshold rule v) as (_ & Hnone & Hthr).
    { simpl in Hc. intuition. }
    destruct Hcmp as [Hn|[thr Hthr']]; eauto.
  - destruct (in_dec string_dec (Rule.operator rule) range_operators) as [Hr|Hr].
    + specialize (Hrange Hr v Hp).
      rewrite eval_operator_range by (simpl in Hr; intuition).
      destruct Hrange as [->|Hnum].
      * destruct (Rule.value_low rule), (Rule.value_high rule); simpl; eauto.
      * destruct (is_none v) eqn:Hn;
          [destruct v; try discriminate Hn; now contradiction Hnum|].
        destruct (Rule.value_low rule) as [low|], (Rule.value_high rule) as [high|];
          try destruct (proj1 (py_ge_le_number v low Hnum)) as [b1 ->];
          try destruct (proj2 (py_ge_le_number v high Hnum)) as [b2 ->];
          simpl; eauto.
    + unfold eval_operator.
      repeat match goal with
        | |- context [String.eqb (Rule.operator rule) ?s] =>
            destruct (String.eqb_spec (Rule.operator rule) s) as [E|_];
            [try (exfalso; apply Hc; rewrite E; simpl; tauto);
             try (exfalso; apply Hr; rewrite E; simpl; tauto) |]
        end; simpl; eauto.
Qed.

Lemma mapM_returns {A B : Type} (f : A -> result B) (xs : list A) :
  (forall x, In x xs -> exists y, f x = Ok y) -> exists ys, mapM f xs = Ok ys.
Proof.
  induction xs as [|x xs IH]; intros H; simpl; [eauto|].
  destruct (H x) as [y ->]; [now left|].
  destruct IH as [ys ->]; [intros; apply H; now right|]. simpl. eauto.
Qed.

(** X5.  [evaluate_rules] returns, with one entry per rule, whenever no
    operator can raise: every comparison rule ([LT], [LTE], [GT], [GTE]) has
    a [value_exact] that is null, a bool or a float, and every range rule
    ([RANGE], [BETWEEN]) gets a number or null from the adapter.  What the
    adapter raises and what the other operators are given does not matter. *)
Theorem evaluation_returns_on_numeric_thresholds p rules :
  Forall (cannot_raise p) rules ->
  exists score log,
    evaluate_rules p rules = Ok (score, log) /\ length log = length rules.
Proof.
  intros Hall. rewrite evaluate_rules_outcomes.
  destruct (mapM_returns (rule_outcome p) rules) as [entries Hm].
  - intros rule Hin. rewrite List.Forall_forall in Hall.
    specialize (Hall rule Hin). unfold rule_outcome.
    destruct (p _ _ _) as [v|e] eqn:Hp; [|eauto].
    destruct (eval_operator_cannot_raise p rule v Hall Hp) as [b ->].
    simpl. eauto.
  - rewrite Hm. simpl. eexists _, _. split; [reflexivity|].
    now apply mapM_length in Hm.
Qed.

Lemma evaluation_returns_on_numeric_thresholds_witness :
  exists score log,
    evaluate_rules Examples.adapter
      [Examples.rule "r1" "stars" "GTE" None None (PFloat (Examples.fl 10)) (Examples.fl 2);
       Examples.rule "r7" "bio" "EQ" None None (PList []) (Examples.fl 1)]
    = Ok (score, log)
    /\ length log
       = length
           [Examples.rule "r1" "stars" "GTE" None None (PFloat (Examples.fl 10)) (Examples.fl 2);
            Examples.rule "r7" "bio" "EQ" None None (PList []) (Examples.fl 1)].
Proof.
  apply (evaluation_returns_on_numeric_thresholds Examples.adapter).
  apply List.Forall_cons; [|apply List.Forall_cons; [|apply List.Forall_nil]];
    split; simpl; intuition discriminate.
Defined.

Lemma parse_value_exact_text cell s :
  parse_value_exact cell = PStr s ->
  s = Str.strip (match cell with Some c => c | None => "" end)
  /\ s <> ""
  /\ Str.upper s <> "TRUE" /\ Str.upper s <> "FALSE"
  /\ Str.to_float s = Raise (builtin_error "ValueError").
Proof.
  unfold parse_value_exact.
  set (raw := Str.strip _).
  destruct (String.eqb_spec raw "") as [|Hne]; [discriminate|].
  destruct (String.eqb_spec (Str.upper raw) "TRUE") as [|Ht]; [discriminate|].
  destruct (String.eqb_spec (Str.upper raw) "FALSE") as [|Hf]; [discriminate|].
  simpl. destruct (Str.to_float raw) as [x|e] eqn:E; [discriminate|].
  intros [= <-]. apply to_float_error in E as Ee. subst e. auto.
Qed.

(** X6.  A threshold cell that the loader keeps as text makes every
    comparison raise: for a rule with operator [LT], [LTE], [GT] or [GTE]
    whose [value_exact] is the string parsed from such a cell, the operator
    raises [ValueError] on every metric value that coerces to a float, and
    gives no match on the others. *)
Theorem text_threshold_raises_on_every_number cell s rule v :
  parse_value_exact cell = PStr s ->
  Rule.value_exact rule = PStr s ->
  In (Rule.operator rule) comparison_operators ->
  match try_float v with
  | Some _ => eval_operator rule v = Raise (builtin_error "ValueError")
  | None => eval_operator rule v = Ok false
  end.
Proof.
  intros Hparse Hex Hop.
  apply parse_value_exact_text in Hparse as (_ & _ & _ & _ & Hf).
  unfold eval_operator.
  destruct Hop as [<-|[<-|[<-|[<-|[]]]]]; simpl;
    destruct (try_float v); try reflexivity; rewrite Hex; simpl; now rewrite Hf.
Qed.

Lemma text_threshold_raises_on_every_number_witness :
  eval_operator (Examples.rule "r5" "stars" "LTE" None None (PStr "high") (Examples.fl 1))
    (PInt 15)
  = Raise (builtin_error "ValueError").
Proof.
  apply (text_threshold_raises_on_every_number (Some " high ") "high"
           (Examples.rule "r5" "stars" "LTE" None None (PStr "high") (Examples.fl 1))
           (PInt 15)).
  - vm_compute. reflexivity.
  - reflexivity.
  - simpl. tauto.
Defined.

(** X7.  [get_metric] of an adapter under [evaluate_rules]: a rule on a
    metric for which the adapter has no method [metric_<name>] gets in the
    log an error entry with the class [ValueError] and the message
    [Unsupported metric: <name>]; a rule on a metric that has a method gets
    the value that the method returns on the window of the rule, or the
    error entry of the exception that the method raises. *)
Theorem unsupported_metric_is_an_error_entry
    (attrs : gmap string metric_method) rules score log (i : nat) rule :
  evaluate_rules (get_metric attrs) rules = Ok (score, log) ->
  rules !! i = Some rule ->
  (attrs !! ("metric_" ++ Rule.metric rule)%string = None ->
   log !! i
   = Some (error_entry rule
             (Exn "ValueError" ("Unsupported metric: " ++ Rule.metric rule)%string)))
  /\ (forall method v,
        attrs !! ("metric_" ++ Rule.metric rule)%string = Some method ->
        method (Rule.window_value rule) (Rule.window_unit rule) = Ok v ->
        exists entry,
          log !! i = Some entry
          /\ AtomicLogEntry.metric_value entry = v
          /\ AtomicLogEntry.error entry = None)
  /\ (forall method e,
        attrs !! ("metric_" ++ Rule.metric rule)%string = Some method ->
        method (Rule.window_value rule) (Rule.window_unit rule) = Raise e ->
        log !! i = Some (error_entry rule e)).
Proof.
  intros Hev Hi.
  destruct (evaluate_rules_entry _ _ _ _ _ _ Hev Hi) as (entry & Hl & Ho).
  unfold rule_outcome, get_metric, metric_method in *. cbv zeta in Ho.
  split; [|split].
  - intros H. rewrite H in Ho. injection Ho as <-. exact Hl.
  - intros method v H Hm. rewrite H, Hm in Ho.
    apply bind_ok in Ho as (m & _ & Ho). injection Ho as <-.
    exists (eval_entry rule v m (if m then Rule.weight rule else Float.zero)).
    repeat split. exact Hl.
  - intros method e H Hm. rewrite H, Hm in Ho. injection Ho as <-. exact Hl.
Qed.

Lemma unsupported_metric_is_an_error_entry_witness :
  [eval_entry (Examples.rule "r1" "stars" "GTE" None None (PInt 10) (Examples.fl 2))
     (PInt 15) true (Examples.fl 2);
   error_entry (Examples.rule "r9" "followers" "GT" None None (PInt 1) (Examples.fl 5))
     (Exn "ValueError" "Unsupported metric: followers")] !! 1%nat
  = Some (error_entry
            (Examples.rule "r9" "followers" "GT" None None (PInt 1) (Examples.fl 5))
            (Exn "ValueError" "Unsupported metric: followers")).
Proof.
  apply (proj1 (unsupported_metric_is_an_error_entry
                  RuntimeExamples.stars_payload
                  [Examples.rule "r1" "stars" "GTE" None None (PInt 10) (Examples.fl 2);
                   Examples.rule "r9" "followers" "GT" None None (PInt 1)
                     (Examples.fl 5)]
                  (Examples.fl 2) _ 1%nat
                  (Examples.rule "r9" "followers" "GT" None None (PInt 1)
                     (Examples.fl 5))
                  ltac:(vm_compute; reflexivity) ltac:(reflexivity))).
  vm_compute. reflexivity.
Defined.

(* ===================================================================== *)
(** * Further properties of the business rule evaluator *)
(* ===================================================================== *)

Lemma is_in_true ids x : is_in ids x = true <-> x ∈ ids.
Proof. unfold is_in. apply bool_decide_eq_true. Qed.

(** X8.  An option is satisfied exactly when every id of [all_of] matched,
    [any_of] is empty or one of its ids matched, and no id of [none_of]
    matched; the emptiness tests on [all_of] and [none_of] change nothing,
    and an option with three empty lists is satisfied. *)
Theorem option_satisfied_iff (ids : gset string) (opt : BusinessRuleOption.t) :
  option_satisfied ids opt = true <->
  (forall x, In x (BusinessRuleOption.all_of opt) -> x ∈ ids)
  /\ (BusinessRuleOption.any_of opt = []
      \/ exists x, In x (BusinessRuleOption.any_of opt) /\ x ∈ ids)
  /\ (forall x, In x (BusinessRuleOption.none_of opt) -> x ∉ ids).
Proof.
  unfold option_satisfied.
  assert (Hall : forallb (is_in ids) (BusinessRuleOption.all_of opt) = true <->
                 forall x, In x (BusinessRuleOption.all_of opt) -> x ∈ ids).
  { rewrite forallb_forall. split; intros H x Hx; apply is_in_true; auto. }
  assert (Hany : existsb (is_in ids) (BusinessRuleOption.any_of opt) = true <->
                 exists x, In x (BusinessRuleOption.any_of opt) /\ x ∈ ids).
  { rewrite existsb_exists. split; intros (x & Hx & H); exists x;
      (split; [exact Hx|]); now apply is_in_true. }
  assert (Hnone : existsb (is_in ids) (BusinessRuleOption.none_of opt) = false <->
                  forall x, In x (BusinessRuleOption.none_of opt) -> x ∉ ids).
  { rewrite <- not_true_iff_false, existsb_exists. split.
    - intros H x Hx Hin. apply H. exists x. split; [exact Hx|].
      now apply is_in_true.
    - intros H (x & Hx & Hin). apply (H x Hx). now apply is_in_true. }
  rewrite <- Hall, <- Hnone.
  assert (Hany' : BusinessRuleOption.any_of opt = []
                  \/ (exists x, In x (BusinessRuleOption.any_of opt) /\ x ∈ ids)
                  <-> nonempty (BusinessRuleOption.any_of opt) = false
                      \/ existsb (is_in ids) (BusinessRuleOption.any_of opt) = true).
  { rewrite <- Hany. destruct (BusinessRuleOption.any_of opt); simpl;
      intuition discriminate. }
  rewrite Hany'. clear Hall Hany Hnone Hany'.
  destruct (BusinessRuleOption.all_of opt), (BusinessRuleOption.any_of opt),
    (BusinessRuleOption.none_of opt); simpl;
    repeat match goal with
      | |- context [is_in ids ?x] => destruct (is_in ids x)
      | |- context [forallb ?f ?l] => destruct (forallb f l)
      | |- context [existsb ?f ?l] => destruct (existsb f l)
      end; simpl; intuition discriminate.
Qed.

Lemma filter_filter_and {A : Type} (f h : A -> bool) (l : list A) :
  List.filter f (List.filter h l) = List.filter (fun x => h x && f x) l.
Proof.
  induction l as [|x l IH]; simpl; [reflexivity|].
  destruct (h x); simpl; [destruct (f x)|]; now rewrite ?IH.
Qed.

Lemma filter_all {A : Type} (f : A -> bool) (l : list A) :
  (forall x, In x l -> f x = true) -> List.filter f l = l.
Proof.
  induction l as [|x l IH]; intros H; simpl; [reflexivity|].
  rewrite (H x) by now left. f_equal. apply IH. intros; apply H; now right.
Qed.

Lemma group_options_keys_from groups l :
  map fst
    (fold_left
       (fun groups opt =>
          setdefault_append groups (BusinessRuleOption.group_id opt) opt)
       l groups)
  = map fst groups
    ++ List.filter (fun k => negb (bool_decide (k ∈ map fst groups)))
         (distinct_keys (map BusinessRuleOption.group_id l)).
Proof.
  revert groups. induction l as [|o l IH]; intros groups; cbn [fold_left].
  - simpl. now rewrite app_nil_r.
  - set (g := BusinessRuleOption.group_id o).
    rewrite IH, (setdefault_append_keys groups g o).
    cbn [map distinct_keys List.filter]. fold g.
    set (D := distinct_keys (map BusinessRuleOption.group_id l)).
    case_bool_decide as Hin; cbn [negb].
    + f_equal. rewrite filter_filter_and. apply List.filter_ext_in.
      intros x _. destruct (String.eqb_spec x g) as [->|_]; simpl; [|reflexivity].
      now rewrite bool_decide_eq_true_2.
    + rewrite <- app_assoc. cbn [app]. do 2 f_equal.
      rewrite filter_filter_and. apply List.filter_ext.
      intros x. destruct (String.eqb_spec x g) as [->|Hne]; simpl.
      * rewrite bool_decide_eq_true_2; [reflexivity|].
        apply elem_of_app. right. now apply list_elem_of_singleton.
      * f_equal. apply bool_decide_ext. rewrite elem_of_app, list_elem_of_singleton.
        tauto.
Qed.

Lemma group_options_keys br_options :
  map fst (group_options br_options)
  = distinct_keys (map BusinessRuleOption.group_id br_options).
Proof.
  unfold group_options. rewrite group_options_keys_from. simpl.
  apply filter_all. intros x _. reflexivity.
Qed.

(** X9.  The business log has one entry per distinct group id of the
    options, in the order in which the ids first appear among the options;
    the entry of an id is built from exactly the options that carry it, in
    their input order. *)
Theorem business_log_lists_groups_in_first_appearance_order
    atomic_log br_options :
  map BusinessLogEntry.group_id (snd (evaluate_business_rules atomic_log br_options))
  = distinct_keys (map BusinessRuleOption.group_id br_options)
  /\ NoDup (map BusinessLogEntry.group_id
              (snd (evaluate_business_rules atomic_log br_options)))
  /\ (forall entry,
        In entry (snd (evaluate_business_rules atomic_log br_options)) ->
        entry = group_entry (matched_atomic_ids atomic_log)
                  (BusinessLogEntry.group_id entry)
                  (List.filter (in_group (BusinessLogEntry.group_id entry)) br_options)
        /\ List.filter (in_group (BusinessLogEntry.group_id entry)) br_options <> []).
Proof.
  rewrite evaluate_business_rules_log, map_map. simpl.
  change (map (fun x => fst x) (group_options br_options))
    with (map fst (group_options br_options)).
  destruct (group_options_spec br_options) as (Hnd & _ & Hspec).
  split; [apply group_options_keys|]. split; [exact Hnd|].
  intros entry Hin. apply in_map_iff in Hin as ([g opts] & <- & Hin). simpl.
  destruct (Hspec g opts Hin) as [-> Hne]. auto.
Qed.

Lemma fold_evaluate_group ids groups score log :
  fold_left (evaluate_group ids) groups (score, log)
  = (fold_left Float.add
       (chosen_weights (map (fun group => group_entry ids (fst group) (snd group)) groups))
       score,
     log ++ map (fun group => group_entry ids (fst group) (snd group)) groups).
Proof.
  revert score log. induction groups as [|[g opts] groups IH]; intros score log.
  - simpl. now rewrite app_nil_r.
  - cbn [fold_left map fst snd]. unfold evaluate_group at 2.
    rewrite IH, <- app_assoc. cbn [app]. f_equal.
    unfold chosen_weights. cbn [omap list_omap].
    change (BusinessLogEntry.chosen (group_entry ids g opts))
      with (chosen_info <$> chosen_option ids opts).
    destruct (chosen_option ids opts) as [c|]; reflexivity.
Qed.

(** X10.  The business score is the floating-point sum, from 0.0 and in the
    order of the log, of the weights that the log shows as chosen: a group
    whose entry has no chosen option adds nothing, and nothing else is
    added. *)
Theorem business_score_is_the_sum_of_chosen_weights atomic_log br_options :
  fst (evaluate_business_rules atomic_log br_options)
  = fold_left Float.add
      (chosen_weights (snd (evaluate_business_rules atomic_log br_options)))
      Float.zero.
Proof.
  unfold evaluate_business_rules. destruct br_options as [|o l]; [reflexivity|].
  now rewrite fold_evaluate_group.
Qed.

Lemma elem_of_matched_atomic_ids atomic_log id :
  id ∈ matched_atomic_ids atomic_log <->
  exists entry,
    In entry atomic_log
    /\ AtomicLogEntry.matched entry = true
    /\ AtomicLogEntry.id entry = id.
Proof.
  unfold matched_atomic_ids.
  rewrite elem_of_list_to_set, list_elem_of_In, in_map_iff. split.
  - intros (e & He & Hin). apply filter_In in Hin as [Hin Hm]. eauto.
  - intros (e & Hin & Hm & He). exists e. split; [exact He|].
    apply filter_In. auto.
Qed.

(** X11.  The business evaluation reads the atomic log only through the
    set of ids of its matched entries: two logs with the same matched ids
    give the same score and the same business log, whatever the order of
    their entries, their duplicates, and their unmatched or error entries. *)
Theorem business_rules_depend_on_matched_ids_only atomic_log1 atomic_log2 br_options :
  (forall id,
     (exists entry, In entry atomic_log1
                    /\ AtomicLogEntry.matched entry = true
                    /\ AtomicLogEntry.id entry = id)
     <-> (exists entry, In entry atomic_log2
                        /\ AtomicLogEntry.matched entry = true
                        /\ AtomicLogEntry.id entry = id)) ->
  evaluate_business_rules atomic_log1 br_options
  = evaluate_business_rules atomic_log2 br_options.
Proof.
  intros H.
  assert (Hids : matched_atomic_ids atomic_log1 = matched_atomic_ids atomic_log2).
  { apply set_eq. intros id. rewrite !elem_of_matched_atomic_ids. apply H. }
  unfold evaluate_business_rules. now rewrite Hids.
Qed.

Lemma business_rules_depend_on_matched_ids_only_witness :
  evaluate_business_rules Examples.atomic_log Examples.br_options
  = evaluate_business_rules (rev Examples.atomic_log) Examples.br_options.
Proof.
  apply (business_rules_depend_on_matched_ids_only
           Examples.atomic_log (rev Examples.atomic_log) Examples.br_options).
  intros id. split; intros (entry & Hin & H); exists entry;
    (split; [|exact H]); [apply in_rev in Hin | apply in_rev]; simpl in *; tauto.
Defined.

Lemma sort_reverse_Permutation {A K : Type} (lt : K -> K -> bool) (key : A -> K)
    (l : list A) :
  Permutation (sort_reverse lt key l) l.
Proof.
  unfold sort_reverse.
  rewrite <- Permutation_rev, list_sort_Permutation.
  symmetry. apply Permutation_rev.
Qed.

(** X12.  Every entry of the business log lists under [satisfied_options]
    all the satisfied options of its group and only them (as many entries
    as there are satisfied options, each with its likert value, label and
    weight); [chosen] is null exactly when that list is empty, and otherwise
    shows the option listed first. *)
Theorem entry_lists_the_satisfied_options atomic_log br_options entry :
  In entry (snd (evaluate_business_rules atomic_log br_options)) ->
  Permutation
    (BusinessLogEntry.satisfied_options entry)
    (map satisfied_info
       (List.filter (option_satisfied (matched_atomic_ids atomic_log))
          (List.filter (in_group (BusinessLogEntry.group_id entry)) br_options)))
  /\ (BusinessLogEntry.chosen entry = None <->
      BusinessLogEntry.satisfied_options entry = [])
  /\ (forall c, BusinessLogEntry.chosen entry = Some c ->
      exists rest,
        BusinessLogEntry.satisfied_options entry
        = BusinessLogEntry.mk_satisfied
            (BusinessLogEntry.c_likert_value c)
            (BusinessLogEntry.c_likert_label c)
            (BusinessLogEntry.c_weight c) :: rest).
Proof.
  rewrite evaluate_business_rules_log. intros Hin.
  apply in_map_iff in Hin as ([g opts] & <- & Hin).
  destruct (proj2 (proj2 (group_options_spec br_options)) g opts Hin) as [Hopts _].
  cbn [fst snd group_entry BusinessLogEntry.group_id
       BusinessLogEntry.satisfied_options BusinessLogEntry.chosen].
  rewrite <- Hopts. unfold chosen_option, sorted_satisfied.
  set (sat := List.filter (option_satisfied (matched_atomic_ids atomic_log)) opts).
  split; [apply Permutation_map, sort_reverse_Permutation|].
  destruct (sort_reverse key_lt sort_key sat) as [|c l]; simpl.
  - split; [tauto|]. intros c [=].
  - split; [split; discriminate|]. intros c' [= <-]. now exists (map satisfied_info l).
Qed.

Lemma entry_lists_the_satisfied_options_witness :
  Permutation
    (BusinessLogEntry.satisfied_options
       (group_entry (matched_atomic_ids Examples.atomic_log) "g2" [Examples.option_E]))
    (map satisfied_info
       (List.filter (option_satisfied (matched_atomic_ids Examples.atomic_log))
          (List.filter (in_group "g2") Examples.br_options))).
Proof.
  apply (proj1 (entry_lists_the_satisfied_options
                  Examples.atomic_log Examples.br_options
                  (group_entry (matched_atomic_ids Examples.atomic_log) "g2"
                     [Examples.option_E])
                  ltac:(vm_compute; right; left; reflexivity))).
Defined.

Lemma fold_setdefault_same_group g acc l :
  (forall o, In o l -> BusinessRuleOption.group_id o = g) ->
  fold_left
    (fun groups opt =>
       setdefault_append groups (BusinessRuleOption.group_id opt) opt)
    l [(g, acc)]
  = [(g, acc ++ l)].
Proof.
  revert acc. induction l as [|o l IH]; intros acc H; simpl.
  - now rewrite app_nil_r.
  - rewrite (H o) by now left. rewrite String.eqb_refl.
    rewrite IH by (intros; apply H; now right). now rewrite <- app_assoc.
Qed.

Lemma group_options_single g l :
  l <> [] ->
  (forall o, In o l -> BusinessRuleOption.group_id o = g) ->
  group_options l = [(g, l)].
Proof.
  destruct l as [|o l]; [congruence|]. intros _ H.
  unfold group_options. cbn [fold_left setdefault_append].
  rewrite (H o) by now left.
  apply fold_setdefault_same_group. intros; apply H; now right.
Qed.

(** X13.  A group is evaluated on its own: the entry that the business log
    has for a group id is the entry, and the only one, that comes out when
    the options of the other groups are taken away, and the score is then
    the weight chosen in that entry, if any. *)
Theorem groups_do_not_influence_each_other atomic_log br_options entry :
  In entry (snd (evaluate_business_rules atomic_log br_options)) ->
  evaluate_business_rules atomic_log
    (List.filter (in_group (BusinessLogEntry.group_id entry)) br_options)
  = (fold_left Float.add (chosen_weights [entry]) Float.zero, [entry]).
Proof.
  rewrite evaluate_business_rules_log. intros Hin.
  apply in_map_iff in Hin as ([g opts] & <- & Hin).
  destruct (proj2 (proj2 (group_options_spec br_options)) g opts Hin) as [Hopts Hne].
  cbn [fst snd group_entry BusinessLogEntry.group_id]. rewrite <- Hopts.
  unfold evaluate_business_rules.
  destruct opts as [|o opts'] eqn:E; [congruence|]. rewrite <- E in *.
  rewrite (group_options_single g opts Hne).
  - now rewrite fold_evaluate_group.
  - intros o' Ho'. rewrite Hopts in Ho'. apply filter_In in Ho' as [_ Ho'].
    unfold in_group in Ho'. now apply String.eqb_eq.
Qed.

Lemma groups_do_not_influence_each_other_witness :
  evaluate_business_rules Examples.atomic_log
    (List.filter (in_group "g2") Examples.br_options)
  = (fold_left Float.add
       (chosen_weights
          [group_entry (matched_atomic_ids Examples.atomic_log) "g2" [Examples.option_E]])
       Float.zero,
     [group_entry (matched_atomic_ids Examples.atomic_log) "g2" [Examples.option_E]]).
Proof.
  apply (groups_do_not_influence_each_other
           Examples.atomic_log Examples.br_options
           (group_entry (matched_atomic_ids Examples.atomic_log) "g2"
              [Examples.option_E])).
  vm_compute. right. left. reflexivity.
Defined.

(* ===================================================================== *)
(** * Further properties of the rule store *)
(* ===================================================================== *)

(** ** Stripping and upper-casing *)

Lemma chars_of_chars (l : list ascii) : Str.chars (Str.of_chars l) = l.
Proof. apply list_ascii_of_string_of_list_ascii. Qed.

Lemma of_chars_chars (s : string) : Str.of_chars (Str.chars s) = s.
Proof. apply string_of_list_ascii_of_string. Qed.

(** Either nothing is stripped, or what is stripped is at the head and the
    rest is stripped further. *)
Lemma lstrip_chars_cases (l : list ascii) :
  Str.lstrip_chars l = l
  \/ exists blanks r,
       blanks <> [] /\ l = blanks ++ r
       /\ Str.lstrip_chars l = Str.lstrip_chars r.
Proof.
  destruct l as [|c1 r1]; [now left|]. cbn [Str.lstrip_chars].
  destruct (Str.byte c1 <? 128).
  { destruct (Str.is_space_code _); [right | now left].
    exists [c1], r1. repeat split. discriminate. }
  destruct r1 as [|c2 r2]; [now left|].
  destruct (Str.code2 _ _).
  { destruct (Str.is_space_code _); [right | now left].
    exists [c1; c2], r2. repeat split. discriminate. }
  destruct r2 as [|c3 r3]; [now left|].
  destruct (Str.code3 _ _ _); [|now left].
  destruct (Str.is_space_code _); [right | now left].
  exists [c1; c2; c3], r3. repeat split. discriminate.
Qed.

Lemma rstrip_rev_cases (l : list ascii) :
  Str.rstrip_rev l = l
  \/ exists blanks r,
       blanks <> [] /\ l = blanks ++ r
       /\ Str.rstrip_rev l = Str.rstrip_rev r.
Proof.
  destruct l as [|c1 r1]; [now left|]. cbn [Str.rstrip_rev].
  destruct (Str.byte c1 <? 128).
  { destruct (Str.is_space_code _); [right | now left].
    exists [c1], r1. repeat split. discriminate. }
  destruct r1 as [|c2 r2]; [now left|].
  destruct (Str.code2 _ _).
  { destruct (Str.is_space_code _); [right | now left].
    exists [c1; c2], r2. repeat split. discriminate. }
  destruct r2 as [|c3 r3]; [now left|].
  destruct (Str.code3 _ _ _); [|now left].
  destruct (Str.is_space_code _); [right | now left].
  exists [c1; c2; c3], r3. repeat split. discriminate.
Qed.

Section Strip.
Variable f : list ascii -> list ascii.
Hypothesis f_cases : forall l,
  f l = l
  \/ exists blanks r, blanks <> [] /\ l = blanks ++ r /\ f l = f r.

(** What is stripped is at the head, and stripping again changes
    nothing. *)
Lemma strip_spec (l : list ascii) :
  (exists blanks, l = blanks ++ f l) /\ f (f l) = f l.
Proof.
  remember (length l) as n eqn:Hn. revert l Hn.
  induction n as [n IH] using lt_wf_ind. intros l Hn.
  destruct (f_cases l) as [E|(blanks & r & Hb & Hl & E)].
  - rewrite E. split; [now exists [] | exact E].
  - assert (Hlen : (length r < n)%nat).
    { subst n. rewrite Hl, length_app. destruct blanks; [congruence|]. simpl. lia. }
    destruct (IH _ Hlen r eq_refl) as [[blanks' Hr] Hi].
    rewrite E. split; [|exact Hi].
    exists (blanks ++ blanks'). rewrite <- app_assoc, <- Hr. exact Hl.
Qed.

(** A list that loses nothing has no prefix that loses something. *)
Lemma strip_prefix (p s : list ascii) :
  (forall l, f l = l -> forall p' s', l = p' ++ s' -> f p' = p') ->
  f (p ++ s) = p ++ s -> f p = p.
Proof. intros H E. now apply (H (p ++ s) E p s). Qed.
End Strip.

Lemma lstrip_chars_prefix (p s : list ascii) :
  Str.lstrip_chars (p ++ s) = p ++ s -> Str.lstrip_chars p = p.
Proof.
  intros E.
  assert (Hlen : forall r, (length (Str.lstrip_chars r) <= length r)%nat).
  { intros r. destruct (proj1 (strip_spec _ lstrip_chars_cases r)) as [b Hb].
    rewrite Hb at 2. rewrite length_app. lia. }
  assert (Habs : forall b r, b <> [] -> Str.lstrip_chars r = b ++ r -> False).
  { intros b r Hb H. pose proof (Hlen r) as Hl. rewrite H, length_app in Hl.
    destruct b; [congruence | simpl in Hl; lia]. }
  destruct p as [|c1 r1]; [reflexivity|].
  cbn [Str.lstrip_chars app] in E |- *.
  destruct (Str.byte c1 <? 128).
  { destruct (Str.is_space_code _); [|reflexivity].
    exfalso. apply (Habs [c1] (r1 ++ s)); [discriminate | exact E]. }
  destruct r1 as [|c2 r2]; [reflexivity|]. cbn [app] in E.
  destruct (Str.code2 _ _).
  { destruct (Str.is_space_code _); [|reflexivity].
    exfalso. apply (Habs [c1; c2] (r2 ++ s)); [discriminate | exact E]. }
  destruct r2 as [|c3 r3]; [reflexivity|]. cbn [app] in E.
  destruct (Str.code3 _ _ _); [|reflexivity].
  destruct (Str.is_space_code _); [|reflexivity].
  exfalso. apply (Habs [c1; c2; c3] (r3 ++ s)); [discriminate | exact E].
Qed.

Lemma lstrip_chars_idem (l : list ascii) :
  Str.lstrip_chars (Str.lstrip_chars l) = Str.lstrip_chars l.
Proof. apply (strip_spec _ lstrip_chars_cases). Qed.

(** What [strip] returns has no blank at either end. *)
Lemma strip_chars_ends (l : list ascii) :
  Str.lstrip_chars (Str.strip_chars l) = Str.strip_chars l
  /\ Str.rstrip_rev (rev (Str.strip_chars l)) = rev (Str.strip_chars l).
Proof.
  unfold Str.strip_chars. set (A := Str.lstrip_chars l).
  destruct (strip_spec _ rstrip_rev_cases (rev A)) as [[blanks HA] Hi].
  set (R := Str.rstrip_rev (rev A)) in *.
  rewrite rev_involutive. split; [|exact Hi].
  apply (lstrip_chars_prefix (rev R) (rev blanks)).
  rewrite <- rev_app_distr, <- HA, rev_involutive. apply lstrip_chars_idem.
Qed.

Lemma strip_chars_idem (l : list ascii) :
  Str.strip_chars (Str.strip_chars l) = Str.strip_chars l.
Proof.
  destruct (strip_chars_ends l) as [H1 H2].
  unfold Str.strip_chars at 1. now rewrite H1, H2, rev_involutive.
Qed.

Lemma strip_idem (s : string) : Str.strip (Str.strip s) = Str.strip s.
Proof. unfold Str.strip. now rewrite chars_of_chars, strip_chars_idem. Qed.

(** ** What the loaders produce *)

(** X14.  The [value_exact] that the loaders produce is null, a bool, a
    float, or a string that is not empty, has no blank at either end, does
    not spell [TRUE] or [FALSE] and is not read by [float]; never an int or
    a collection.  On such a value the coercion of boolean strings in [EQ]
    and [NE] changes nothing. *)
Theorem loaded_value_exact_needs_no_coercion (cell : option string) :
  coerce_bool_string (parse_value_exact cell) = parse_value_exact cell
  /\ match parse_value_exact cell with
     | PNone | PBool _ | PFloat _ => True
     | PStr s =>
         s <> "" /\ Str.strip s = s
         /\ Str.upper s <> "TRUE" /\ Str.upper s <> "FALSE"
         /\ Str.to_float s = Raise (builtin_error "ValueError")
     | PInt _ | PList _ => False
     end.
Proof.
  destruct (parse_value_exact cell) as [|b|n|x|s|items] eqn:E;
    try (split; [reflexivity | exact I]).
  - exfalso. unfold parse_value_exact in E.
    repeat match type of E with
      | (if ?c then _ else _) = _ => destruct c
      | match ?c with _ => _ end = _ => destruct c
      end; discriminate.
  - apply parse_value_exact_text in E as (Hs & Hne & Ht & Hf & Hfl).
    assert (Hstrip : Str.strip s = s) by (rewrite Hs; apply strip_idem).
    split; [|auto]. unfold coerce_bool_string. rewrite Hstrip.
    destruct (String.eqb_spec (Str.upper s) "TRUE"); [contradiction|].
    destruct (String.eqb_spec (Str.upper s) "FALSE"); [contradiction|].
    reflexivity.
  - exfalso. unfold parse_value_exact in E.
    repeat match type of E with
      | (if ?c then _ else _) = _ => destruct c
      | match ?c with _ => _ end = _ => destruct c
      end; discriminate.
Qed.

Lemma optional_cell_error {A : Type} (conv : string -> result A) row k e :
  (forall s e', conv s = Raise e' -> e' = builtin_error "ValueError") ->
  optional_cell conv row k = Raise e -> e = builtin_error "ValueError".
Proof.
  intros Hconv. unfold optional_cell. destruct (cell_present row k); [|discriminate].
  destruct (conv _) as [v|e'] eqn:E; simpl; [discriminate|].
  intros [= <-]. eauto.
Qed.

Lemma optional_cell_absent {A : Type} (conv : string -> result A) row k :
  cell_present row k = false -> optional_cell conv row k = Ok None.
Proof. intros H. unfold optional_cell. now rewrite H. Qed.

Lemma bind_raise {A B : Type} (m : result A) (k : A -> result B) e :
  bind m k = Raise e -> m = Raise e \/ exists a, m = Ok a /\ k a = Raise e.
Proof. destruct m as [a|e']; simpl; [eauto | intros [= ->]; auto]. Qed.

Lemma rule_of_dynamic_row_error row e :
  rule_of_dynamic_row row = Raise e -> e = builtin_error "ValueError".
Proof.
  intros H. unfold rule_of_dynamic_row in H.
  repeat (apply bind_raise in H as [H|(? & _ & H)];
          [eapply optional_cell_error; [|exact H];
           eauto using to_float_error, to_int_error|]).
  discriminate.
Qed.

(** X15.  The row constructor of [load_rules] tolerates missing columns: it
    can raise nothing but [ValueError] (a cell of [value_low],
    [value_high], [window_value] or [weight] that is not a number), and a
    row in which those four cells are absent or blank always gives a rule,
    with no bounds, no window and the weight 0.0. *)
Theorem dynamic_row_fails_only_on_numbers (row : Row.t) :
  (forall e, rule_of_dynamic_row row = Raise e -> e = builtin_error "ValueError")
  /\ (cell_present row "value_low" = false ->
      cell_present row "value_high" = false ->
      cell_present row "window_value" = false ->
      cell_present row "weight" = false ->
      exists rule,
        rule_of_dynamic_row row = Ok rule
        /\ Rule.value_low rule = None /\ Rule.value_high rule = None
        /\ Rule.window_value rule = None /\ Rule.weight rule = Float.zero
        /\ Rule.id rule = Str.strip (Row.get_or_empty row "id")).
Proof.
  split; [apply rule_of_dynamic_row_error|].
  intros H1 H2 H3 H4. unfold rule_of_dynamic_row.
  rewrite !optional_cell_absent by assumption. simpl. eexists.
  split; [reflexivity|]. simpl. auto.
Qed.

Lemma dynamic_row_fails_only_on_numbers_witness :
  exists rule,
    rule_of_dynamic_row {[ "metric" := Some "stars"; "operator" := Some "exists" ]}
    = Ok rule
    /\ Rule.value_low rule = None /\ Rule.value_high rule = None
    /\ Rule.window_value rule = None /\ Rule.weight rule = Float.zero
    /\ Rule.id rule
       = Str.strip (Row.get_or_empty
                      {[ "metric" := Some "stars"; "operator" := Some "exists" ]} "id").
Proof.
  apply (proj2 (dynamic_row_fails_only_on_numbers
                  {[ "metric" := Some "stars"; "operator" := Some "exists" ]}));
    vm_compute; reflexivity.
Defined.

(** An id between a no-break space (U+00A0) and an em space (U+2003) is
    stripped of both. *)
Example dynamic_row_strips_unicode_whitespace :
  rule_of_dynamic_row
    {[ "id" := Some (Str.of_codes [160; 114; 49; 8195]);
       "metric" := Some "stars"; "operator" := Some "exists" ]}
  = Ok (Rule.mk "r1" "" "" "stars" "EXISTS" None None PNone None None None
          Float.zero false).
Proof. vm_compute. reflexivity. Qed.

Lemma index_strip_ok row k x :
  (do c <- Row.index row k; cell_strip c) = Ok x ->
  exists s, row !! k = Some (Some s)
            /\ x = Str.strip s /\ Row.get_or_empty row k = s.
Proof.
  unfold Row.index, Row.get_or_empty, Row.get.
  destruct (row !! k) as [[s|]|]; simpl; try discriminate.
  intros [= <-]. eauto.
Qed.

Lemma rule_of_csv_row_inv (row : Row.t) rule :
  rule_of_csv_row row = Ok rule ->
  rule_of_dynamic_row row = Ok rule
  /\ forall k, In k ["id"; "category"; "label"; "metric"; "operator"] ->
      exists s, row !! k = Some (Some s).
Proof.
  intros H. unfold rule_of_csv_row in H.
  apply bind_ok in H as (id & Hid & H).
  apply bind_ok in H as (category & Hcat & H).
  apply bind_ok in H as (label & Hlab & H).
  apply bind_ok in H as (metric & Hmet & H).
  apply bind_ok in H as (operator & Hop & H).
  apply bind_ok in H as (value_low & Hlow & H).
  apply bind_ok in H as (value_high & Hhigh & H).
  apply bind_ok in H as (window_value & Hwin & H).
  apply bind_ok in H as (weight & Hw & H).
  apply bind_ok in H as (is_gate & Hgate & H).
  injection H as <-.
  apply index_strip_ok in Hid as (s1 & K1 & -> & G1).
  apply index_strip_ok in Hcat as (s2 & K2 & -> & G2).
  apply index_strip_ok in Hlab as (s3 & K3 & -> & G3).
  apply index_strip_ok in Hmet as (s4 & K4 & -> & G4).
  apply index_strip_ok in Hop as (s5 & K5 & -> & G5).
  split.
  - unfold rule_of_dynamic_row. rewrite Hlow, Hhigh, Hwin, Hw. simpl.
    rewrite G1, G2, G3, G4, G5.
    destruct (Row.get_default row "is_gate" "FALSE") as [g|]; [|discriminate].
    injection Hgate as <-. reflexivity.
  - intros k Hk. simpl in Hk.
    destruct Hk as [<-|[<-|[<-|[<-|[<-|[]]]]]]; eauto.
Qed.

(** X16.  The row constructor of [load_rules_from_csv] is the strict form
    of the one of [load_rules]: when it gives a rule, the columns [id],
    [category], [label], [metric] and [operator] all hold a string in that
    row, and the constructor of [load_rules] gives the same rule; without
    the column [id] it raises [KeyError]. *)
Theorem csv_row_is_the_strict_constructor (row : Row.t) :
  (forall rule,
     rule_of_csv_row row = Ok rule ->
     rule_of_dynamic_row row = Ok rule
     /\ forall k, In k ["id"; "category"; "label"; "metric"; "operator"] ->
         exists s, row !! k = Some (Some s))
  /\ (row !! "id" = None ->
      rule_of_csv_row row = Raise (builtin_error "KeyError")).
Proof.
  split; [intros rule; apply rule_of_csv_row_inv|].
  intros H. unfold rule_of_csv_row, Row.index. now rewrite H.
Qed.

Lemma csv_row_is_the_strict_constructor_witness :
  rule_of_dynamic_row
    {[ "id" := Some "r1"; "category" := Some "c"; "label" := Some "l";
       "metric" := Some "stars"; "operator" := Some "gte";
       "value_exact" := Some "10"; "weight" := Some "2" ]}
  = Ok (Rule.mk "r1" "c" "l" "stars" "GTE" None None (PFloat (Examples.fl 10))
          None None None (Examples.fl 2) false)
  /\ forall k, In k ["id"; "category"; "label"; "metric"; "operator"] ->
      exists s,
        ({[ "id" := Some "r1"; "category" := Some "c"; "label" := Some "l";
            "metric" := Some "stars"; "operator" := Some "gte";
            "value_exact" := Some "10"; "weight" := Some "2" ]} : Row.t) !! k
        = Some (Some s).
Proof.
  apply (proj1 (csv_row_is_the_strict_constructor
                  {[ "id" := Some "r1"; "category" := Some "c"; "label" := Some "l";
                     "metric" := Some "stars"; "operator" := Some "gte";
                     "value_exact" := Some "10"; "weight" := Some "2" ]})).
  vm_compute. reflexivity.
Defined.

Lemma rule_of_dynamic_row_operator row rule :
  rule_of_dynamic_row row = Ok rule ->
  Rule.operator rule = Str.upper (Str.strip (Row.get_or_empty row "operator")).
Proof.
  unfold rule_of_dynamic_row. intros H. inv_bind H. now injection H as <-.
Qed.

Lemma upper_unit_ascii (c : ascii) :
  Str.byte c < 128 ->
  Str.upper_unit (Some (Str.byte c), [c]) = [Str.upper_ascii c]
  /\ (Str.byte (Str.upper_ascii c) <? 128)
     && negb ((97 <=? Str.byte (Str.upper_ascii c))
              && (Str.byte (Str.upper_ascii c) <=? 122)) = true.
Proof.
  destruct c as [[] [] [] [] [] [] [] []]; intros H;
    try (vm_compute in H; discriminate H); split; vm_compute; reflexivity.
Qed.

Lemma upper_chars_ascii (l : list ascii) :
  Forall (fun c => Str.byte c < 128) l ->
  Str.upper_chars l = map Str.upper_ascii l.
Proof.
  unfold Str.upper_chars. induction 1 as [|c l Hc Hl IH]; [reflexivity|].
  cbn [Str.units]. destruct (Z.ltb_spec (Str.byte c) 128) as [_|]; [|lia].
  cbn [flat_map map]. rewrite IH.
  now rewrite (proj1 (upper_unit_ascii c Hc)).
Qed.

Lemma strip_chars_In (l : list ascii) c : In c (Str.strip_chars l) -> In c l.
Proof.
  unfold Str.strip_chars. intros H. apply in_rev in H.
  destruct (proj1 (strip_spec _ rstrip_rev_cases (rev (Str.lstrip_chars l))))
    as [b Hb].
  assert (H' : In c (rev (Str.lstrip_chars l)))
    by (rewrite Hb; apply in_or_app; now right).
  apply in_rev in H'.
  destruct (proj1 (strip_spec _ lstrip_chars_cases l)) as [b' Hb'].
  rewrite Hb'. apply in_or_app. now right.
Qed.

(** X17.  Both loaders normalise the operator: the rule's operator is the
    [operator] cell stripped of the whitespace around it and put in upper
    case.  When the cell is made of ASCII characters, so is the operator,
    and it has no lower-case letter left, however the table spells it. *)
Theorem loaded_operator_is_normalised (row : Row.t) rule :
  rule_of_csv_row row = Ok rule \/ rule_of_dynamic_row row = Ok rule ->
  Rule.operator rule = Str.upper (Str.strip (Row.get_or_empty row "operator"))
  /\ (ascii_text (Row.get_or_empty row "operator") ->
      ascii_text (Rule.operator rule) /\ no_lower_letter (Rule.operator rule)).
Proof.
  intros H.
  assert (Hd : rule_of_dynamic_row row = Ok rule).
  { destruct H as [H|H]; [now apply rule_of_csv_row_inv | exact H]. }
  apply rule_of_dynamic_row_operator in Hd. rewrite Hd.
  split; [reflexivity|]. unfold ascii_text, no_lower_letter.
  set (cell := Row.get_or_empty row "operator"). intros Hcell.
  unfold Str.upper, Str.strip. rewrite !chars_of_chars.
  assert (Hs : Forall (fun c => Str.byte c < 128)
                 (Str.strip_chars (Str.chars cell))).
  { rewrite List.Forall_forall in Hcell |- *. intros c Hc.
    apply Hcell. now apply strip_chars_In. }
  rewrite (upper_chars_ascii _ Hs).
  split; apply List.Forall_forall; intros c Hc;
    apply in_map_iff in Hc as (c' & <- & Hc');
    rewrite List.Forall_forall in Hs;
    destruct (upper_unit_ascii c' (Hs c' Hc')) as [_ Hb];
    apply andb_true_iff in Hb as [Hb1 Hb2];
    apply Z.ltb_lt in Hb1; [exact Hb1|].
  apply negb_true_iff, andb_false_iff in Hb2. lia.
Qed.

Lemma loaded_operator_is_normalised_witness :
  rule_of_dynamic_row {[ "metric" := Some "stars"; "operator" := Some " exists " ]}
  = Ok (Rule.mk "" "" "" "stars" "EXISTS" None None PNone None None None
          Float.zero false)
  /\ ascii_text "EXISTS" /\ no_lower_letter "EXISTS".
Proof.
  assert (H : rule_of_dynamic_row
                {[ "metric" := Some "stars"; "operator" := Some " exists " ]}
              = Ok (Rule.mk "" "" "" "stars" "EXISTS" None None PNone None None None
                      Float.zero false))
    by (vm_compute; reflexivity).
  split; [exact H|].
  apply (proj2 (loaded_operator_is_normalised _ _ (or_intror H))).
  repeat constructor.
Defined.

(** ** Lists of ids *)

Lemma split_chars_In sep l cur piece c :
  In piece (Str.split_chars sep l cur) -> In c piece ->
  c <> sep \/ In c cur.
Proof.
  revert cur. induction l as [|a l IH]; intros cur Hp Hc; simpl in Hp.
  - destruct Hp as [<-|[]]. right. now apply in_rev.
  - destruct (Ascii.eqb_spec a sep) as [->|Hne].
    + destruct Hp as [<-|Hp].
      * right. now apply in_rev.
      * destruct (IH [] Hp Hc) as [?|[]]. now left.
    + destruct (IH (a :: cur) Hp Hc) as [?|[<-|?]]; auto.
Qed.

(** X18.  Every id that [_parse_id_list] returns is not empty, has no blank
    at either end and holds no comma; a missing or empty cell gives the
    empty list. *)
Theorem parsed_ids_are_clean (cell : option string) :
  (forall id, In id (_parse_id_list cell) -> clean_id id)
  /\ (cell = None \/ cell = Some "" -> _parse_id_list cell = []).
Proof.
  split.
  - intros id Hin. unfold _parse_id_list in Hin.
    destruct cell as [s|]; [|destruct Hin].
    destruct (String.eqb_spec s ""); [destruct Hin|].
    apply filter_In in Hin as [Hin Hne].
    apply in_map_iff in Hin as (piece & <- & Hin).
    unfold Str.split in Hin. apply in_map_iff in Hin as (pc & <- & Hin).
    unfold clean_id. split; [|split].
    + destruct (String.eqb_spec (Str.strip (Str.of_chars pc)) ""); [discriminate|auto].
    + apply strip_idem.
    + unfold Str.strip. rewrite !chars_of_chars. intros Hc.
      apply strip_chars_In in Hc.
      destruct (split_chars_In _ _ _ _ _ Hin Hc) as [?|[]]. congruence.
  - intros [->| ->]; reflexivity.
Qed.

Lemma parsed_ids_are_clean_witness : clean_id "r2".
Proof.
  apply (proj1 (parsed_ids_are_clean (Some " r1, ,r2 ,"))).
  vm_compute. right. left. reflexivity.
Defined.

Lemma chars_app (s1 s2 : string) :
  Str.chars (s1 ++ s2)%string = Str.chars s1 ++ Str.chars s2.
Proof. induction s1 as [|c s1 IH]; simpl; [reflexivity | now f_equal]. Qed.

Lemma split_chars_app sep l1 rest cur :
  ~ In sep l1 ->
  Str.split_chars sep (l1 ++ rest) cur = Str.split_chars sep rest (rev l1 ++ cur).
Proof.
  revert cur. induction l1 as [|a l1 IH]; intros cur Hn; simpl; [reflexivity|].
  destruct (Ascii.eqb_spec a sep) as [->|_]; [exfalso; apply Hn; now left|].
  rewrite IH by (intros H; apply Hn; now right). now rewrite <- app_assoc.
Qed.

Lemma split_join (ids : list string) :
  ids <> [] ->
  (forall id, In id ids -> ~ In ","%char (Str.chars id)) ->
  Str.split "," (join "," ids) = ids.
Proof.
  unfold Str.split. induction ids as [|x ids IH]; [congruence|]. intros _ Hc.
  destruct ids as [|y ids].
  - cbn [join]. rewrite <- (app_nil_r (Str.chars x)), split_chars_app
      by (apply Hc; now left).
    simpl. now rewrite app_nil_r, rev_involutive, of_chars_chars.
  - change (join "," (x :: y :: ids)) with (x ++ "," ++ join "," (y :: ids))%string.
    rewrite !chars_app, split_chars_app by (apply Hc; now left).
    cbn [Str.chars list_ascii_of_string app Str.split_chars].
    rewrite Ascii.eqb_refl. cbn [map].
    rewrite app_nil_r, rev_involutive, of_chars_chars. f_equal.
    apply IH; [discriminate|]. intros id Hid. apply Hc. now right.
Qed.

(** X19.  [_parse_id_list] undoes a comma join: the ids of a list, each
    not empty, without blanks at its ends and without comma, come back in
    the same order from the cell that holds them joined by commas. *)
Theorem parse_id_list_of_join (ids : list string) :
  (forall id, In id ids -> clean_id id) ->
  _parse_id_list (Some (join "," ids)) = ids.
Proof.
  intros Hclean. destruct ids as [|x ids]; [reflexivity|].
  unfold _parse_id_list.
  destruct (String.eqb_spec (join "," (x :: ids)) "") as [E|_].
  - exfalso. destruct (Hclean x) as [Hne _]; [now left|].
    destruct ids; simpl in E; [congruence|].
    destruct x; [congruence | discriminate].
  - rewrite split_join; [|discriminate|intros id Hid; now apply Hclean].
    set (l := x :: ids) in *. clearbody l.
    induction l as [|a l IH]; [reflexivity|]. simpl.
    destruct (Hclean a) as (Hne & Hs & _); [now left|]. rewrite Hs.
    destruct (String.eqb_spec a ""); [contradiction|]. simpl. f_equal.
    apply IH. intros; apply Hclean; now right.
Qed.

Lemma parse_id_list_of_join_witness :
  _parse_id_list (Some (join "," ["r1"; "r 2"; "r3"])) = ["r1"; "r 2"; "r3"].
Proof.
  apply (parse_id_list_of_join ["r1"; "r 2"; "r3"]).
  intros id [<-|[<-|[<-|[]]]]; (split; [discriminate|]);
    (split; [reflexivity|]); vm_compute; intuition discriminate.
Defined.

(** ** Validation of fetched rows *)

(** X20.  The validation of fetched rows reads the header of the first row
    and the numeric cells of the first ten rows only: once a table has ten
    rows, whatever follows them does not change the verdict. *)
Theorem validation_reads_ten_rows (k : kind) (rows more : list Row.t) :
  (10 <= length rows)%nat ->
  validate k (rows ++ more) = validate k rows.
Proof.
  intros Hlen.
  assert (H : forall required numeric,
             validate_rows required numeric (rows ++ more)
             = validate_rows required numeric rows).
  { intros required numeric. unfold validate_rows.
    destruct rows as [|first rows']; [simpl in Hlen; lia|].
    cbn [app]. do 2 f_equal.
    change (first :: rows' ++ more) with ((first :: rows') ++ more).
    now apply take_app_le. }
  destruct k; apply H.
Qed.

Lemma validation_reads_ten_rows_witness :
  validate KRules
    (repeat ({[ "id" := Some "r" ]} : Row.t) 10 ++ [{[ "weight" := Some "x" ]}])
  = validate KRules (repeat ({[ "id" := Some "r" ]} : Row.t) 10).
Proof.
  apply (validation_reads_ten_rows KRules
           (repeat ({[ "id" := Some "r" ]} : Row.t) 10) [{[ "weight" := Some "x" ]}]).
  simpl. lia.
Defined.

Lemma optional_cell_float_checked row k :
  (Str.strip (Row.get_or_empty row k) =? "")%string
  || match Str.to_float (Str.strip (Row.get_or_empty row k)) with
     | Ok _ => true
     | Raise _ => false
     end = true ->
  (exists o, optional_cell Str.to_float row k = Ok o)
  \/ (Str.strip (Row.get_or_empty row k) <> Row.get_or_empty row k
      /\ optional_cell Str.to_float row k = Raise (builtin_error "ValueError")).
Proof.
  intros H. unfold optional_cell, cell_present, Row.get_or_empty in *.
  destruct (Row.get row k) as [s|]; [|eauto].
  destruct (String.eqb_spec s ""); simpl; [eauto|].
  destruct (String.eqb_spec (Str.strip s) ""); simpl; [eauto|].
  simpl in H.
  destruct (Str.to_float s) as [x|e] eqn:E; simpl; [eauto|].
  right. rewrite (to_float_error _ _ E). split; [|reflexivity].
  intros Hs. rewrite Hs, E in H. discriminate.
Qed.

(** X21.  Rows that pass [_validate_rules_rows] have the six required
    columns in their first row, and each of the first ten of them loads
    into a rule, with two exceptions that the validation does not see: a
    [window_value] cell that is not an int, which is not checked, and a
    cell of [value_low], [value_high] or [weight] that is a number only
    once it is stripped, since the validation parses the stripped cell and
    the loader the cell as it is. *)
Theorem validated_rows_load_up_to_the_window (rows : list Row.t) :
  _validate_rules_rows rows = true ->
  (exists first rest,
     rows = first :: rest
     /\ forall k, In k ["id"; "category"; "label"; "metric"; "operator"; "weight"] ->
                  is_Some (first !! k))
  /\ forall row, In row (firstn 10 rows) ->
       (exists rule, rule_of_dynamic_row row = Ok rule)
       \/ optional_cell Str.to_int row "window_value"
          = Raise (builtin_error "ValueError")
       \/ exists k,
            In k ["value_low"; "value_high"; "weight"]
            /\ Str.strip (Row.get_or_empty row k) <> Row.get_or_empty row k
            /\ optional_cell Str.to_float row k
               = Raise (builtin_error "ValueError").
Proof.
  unfold _validate_rules_rows, validate_rows.
  destruct rows as [|first rest]; [discriminate|]. intros H.
  apply andb_true_iff in H as [Hreq Hnum]. split.
  - exists first, rest. split; [reflexivity|]. intros k Hk.
    rewrite forallb_forall in Hreq. specialize (Hreq k Hk).
    now apply bool_decide_eq_true in Hreq.
  - intros row Hin. rewrite forallb_forall in Hnum. specialize (Hnum row Hin).
    cbn [forallb] in Hnum.
    apply andb_true_iff in Hnum as [Hlow Hnum].
    apply andb_true_iff in Hnum as [Hhigh Hnum].
    apply andb_true_iff in Hnum as [Hw _].
    apply optional_cell_float_checked in Hlow as [[low Hlow]|Hlow];
      [|right; right; exists "value_low"; simpl; tauto].
    apply optional_cell_float_checked in Hhigh as [[high Hhigh]|Hhigh];
      [|right; right; exists "value_high"; simpl; tauto].
    apply optional_cell_float_checked in Hw as [[wt Hw]|Hw];
      [|right; right; exists "weight"; simpl; tauto].
    unfold rule_of_dynamic_row. rewrite Hlow, Hhigh, Hw. cbn [bind].
    destruct (optional_cell Str.to_int row "window_value") as [wv|e] eqn:E.
    + left. simpl. eauto.
    + right. left. f_equal. eapply optional_cell_error; [|exact E].
      apply to_int_error.
Qed.

Lemma validated_rows_load_up_to_the_window_witness :
  _validate_rules_rows [ResolverExamples.unchecked_window_row] = true
  /\ forall row,
       In row (firstn 10 [ResolverExamples.unchecked_window_row]) ->
       (exists rule, rule_of_dynamic_row row = Ok rule)
       \/ optional_cell Str.to_int row "window_value"
          = Raise (builtin_error "ValueError")
       \/ exists k,
            In k ["value_low"; "value_high"; "weight"]
            /\ Str.strip (Row.get_or_empty row k) <> Row.get_or_empty row k
            /\ optional_cell Str.to_float row k
               = Raise (builtin_error "ValueError").
Proof.
  assert (H : _validate_rules_rows [ResolverExamples.unchecked_window_row] = true)
    by (vm_compute; reflexivity).
  split; [exact H|].
  exact (proj2 (validated_rows_load_up_to_the_window
                  [ResolverExamples.unchecked_window_row] H)).
Defined.

(** Both exceptions happen: a table of one row passes the validation and
    does not load, for its window in the first case, for its weight in the
    second. *)
Example validated_rows_that_do_not_load :
  _validate_rules_rows [ResolverExamples.unchecked_window_row] = true
  /\ rule_of_dynamic_row ResolverExamples.unchecked_window_row
     = Raise (builtin_error "ValueError")
  /\ _validate_rules_rows [ResolverExamples.padded_weight_row] = true
  /\ rule_of_dynamic_row ResolverExamples.padded_weight_row
     = Raise (builtin_error "ValueError").
Proof. repeat split; vm_compute; reflexivity. Qed.

(** ** The resolver *)

(** The tiers of [_load_csv_rows_dynamic], in their order. *)
Lemma dynamic_tiers w provider_name k fallback_path :
  _load_csv_rows_dynamic w provider_name k fallback_path =
  if configured w then
    match fresh_cache_rows w (cache_bucket w) (cache_key w k provider_name)
            (cache_ttl w) with
    | Some rows => Ok (Some rows)
    | None => after_fresh_cache w k provider_name fallback_path
    end
  else local_rows w fallback_path.
Proof.
  unfold _load_csv_rows_dynamic, after_fresh_cache, configured, cache_bucket,
    cache_key, cache_ttl.
  destruct (truthy_str (_env w "RULES_SPREADSHEET_ID" None)),
    (truthy_str (_env w "GOOGLE_SHEETS_API_KEY" None)); reflexivity.
Qed.

Lemma mapM_raise {A B : Type} (f : A -> result B) (xs : list A) e :
  mapM f xs = Raise e -> exists x, In x xs /\ f x = Raise e.
Proof.
  induction xs as [|x xs IH]; simpl; [discriminate|].
  destruct (f x) as [y|e'] eqn:E; simpl.
  - destruct (mapM f xs) as [ys|e'']; simpl; [discriminate|].
    intros [= ->]. destruct IH as (x' & Hin & Hx'); eauto.
  - intros [= ->]. eauto.
Qed.

Lemma option_of_row_error row e :
  option_of_row row = Raise e -> e = builtin_error "ValueError".
Proof.
  intros H. unfold option_of_row in H.
  apply bind_raise in H as [H|(? & _ & H)];
    [eapply optional_cell_error; [|exact H]; apply to_int_error|].
  apply bind_raise in H as [H|(? & _ & H)].
  { destruct (Row.get row "likert_value") as [s|]; [|discriminate].
    destruct (String.eqb s ""); [discriminate|]. now apply to_int_error in H. }
  apply bind_raise in H as [H|(? & _ & H)];
    [eapply optional_cell_error; [|exact H]; apply to_float_error|].
  discriminate.
Qed.

(** X22.  Without a spreadsheet id or without an API key in the
    environment, the loaders read the local file and nothing else, whatever
    the cache and the sheet hold.  [load_rules] reads the text of the file,
    has the [csv] module cut it into rows and builds its rules from them;
    it raises what the reading raises (a file that cannot be opened or is
    not UTF-8), what the [csv] module raises and what the first bad row
    raises; and it raises [FileNotFoundError] when there is no file.
    [load_business_rules] does the same for its options and gives the empty
    list when there is no file. *)
Theorem unconfigured_loaders_read_the_local_file (w : World)
    (provider_name rules_dir : string) :
  configured w = false ->
  load_rules w provider_name rules_dir
  = match files w (rules_path provider_name rules_dir) with
    | Some f =>
        do text <- file_text f;
        do rows <- _csv_string_to_dicts w text;
        mapM rule_of_dynamic_row rows
    | None =>
        Raise (Exn "FileNotFoundError"
                 ("Rules file not found for provider '" ++ provider_name
                  ++ "' at " ++ rules_path provider_name rules_dir)%string)
    end
  /\ load_business_rules w provider_name rules_dir
     = match files w (br_path provider_name rules_dir) with
       | Some f =>
           do text <- file_text f;
           do rows <- _csv_string_to_dicts w text;
           mapM option_of_row rows
       | None => Ok []
       end.
Proof.
  intros Hc. unfold load_rules, load_business_rules.
  rewrite !dynamic_tiers, Hc. unfold local_rows.
  unfold load_rules_from_csv, load_business_rules_from_csv. cbv zeta.
  split.
  - destruct (files w (rules_path provider_name rules_dir)) as [f|];
      [|reflexivity].
    destruct (file_text f) as [text|]; [|reflexivity]. simpl.
    destruct (_csv_string_to_dicts w text); reflexivity.
  - destruct (files w (br_path provider_name rules_dir)) as [f|];
      [|reflexivity].
    destruct (file_text f) as [text|]; [|reflexivity]. simpl.
    destruct (_csv_string_to_dicts w text); reflexivity.
Qed.

Lemma unconfigured_loaders_read_the_local_file_witness :
  load_rules RuntimeExamples.world "github" "/srv"
  = Ok [Rule.mk "r1" "" "" "stars" "EXISTS" None None PNone None None None
          (Examples.fl 2) false]
  /\ load_rules ResolverExamples.undecodable_world "github" "/srv"
     = Raise (builtin_error "UnicodeDecodeError")
  /\ load_business_rules ResolverExamples.undecodable_world "github" "/srv"
     = Raise (builtin_error "UnicodeDecodeError")
  /\ load_business_rules Examples.empty_world "github" "/srv" = Ok [].
Proof.
  split; [|split; [|split]].
  - rewrite (proj1 (unconfigured_loaders_read_the_local_file
                      RuntimeExamples.world "github" "/srv" eq_refl)).
    vm_compute. reflexivity.
  - rewrite (proj1 (unconfigured_loaders_read_the_local_file
                      ResolverExamples.undecodable_world "github" "/srv" eq_refl)).
    reflexivity.
  - rewrite (proj2 (unconfigured_loaders_read_the_local_file
                      ResolverExamples.undecodable_world "github" "/srv" eq_refl)).
    reflexivity.
  - rewrite (proj2 (unconfigured_loaders_read_the_local_file
                      Examples.empty_world "github" "/srv" eq_refl)).
    reflexivity.
Defined.

(** X23.  With the remote source configured, a cached copy younger than
    the TTL that the [csv] module reads is returned as it is: its rows are
    not validated, the sheet is not fetched and the local file is not read.
    When the [csv] module raises on that copy, the exception is dropped and
    the resolver goes on with the sheet, as it does without a fresh copy.
    The TTL is the integer in [RULES_CACHE_TTL_SECONDS], or 86400 when that
    is unset, empty or not an integer. *)
Theorem fresh_cache_is_returned_unvalidated (w : World) (provider_name : string)
    (k : kind) (fallback_path bucket text : string) (age : float) :
  configured w = true ->
  s3_client w = true ->
  cache_bucket w = Some bucket ->
  bucket <> "" ->
  s3_age w bucket (cache_key w k provider_name) = Some (Some age) ->
  number_compare (NFloat age) (NInt (cache_ttl w)) = Some Lt ->
  s3_get w bucket (cache_key w k provider_name) = Some text ->
  text <> "" ->
  _load_csv_rows_dynamic w provider_name k fallback_path
  = match _csv_string_to_dicts w text with
    | Ok rows => Ok (Some rows)
    | Raise _ => after_fresh_cache w k provider_name fallback_path
    end
  /\ (environ w "RULES_CACHE_TTL_SECONDS" = None -> cache_ttl w = 86400).
Proof.
  intros Hc Hs3 Hb Hbne Hage Hlt Hget Htext. split.
  - rewrite dynamic_tiers, Hc. unfold fresh_cache_rows.
    rewrite Hb, Hs3. destruct (String.eqb_spec bucket ""); [contradiction|].
    cbn [negb andb]. rewrite Hage, Hlt. unfold _read_cached_rules_from_s3.
    rewrite Hs3. destruct (String.eqb_spec bucket ""); [contradiction|].
    destruct (String.eqb_spec (cache_key w k provider_name) "") as [E|_].
    { unfold cache_key in E.
      destruct (option_default _ _); discriminate E. }
    cbn [negb orb]. rewrite Hget.
    destruct (String.eqb_spec text ""); [contradiction|].
    destruct (_csv_string_to_dicts w text); reflexivity.
  - intros Henv. unfold cache_ttl, _env. rewrite Henv. reflexivity.
Qed.

Lemma fresh_cache_is_returned_unvalidated_witness :
  _load_csv_rows_dynamic ResolverExamples.cached_world "github" KRules "/nowhere"
  = Ok (Some [{[ "id" := Some "r1" ]}])
  /\ _load_csv_rows_dynamic ResolverExamples.unreadable_cache_world "github" KRules
       "/nowhere"
     = after_fresh_cache ResolverExamples.unreadable_cache_world KRules "github"
         "/nowhere".
Proof.
  split.
  - rewrite (proj1 (fresh_cache_is_returned_unvalidated
                      ResolverExamples.cached_world
                      "github" KRules "/nowhere" "bucket-1" "r1" (Examples.fl 60)
                      eq_refl eq_refl eq_refl ltac:(discriminate) eq_refl eq_refl
                      eq_refl ltac:(discriminate))).
    reflexivity.
  - rewrite (proj1 (fresh_cache_is_returned_unvalidated
                      ResolverExamples.unreadable_cache_world
                      "github" KRules "/nowhere" "bucket-1" "r1" (Examples.fl 60)
                      eq_refl eq_refl eq_refl ltac:(discriminate) eq_refl eq_refl
                      eq_refl ltac:(discriminate))).
    reflexivity.
Defined.

(** The cached copy that the [csv] module refuses is passed over: the rows
    come from the sheet. *)
Example unreadable_cache_is_passed_over :
  exists row,
    _load_csv_rows_dynamic ResolverExamples.unreadable_cache_world "github" KRules
      "/nowhere" = Ok (Some [row])
    /\ Row.get row "id" = Some "sheet".
Proof. eexists. split; vm_compute; reflexivity. Qed.

Lemma sheet_rows_validated w k spreadsheet_id api_key provider_name rows :
  sheet_rows w k spreadsheet_id api_key provider_name = Ok (Some rows) ->
  validate k rows = true.
Proof.
  unfold sheet_rows. cbv zeta.
  destruct (sheet_values w _ _ _) as [[|row more]|]; try discriminate.
  destruct (_sheet_values_to_csv_text w _) as [csv_text|]; [|discriminate].
  cbn [bind]. destruct (_csv_string_to_dicts w csv_text) as [r|]; [|discriminate].
  cbn [bind]. destruct (validate k r) eqn:E; [|discriminate]. now intros [= <-].
Qed.

Lemma stale_cache_rows_validated w k bucket key rows :
  stale_cache_rows w k bucket key = Some rows -> validate k rows = true.
Proof.
  unfold stale_cache_rows.
  destruct bucket as [b|]; [|discriminate].
  destruct (String.eqb b ""); [discriminate|].
  destruct (_read_cached_rules_from_s3 w b key) as [text|]; [|discriminate].
  destruct (String.eqb text ""); [discriminate|].
  destruct (_csv_string_to_dicts w text) as [r|]; [|discriminate].
  destruct (validate k r) eqn:E; [|discriminate]. now intros [= <-].
Qed.

(** X24.  With the remote source configured, no fresh cached copy and no
    local file, the rows that the resolver returns come from the sheet or
    from a stale cached copy, and they have passed the validation of their
    kind. *)
Theorem remote_rows_are_validated (w : World) (provider_name : string)
    (k : kind) (fallback_path : string) (rows : list Row.t) :
  configured w = true ->
  fresh_cache_rows w (cache_bucket w) (cache_key w k provider_name) (cache_ttl w)
  = None ->
  files w fallback_path = None ->
  _load_csv_rows_dynamic w provider_name k fallback_path = Ok (Some rows) ->
  validate k rows = true.
Proof.
  intros Hc Hfresh Hfile. rewrite dynamic_tiers, Hc, Hfresh.
  unfold after_fresh_cache.
  destruct (sheet_rows w k _ _ provider_name) as [[r|]|] eqn:Hsheet;
    cbn [bind]; [| |discriminate].
  { intros [= <-]. exact (sheet_rows_validated _ _ _ _ _ _ Hsheet). }
  destruct (stale_cache_rows w k _ _) as [r|] eqn:Hstale.
  { intros [= <-]. exact (stale_cache_rows_validated _ _ _ _ _ Hstale). }
  unfold local_rows. rewrite Hfile. discriminate.
Qed.

Lemma remote_rows_are_validated_witness :
  validate KRules
    [{[ "id" := Some "r1"; "category" := Some "c"; "label" := Some "l";
        "metric" := Some "stars"; "operator" := Some "EXISTS";
        "weight" := Some "1" ]}] = true.
Proof.
  apply (remote_rows_are_validated ResolverExamples.stale_world "github" KRules
           "/nowhere"); vm_compute; reflexivity.
Defined.

Lemma local_rows_raise w fallback_path f e :
  files w fallback_path = Some f ->
  local_rows w fallback_path = Raise e ->
  file_text f = Raise e
  \/ exists text, file_text f = Ok text /\ _csv_string_to_dicts w text = Raise e.
Proof.
  unfold local_rows. intros ->.
  destruct (file_text f) as [text|e']; cbn [bind]; [|intros [= ->]; now left].
  destruct (_csv_string_to_dicts w text) as [rows|e'] eqn:E; cbn [bind];
    [discriminate|]. intros [= ->]. right. eauto.
Qed.

Lemma dynamic_raise w provider_name k fallback_path f e :
  files w fallback_path = Some f ->
  _load_csv_rows_dynamic w provider_name k fallback_path = Raise e ->
  raised_by_sources w k provider_name f e.
Proof.
  intros Hf. rewrite dynamic_tiers. unfold raised_by_sources.
  destruct (configured w); [|intros H; right; now apply (local_rows_raise w fallback_path)].
  destruct (fresh_cache_rows _ _ _ _); [discriminate|].
  unfold after_fresh_cache.
  destruct (sheet_rows _ _ _ _ _) as [[rows|]|e']; cbn [bind];
    [discriminate| |intros [= ->]; now left].
  destruct (stale_cache_rows _ _ _ _); [discriminate|].
  intros H; right; now apply (local_rows_raise w fallback_path).
Qed.

(** X25.  When the local file of a provider exists, the resolver never
    answers that it has no rows, so [load_rules] does not fall back on
    [load_rules_from_csv] and its [FileNotFoundError].  What [load_rules]
    raises is then [ValueError] for a cell that is not a number, or an
    exception of the outside that nothing catches: what the [csv] module
    raises on the fetched sheet, what the reading of the local file raises
    and what the [csv] module raises on its text.  The same holds of
    [load_business_rules]. *)
Theorem local_file_keeps_the_loaders_available (w : World)
    (provider_name rules_dir : string) :
  (forall f, files w (rules_path provider_name rules_dir) = Some f ->
   _load_csv_rows_dynamic w provider_name KRules
     (rules_path provider_name rules_dir) <> Ok None
   /\ forall e, load_rules w provider_name rules_dir = Raise e ->
                e = builtin_error "ValueError"
                \/ raised_by_sources w KRules provider_name f e)
  /\ (forall f, files w (br_path provider_name rules_dir) = Some f ->
      _load_csv_rows_dynamic w provider_name KBr
        (br_path provider_name rules_dir) <> Ok None
      /\ forall e, load_business_rules w provider_name rules_dir = Raise e ->
                   e = builtin_error "ValueError"
                   \/ raised_by_sources w KBr provider_name f e).
Proof.
  split.
  - intros f Hfile. split.
    { intros E. apply dynamic_none_no_file in E. congruence. }
    intros e H. unfold load_rules in H.
    destruct (_load_csv_rows_dynamic w provider_name KRules
                (rules_path provider_name rules_dir)) as [[rows|]|e'] eqn:E;
      cbn [bind] in H.
    + left. apply mapM_raise in H as (row & _ & H).
      now apply rule_of_dynamic_row_error in H.
    + apply dynamic_none_no_file in E. congruence.
    + injection H as ->. right. now apply (dynamic_raise _ _ _ _ _ _ Hfile).
  - intros f Hfile. split.
    { intros E. apply dynamic_none_no_file in E. congruence. }
    intros e H. unfold load_business_rules in H.
    destruct (_load_csv_rows_dynamic w provider_name KBr
                (br_path provider_name rules_dir)) as [[rows|]|e'] eqn:E;
      cbn [bind] in H.
    + left. apply mapM_raise in H as (row & _ & H).
      now apply option_of_row_error in H.
    + apply dynamic_none_no_file in E. congruence.
    + injection H as ->. right. now apply (dynamic_raise _ _ _ _ _ _ Hfile).
Qed.

Lemma local_file_keeps_the_loaders_available_witness :
  _load_csv_rows_dynamic ResolverExamples.local_world "github" KRules
    (rules_path "github" "/srv") <> Ok None
  /\ forall e, load_rules ResolverExamples.local_world "github" "/srv" = Raise e ->
               e = builtin_error "ValueError"
               \/ raised_by_sources ResolverExamples.local_world KRules "github"
                    ResolverExamples.local_file e.
Proof.
  apply (proj1 (local_file_keeps_the_loaders_available
                  ResolverExamples.local_world "github" "/srv")
           ResolverExamples.local_file).
  reflexivity.
Defined.

(** Both kinds of exception happen: a weight that is not a number, and a
    local file that is not UTF-8. *)
Example local_file_that_does_not_load :
  load_rules ResolverExamples.local_world "github" "/srv"
  = Raise (builtin_error "ValueError")
  /\ load_rules ResolverExamples.undecodable_world "github" "/srv"
     = Raise (builtin_error "UnicodeDecodeError")
  /\ load_rules_from_csv ResolverExamples.undecodable_world "github" "/srv"
     = Raise (builtin_error "UnicodeDecodeError").
Proof. repeat split; vm_compute; reflexivity. Qed.

(* ===================================================================== *)
(** * Properties of the evaluation of several providers *)
(* ===================================================================== *)

Section Providers.
Context {payload : Type}.
Variable rt : Runtime payload.
Variable w : World.
Variable script_dir : string.

Lemma evaluate_payload_results st provider_name p :
  snd (evaluate_payload rt w script_dir st (provider_name, p))
  = <[provider_name := entry_of rt w script_dir provider_name p]> (snd st).
Proof.
  destruct st as [total results]. unfold evaluate_payload, entry_of.
  destruct (evaluate_provider rt w script_dir provider_name p) as [[t r]|e];
    reflexivity.
Qed.

Lemma evaluate_payload_ok st provider_name p t r :
  evaluate_provider rt w script_dir provider_name p = Ok (t, r) ->
  evaluate_payload rt w script_dir st (provider_name, p)
  = (Float.add (fst st) t, <[provider_name := r]> (snd st)).
Proof.
  intros E. destruct st as [total results]. unfold evaluate_payload.
  now rewrite E.
Qed.

Lemma evaluate_payload_raise st provider_name p e :
  evaluate_provider rt w script_dir provider_name p = Raise e ->
  evaluate_payload rt w script_dir st (provider_name, p)
  = (fst st, <[provider_name := Failed (exn_msg e) (exn_type e)]> (snd st)).
Proof.
  intros E. destruct st as [total results]. unfold evaluate_payload.
  now rewrite E.
Qed.

Lemma fold_payloads_lookup payloads st name :
  ~ In name (map fst payloads) ->
  snd (fold_left (evaluate_payload rt w script_dir) payloads st) !! name
  = snd st !! name.
Proof.
  revert st. induction payloads as [|[n p] l IH]; intros st Hn; [reflexivity|].
  cbn [fold_left]. rewrite IH by (intros H; apply Hn; now right).
  rewrite evaluate_payload_results. apply lookup_insert_ne.
  intros ->. apply Hn. now left.
Qed.

Lemma fold_payloads_insert payloads total results name r :
  ~ In name (map fst payloads) ->
  fold_left (evaluate_payload rt w script_dir) payloads
    (total, <[name := r]> results)
  = (fst (fold_left (evaluate_payload rt w script_dir) payloads (total, results)),
     <[name := r]>
       (snd (fold_left (evaluate_payload rt w script_dir) payloads (total, results)))).
Proof.
  revert total results. induction payloads as [|[n p] l IH];
    intros total results Hn; [reflexivity|].
  cbn [fold_left].
  assert (Hne : name <> n) by (intros ->; apply Hn; now left).
  assert (Hl : ~ In name (map fst l)) by (intros H; apply Hn; now right).
  destruct (evaluate_provider rt w script_dir n p) as [[t r']|e] eqn:E.
  - rewrite !(evaluate_payload_ok _ _ _ _ _ E). cbn [fst snd].
    rewrite (insert_insert_ne _ n name) by congruence. now apply IH.
  - rewrite !(evaluate_payload_raise _ _ _ _ E). cbn [fst snd].
    rewrite (insert_insert_ne _ n name) by congruence. now apply IH.
Qed.
End Providers.

Lemma fold_payloads_total {payload : Type} (rt : Runtime payload) w script_dir
    payloads total results :
  fst (fold_left (evaluate_payload rt w script_dir) payloads (total, results))
  = fold_left Float.add (omap (contribution rt w script_dir) payloads) total.
Proof.
  revert total results. induction payloads as [|[n p] l IH]; intros total results;
    [reflexivity|].
  cbn [fold_left].
  destruct (evaluate_provider rt w script_dir n p) as [[t r]|e] eqn:E.
  - rewrite (evaluate_payload_ok _ _ _ _ _ _ _ _ E). cbn [fst snd].
    assert (Hc : contribution rt w script_dir (n, p) = Some t)
      by (unfold contribution; cbn [fst snd]; now rewrite E).
    change (omap (contribution rt w script_dir) ((n, p) :: l))
      with (match contribution rt w script_dir (n, p) with
            | Some y => y :: omap (contribution rt w script_dir) l
            | None => omap (contribution rt w script_dir) l
            end).
    rewrite Hc. cbn [fold_left]. apply IH.
  - rewrite (evaluate_payload_raise _ _ _ _ _ _ _ E). cbn [fst snd].
    assert (Hc : contribution rt w script_dir (n, p) = None)
      by (unfold contribution; cbn [fst snd]; now rewrite E).
    change (omap (contribution rt w script_dir) ((n, p) :: l))
      with (match contribution rt w script_dir (n, p) with
            | Some y => y :: omap (contribution rt w script_dir) l
            | None => omap (contribution rt w script_dir) l
            end).
    rewrite Hc. apply IH.
Qed.

(** X26.  A provider whose evaluation raises (no rule table, an adapter
    that cannot be built, an operator that raises) is recorded with the
    text and the class of the exception, and the run ends as it would
    without that provider: the same total and the same entries for the
    other providers. *)
Theorem failing_provider_is_recorded_and_skipped {payload : Type}
    (rt : Runtime payload) w script_dir pre name (p : payload) post e :
  evaluate_provider rt w script_dir name p = Raise e ->
  ~ In name (map fst post) ->
  evaluate_payloads rt w script_dir (pre ++ (name, p) :: post)
  = (fst (evaluate_payloads rt w script_dir (pre ++ post)),
     <[name := Failed (exn_msg e) (exn_type e)]>
       (snd (evaluate_payloads rt w script_dir (pre ++ post)))).
Proof.
  intros He Hn. unfold evaluate_payloads. rewrite !fold_left_app.
  destruct (fold_left (evaluate_payload rt w script_dir) pre (Float.zero, ∅))
    as [t1 r1].
  cbn [fold_left]. rewrite (evaluate_payload_raise _ _ _ _ _ _ _ He).
  cbn [fst snd]. rewrite fold_payloads_insert by exact Hn.
  destruct (fold_left (evaluate_payload rt w script_dir) post (t1, r1)); reflexivity.
Qed.

Lemma failing_provider_is_recorded_and_skipped_witness :
  evaluate_payloads RuntimeExamples.runtime RuntimeExamples.world "/srv"
    ([("github", RuntimeExamples.stars_payload)]
     ++ ("broken", RuntimeExamples.stars_payload)
     :: [("gitlab", RuntimeExamples.stars_payload)])
  = (fst (evaluate_payloads RuntimeExamples.runtime RuntimeExamples.world "/srv"
            ([("github", RuntimeExamples.stars_payload)]
             ++ [("gitlab", RuntimeExamples.stars_payload)])),
     <["broken" := Failed "Could not load provider 'broken'" "ValueError"]>
       (snd (evaluate_payloads RuntimeExamples.runtime RuntimeExamples.world "/srv"
               ([("github", RuntimeExamples.stars_payload)]
                ++ [("gitlab", RuntimeExamples.stars_payload)])))).
Proof.
  apply (failing_provider_is_recorded_and_skipped RuntimeExamples.runtime
           RuntimeExamples.world "/srv" [("github", RuntimeExamples.stars_payload)]
           "broken" RuntimeExamples.stars_payload
           [("gitlab", RuntimeExamples.stars_payload)]
           (Exn "ValueError" "Could not load provider 'broken'")).
  - vm_compute. reflexivity.
  - simpl. intuition discriminate.
Defined.

(** X27.  The results hold one entry for every provider of the payloads and
    for no other name: for payloads with distinct names, the entry of a
    provider is its scores when its evaluation returned and the exception
    when it raised; and the total is the rounding of the floating-point
    sum, in order, of what the providers that returned contributed. *)
Theorem every_provider_has_its_entry {payload : Type}
    (rt : Runtime payload) w script_dir (payloads : list (string * payload)) :
  NoDup (map fst payloads) ->
  (forall name p, In (name, p) payloads ->
     snd (evaluate_payloads rt w script_dir payloads) !! name
     = Some (entry_of rt w script_dir name p))
  /\ (forall name, ~ In name (map fst payloads) ->
        snd (evaluate_payloads rt w script_dir payloads) !! name = None)
  /\ fst (evaluate_payloads rt w script_dir payloads)
     = round6 rt
         (fold_left Float.add (omap (contribution rt w script_dir) payloads)
            Float.zero).
Proof.
  intros Hnd. unfold evaluate_payloads.
  destruct (fold_left (evaluate_payload rt w script_dir) payloads (Float.zero, ∅))
    as [total results] eqn:E.
  assert (Hres : results
                 = snd (fold_left (evaluate_payload rt w script_dir) payloads
                          (Float.zero, ∅))) by now rewrite E.
  assert (Htot : total
                 = fst (fold_left (evaluate_payload rt w script_dir) payloads
                          (Float.zero, ∅))) by now rewrite E.
  cbn [fst snd]. split; [|split].
  - rewrite Hres. clear E Hres Htot.
    generalize (Float.zero, (∅ : gmap string provider_result)).
    induction payloads as [|[n q] l IH]; intros st name p Hin; [destruct Hin|].
    cbn [map fst] in Hnd. apply NoDup_cons in Hnd as [Hn Hnd].
    rewrite list_elem_of_In in Hn. cbn [fold_left].
    destruct Hin as [[= -> ->]|Hin].
    + rewrite fold_payloads_lookup by exact Hn.
      rewrite evaluate_payload_results. apply lookup_insert_eq.
    + now apply IH.
  - intros name Hn. rewrite Hres.
    rewrite fold_payloads_lookup by exact Hn. apply lookup_empty.
  - rewrite Htot. now rewrite fold_payloads_total.
Qed.

Lemma every_provider_has_its_entry_witness :
  snd (evaluate_payloads RuntimeExamples.runtime RuntimeExamples.world "/srv"
         [("github", RuntimeExamples.stars_payload);
          ("broken", RuntimeExamples.stars_payload)]) !! "broken"
  = Some (entry_of RuntimeExamples.runtime RuntimeExamples.world "/srv" "broken"
            RuntimeExamples.stars_payload).
Proof.
  apply (proj1 (every_provider_has_its_entry RuntimeExamples.runtime
                  RuntimeExamples.world "/srv"
                  [("github", RuntimeExamples.stars_payload);
                   ("broken", RuntimeExamples.stars_payload)]
                  ltac:(apply (bool_decide_unpack _); vm_compute; exact I))).
  simpl. tauto.
Defined.

Lemma has_error_iff entry :
  has_error entry = true <->
  exists msg, AtomicLogEntry.error entry = Some msg /\ msg <> "".
Proof.
  unfold has_error, truthy_str. destruct (AtomicLogEntry.error entry) as [s|].
  - destruct (String.eqb_spec s ""); simpl; split.
    + discriminate.
    + intros (msg & [= <-] & H). contradiction.
    + eauto.
    + reflexivity.
  - split; [discriminate | intros (msg & [=] & _)].
Qed.

(** X28.  The [errors] of a provider that was scored are the entries of its
    atomic log whose error text is not empty.  So a rule whose [get_metric]
    raised is always in the atomic log, but it is reported under [errors]
    only if the exception had a message: a failure raised without text is
    left out of the report. *)
Theorem errors_report_needs_a_message {payload : Type} (rt : Runtime payload)
    w script_dir name (p : payload) total s sa sb business errors :
  evaluate_provider rt w script_dir name p
  = Ok (total, Scored s sa sb business errors) ->
  exists rules provider score log,
    load_rules w name script_dir = Ok rules
    /\ get_provider_instance rt name p = Ok provider
    /\ evaluate_rules provider rules = Ok (score, log)
    /\ (forall entry,
          In entry errors <->
          In entry log
          /\ exists msg, AtomicLogEntry.error entry = Some msg /\ msg <> "")
    /\ (forall rule e,
          In rule rules ->
          provider (Rule.metric rule) (Rule.window_value rule) (Rule.window_unit rule)
          = Raise e ->
          In (error_entry rule e) log
          /\ (In (error_entry rule e) errors <-> exn_msg e <> "")).
Proof.
  unfold evaluate_provider. intros H.
  apply bind_ok in H as (rules & Hrules & H).
  apply bind_ok in H as (provider & Hprov & H).
  apply bind_ok in H as ([score log] & Hev & H).
  apply bind_ok in H as (br & Hbr & H).
  destruct (evaluate_business_rules log br) as [bscore blog].
  injection H as _ _ _ _ _ <-.
  exists rules, provider, score, log. do 3 (split; [assumption|]).
  assert (Herr : forall entry,
            In entry (List.filter has_error log) <->
            In entry log
            /\ exists msg, AtomicLogEntry.error entry = Some msg /\ msg <> "").
  { intros entry. now rewrite filter_In, has_error_iff. }
  split; [exact Herr|].
  intros rule e Hin Hp.
  assert (Hlog : In (error_entry rule e) log).
  { apply list_elem_of_In, list_elem_of_lookup in Hin as [i Hi].
    destruct (evaluate_rules_entry _ _ _ _ _ _ Hev Hi) as (entry & Hl & Ho).
    unfold rule_outcome in Ho. rewrite Hp in Ho. injection Ho as <-.
    apply list_elem_of_In, list_elem_of_lookup. eauto. }
  split; [exact Hlog|]. rewrite Herr. simpl. split.
  - intros (_ & msg & [= <-] & H). exact H.
  - intros H. split; [exact Hlog|]. eauto.
Qed.

Lemma errors_report_needs_a_message_witness :
  exists rules provider score log,
    load_rules RuntimeExamples.world "github" "/srv" = Ok rules
    /\ get_provider_instance RuntimeExamples.runtime "github"
         RuntimeExamples.silent_payload = Ok provider
    /\ evaluate_rules provider rules = Ok (score, log)
    /\ (forall entry,
          In entry [] <->
          In entry log
          /\ exists msg, AtomicLogEntry.error entry = Some msg /\ msg <> "")
    /\ (forall rule e,
          In rule rules ->
          provider (Rule.metric rule) (Rule.window_value rule) (Rule.window_unit rule)
          = Raise e ->
          In (error_entry rule e) log
          /\ (In (error_entry rule e) [] <-> exn_msg e <> "")).
Proof.
  eapply (errors_report_needs_a_message RuntimeExamples.runtime
            RuntimeExamples.world "/srv" "github" RuntimeExamples.silent_payload).
  vm_compute. reflexivity.
Defined.

Lemma business_log_lists_groups_in_first_appearance_order_witness :
  map BusinessLogEntry.group_id
    (snd (evaluate_business_rules Examples.atomic_log Examples.br_options))
  = distinct_keys (map BusinessRuleOption.group_id Examples.br_options).
Proof.
  exact (proj1 (business_log_lists_groups_in_first_appearance_order
                  Examples.atomic_log Examples.br_options)).
Defined.
